(** * SQL backup system: scheduler, backup executor and retention sweep

    A shallow embedding of
      backend/app/models/models.py
      backend/app/services/backup_service.py
      backend/app/services/notification_service.py
      backend/app/services/scheduler_service.py
      backend/app/services/storage_service.py
      backend/app/api/backups.py
      backend/app/api/storage.py
    and the properties of the orchestration core that hold of it.

    Python objects that the services mutate live in an explicit [World];
    every service method is a computation in the monad [M], which threads
    the world and carries Python exceptions. *)

From Stdlib Require Import ZArith Lia.
From Stdlib Require Floats Uint63.
From stdpp Require Import gmap strings list pretty sorting.

Local Open Scope string_scope.
Local Open Scope list_scope.
Local Open Scope Z_scope.

(** ** models.py: enumerations *)

Inductive BackupType := FULL | DIFFERENTIAL.

Inductive BackupStatus := PENDING | IN_PROGRESS | COMPLETED | FAILED.

Inductive ScheduleFrequency := DAILY | WEEKLY | MONTHLY.

#[global] Instance BackupStatus_eq_dec : EqDecision BackupStatus.
Proof. solve_decision. Defined.

(** [BackupStatus.<name>]: attribute access on the enumeration class.  A
    name that is not a member has no value (Python raises AttributeError). *)
Definition BackupStatus_getattr (name : string) : option BackupStatus :=
  if String.eqb name "PENDING" then Some PENDING
  else if String.eqb name "IN_PROGRESS" then Some IN_PROGRESS
  else if String.eqb name "COMPLETED" then Some COMPLETED
  else if String.eqb name "FAILED" then Some FAILED
  else None.

(** ** models.py: rows *)

Record User := mkUser {
  user_id : Z;
  email : string
}.

Record Database := mkDatabase {
  db_name : string;
  connection_string : string
}.

Record NotificationSettings := mkNotificationSettings {
  ns_user_id : Z;
  backup_success : bool;
  backup_failure : bool
}.

(** [database] and [user] are the relationships of BackupJob, resolved:
    [None] when the foreign key is NULL. *)
Record BackupJob := mkBackupJob {
  job_id : Z;
  database : option Database;
  user : option User;
  backup_type : BackupType;
  frequency : ScheduleFrequency;
  retention_days : Z;
  last_run : option Z;
  next_run : option Z;
  is_active : bool
}.

Record Backup := mkBackup {
  backup_id : Z;
  backup_job_id : Z;
  status : BackupStatus;
  file_path : option string;
  file_size : option Z;
  cloud_storage_path : option string;
  started_at : option Z;
  completed_at : option Z;
  error_message : option string;
  created_at : Z
}.

Definition set_next_run (v : option Z) (j : BackupJob) : BackupJob :=
  mkBackupJob (job_id j) (database j) (user j) (backup_type j) (frequency j)
              (retention_days j) (last_run j) v (is_active j).

Definition set_status (v : BackupStatus) (b : Backup) : Backup :=
  mkBackup (backup_id b) (backup_job_id b) v (file_path b) (file_size b)
           (cloud_storage_path b) (started_at b) (completed_at b)
           (error_message b) (created_at b).

Definition set_file_path (v : option string) (b : Backup) : Backup :=
  mkBackup (backup_id b) (backup_job_id b) (status b) v (file_size b)
           (cloud_storage_path b) (started_at b) (completed_at b)
           (error_message b) (created_at b).

Definition set_file_size (v : option Z) (b : Backup) : Backup :=
  mkBackup (backup_id b) (backup_job_id b) (status b) (file_path b) v
           (cloud_storage_path b) (started_at b) (completed_at b)
           (error_message b) (created_at b).

Definition set_cloud_storage_path (v : option string) (b : Backup) : Backup :=
  mkBackup (backup_id b) (backup_job_id b) (status b) (file_path b)
           (file_size b) v (started_at b) (completed_at b)
           (error_message b) (created_at b).

Definition set_completed_at (v : option Z) (b : Backup) : Backup :=
  mkBackup (backup_id b) (backup_job_id b) (status b) (file_path b)
           (file_size b) (cloud_storage_path b) (started_at b) v
           (error_message b) (created_at b).

Definition set_error_message (v : option string) (b : Backup) : Backup :=
  mkBackup (backup_id b) (backup_job_id b) (status b) (file_path b)
           (file_size b) (cloud_storage_path b) (started_at b)
           (completed_at b) v (created_at b).

(** ** datetime and timedelta

    A datetime is the number of microseconds since [datetime.min]
    (0001-01-01 00:00:00); [datetime.max] is 9999-12-31 23:59:59.999999.
    A timedelta is a number of microseconds.  Both constructors of
    out-of-range values raise OverflowError, as in CPython. *)

Definition MICROSECONDS_PER_DAY : Z := 86400000000.
Definition MICROSECONDS_PER_MINUTE : Z := 60000000.
Definition datetime_max : Z := 3652059 * MICROSECONDS_PER_DAY - 1.
Definition timedelta_max_days : Z := 999999999.

(** ** Exceptions *)

(** [Exception cls msg] is an instance of a subclass of Exception, with
    [str(e) = msg]; [HTTPException] is fastapi's (also an Exception);
    [CancelledError] is asyncio's, which derives from BaseException only
    (Python 3.8 and later) and so passes through [except Exception]. *)
Inductive exn :=
| Exception (cls msg : string)
| HTTPException (status_code : Z) (detail : string)
| CancelledError.

Definition is_Exception (e : exn) : bool :=
  match e with CancelledError => false | _ => true end.

Definition str (e : exn) : string :=
  match e with
  | Exception _ msg => msg
  | HTTPException code detail => pretty code +:+ ": " +:+ detail
  | CancelledError => ""
  end.

Inductive outcome (A : Type) :=
| Return (a : A)
| Raise (e : exn).
Arguments Return {A} a.
Arguments Raise {A} e.

Definition timedelta_days (days : Z) : outcome Z :=
  if Z.abs days <=? timedelta_max_days
  then Return (days * MICROSECONDS_PER_DAY)
  else Raise (Exception "OverflowError"
                ("days=" +:+ pretty days +:+ "; must have magnitude <= 999999999")).

Definition timedelta_minutes (minutes : Z) : Z := minutes * MICROSECONDS_PER_MINUTE.

Definition datetime_add (t delta : Z) : outcome Z :=
  if (0 <=? t + delta) && (t + delta <=? datetime_max)
  then Return (t + delta)
  else Raise (Exception "OverflowError" "date value out of range").

Definition datetime_sub (t delta : Z) : outcome Z := datetime_add t (- delta).

(** ** The world *)

(** What the services do to the outside, in order.  [EvStatus] and [EvCall]
    are ghost events: an assignment to [backup.status], the entry into a
    collaborator's method.  The [journal] of the world is ghost state too:
    it keeps the table of backups as each commit of a session that holds a
    Backup left it, the oldest first. *)
Inductive Event :=
| EvConnect (conn_str : string)            (* pyodbc.connect *)
| EvExecute (cmd : string)                 (* cursor.execute *)
| EvUpload (cloud_path : string)           (* dropbox files_upload *)
| EvCloudDelete (cloud_path : string)      (* dropbox files_delete_v2 *)
| EvRemove (path : string)                 (* os.remove *)
| EvEmail (recipient subject : string)     (* aiosmtplib send_message *)
| EvPrint (msg : string)
| EvStatus (bid : Z) (st : BackupStatus)
| EvCall (method : string) (arg : Z).

(** An asyncio.Task wrapping [_run_backup(job_id)]. *)
Record Task := mkTask {
  task_job : Z;
  cancel_requested : bool;
  task_done : bool
}.

Record World := mkWorld {
  reads : nat;                                 (* clock readings taken so far *)
  backup_jobs : list BackupJob;                (* table backup_jobs *)
  backups : list Backup;                       (* table backups, committed rows *)
  notification_settings : list NotificationSettings;
  session : gmap Z Backup;                     (* Backup objects of the open Session *)
  trace : list Event;
  running_jobs : gmap Z nat;                   (* SchedulerService.running_jobs *)
  tasks : list Task;                           (* tasks created so far, by index *)
  journal : list (list Backup)                 (* table backups as each commit left it *)
}.

Definition with_reads (v : nat) (w : World) : World :=
  mkWorld v (backup_jobs w) (backups w) (notification_settings w) (session w)
          (trace w) (running_jobs w) (tasks w) (journal w).

Definition with_backups (v : list Backup) (w : World) : World :=
  mkWorld (reads w) (backup_jobs w) v (notification_settings w) (session w)
          (trace w) (running_jobs w) (tasks w) (journal w).

Definition with_session (v : gmap Z Backup) (w : World) : World :=
  mkWorld (reads w) (backup_jobs w) (backups w) (notification_settings w) v
          (trace w) (running_jobs w) (tasks w) (journal w).

Definition with_trace (v : list Event) (w : World) : World :=
  mkWorld (reads w) (backup_jobs w) (backups w) (notification_settings w)
          (session w) v (running_jobs w) (tasks w) (journal w).

Definition with_running_jobs (v : gmap Z nat) (w : World) : World :=
  mkWorld (reads w) (backup_jobs w) (backups w) (notification_settings w)
          (session w) (trace w) v (tasks w) (journal w).

Definition with_tasks (v : list Task) (w : World) : World :=
  mkWorld (reads w) (backup_jobs w) (backups w) (notification_settings w)
          (session w) (trace w) (running_jobs w) v (journal w).

Definition with_journal (v : list (list Backup)) (w : World) : World :=
  mkWorld (reads w) (backup_jobs w) (backups w) (notification_settings w)
          (session w) (trace w) (running_jobs w) (tasks w) v.

(** ** External collaborators

    What the outside answers: the clock, the SQL server, the local file
    system, Dropbox and the SMTP server.  [None] is a call that returns,
    [Some msg] one that raises an Exception with that message. *)

Inductive SmtpResult :=
| Sent
| SmtpError (msg : string)       (* an Exception inside the SMTP exchange *)
| SmtpCancelled.                 (* task.cancel() while suspended in it *)

Record Env := mkEnv {
  clock : nat -> Z;                        (* n-th reading of datetime.utcnow() *)
  strftime : Z -> string;                  (* "%Y%m%d_%H%M%S" *)
  BACKUP_STORAGE_PATH : string;            (* settings *)
  pyodbc_connect : string -> option string;
  cursor_execute : string -> option string;
  open_read : string -> option string;     (* open(path, 'rb').read() *)
  files_upload : string -> option string;
  getsize : string -> string + Z;          (* os.path.getsize *)
  files_delete_v2 : string -> option string;
  path_exists : string -> bool;            (* os.path.exists *)
  os_remove : string -> option string;
  smtp_send : string -> string -> SmtpResult
}.

(** ** The monad of service methods *)

Definition M (A : Type) : Type := World -> outcome A * World.

Definition ret {A} (a : A) : M A := fun w => (Return a, w).

Definition raise {A} (e : exn) : M A := fun w => (Raise e, w).

Definition bind {A B} (m : M A) (k : A -> M B) : M B :=
  fun w => match m w with
           | (Return a, w') => k a w'
           | (Raise e, w') => (Raise e, w')
           end.

Declare Scope py_scope.
Delimit Scope py_scope with py.
Notation "x <- m ;; k" := (bind m (fun x => k))
  (at level 100, m at next level, right associativity) : py_scope.
Notation "m ;; k" := (bind m (fun _ => k))
  (at level 100, right associativity) : py_scope.
Local Open Scope py_scope.

Definition lift {A} (o : outcome A) : M A := fun w => (o, w).

(** [try: m  except Exception as e: h e] *)
Definition try_except {A} (m : M A) (h : exn -> M A) : M A :=
  fun w => match m w with
           | (Return a, w') => (Return a, w')
           | (Raise e, w') => if is_Exception e then h e w' else (Raise e, w')
           end.

(** [try: m  finally: f] *)
Definition try_finally {A} (m : M A) (f : M unit) : M A :=
  fun w => match m w with
           | (r, w') => match f w' with
                        | (Return _, w'') => (r, w'')
                        | (Raise e, w'') => (Raise e, w'')
                        end
           end.

Fixpoint for_each {A} (l : list A) (body : A -> M unit) : M unit :=
  match l with
  | [] => ret tt
  | x :: l' => body x ;; for_each l' body
  end.

(** Reads of the world: [gets] of a field. *)
Definition gets {A} (f : World -> A) : M A := fun w => (Return (f w), w).

(** What a coroutine raises stays in its task. *)
Definition swallow {A} (m : M A) : M unit := fun w => (Return tt, (m w).2).

Definition modify (f : World -> World) : M unit := fun w => (Return tt, f w).

Definition emit (ev : Event) : M unit :=
  modify (fun w => with_trace (trace w ++ [ev]) w).

(** [print(msg)] *)
Definition print (msg : string) : M unit := emit (EvPrint msg).

(** A call of an external collaborator: recorded, then answered. *)
Definition call (ev : Event) (answer : option string) (cls : string) : M unit :=
  emit ev ;;
  match answer with
  | None => ret tt
  | Some msg => raise (Exception cls msg)
  end.

Section Services.

Variable E : Env.

(** [datetime.utcnow()] *)
Definition utcnow : M Z :=
  fun w => (Return (clock E (reads w)), with_reads (S (reads w)) w).

(** [obj.attr] where [obj] may be None *)
Definition getattr {O A} (attr : string) (f : O -> A) (obj : option O) : M A :=
  match obj with
  | Some o => ret (f o)
  | None => raise (Exception "AttributeError"
                     ("'NoneType' object has no attribute '" +:+ attr +:+ "'"))
  end.

(** Truth value of an optional string: None and the empty string are false. *)
Definition truthy (s : option string) : bool :=
  match s with
  | Some s => negb (String.eqb s "")
  | None => false
  end.

(** *** The Session (autocommit=False, autoflush=False)

    Attribute assignments change the object held by the session; the table
    changes at [commit].  With autoflush off a query filters on the rows as
    committed, and hands out the session's object for a row it already
    holds. *)

Definition query_job (id : Z) : M (option BackupJob) :=
  jobs <- gets backup_jobs ;;
  ret (List.find (fun j => job_id j =? id) jobs).

Definition next_backup_id (rows : list Backup) : Z :=
  1 + foldr Z.max 0 (map backup_id rows).

(** [db.add(backup); db.commit()] of a new Backup: the INSERT gives it the
    next key and evaluates the default of created_at; the table it leaves
    is entered in the journal. *)
Definition db_add_commit (job : Z) (st : BackupStatus) (started : Z) : M Z :=
  created <- utcnow ;;
  rows <- gets backups ;;
  let bid := next_backup_id rows in
  let b := mkBackup bid job st None None None (Some started) None None created in
  modify (fun w => with_session (<[bid := b]> (session w))
                     (with_journal (journal w ++ [backups w ++ [b]])
                        (with_backups (backups w ++ [b]) w))) ;;
  emit (EvStatus bid st) ;;
  ret bid.

Definition flush (s : gmap Z Backup) (rows : list Backup) : list Backup :=
  map (fun r => default r (s !! backup_id r)) rows.

(** [db.commit()]; the table it leaves is entered in the journal. *)
Definition db_commit : M unit :=
  modify (fun w => let rows := flush (session w) (backups w) in
                   with_journal (journal w ++ [rows]) (with_backups rows w)).

(** [SessionLocal()] and [db.close()]: a session holding no object. *)
Definition db_close : M unit := modify (with_session ∅).

Definition setattr (bid : Z) (f : Backup -> Backup) : M unit :=
  modify (fun w => with_session (alter f bid (session w)) w).

(** [backup.status = st] *)
Definition assign_status (bid : Z) (st : BackupStatus) : M unit :=
  setattr bid (set_status st) ;;
  emit (EvStatus bid st).

(** [backup.backup_job] *)
Definition backup_job_rel (bid : Z) : M (option BackupJob) :=
  s <- gets session ;;
  jobs <- gets backup_jobs ;;
  ret (match s !! bid with
       | Some b => List.find (fun j => job_id j =? backup_job_id b) jobs
       | None => None
       end).

(** *** notification_service.py *)

Definition _send_email (recipient subject : string) : M unit :=
  emit (EvEmail recipient subject) ;;
  match smtp_send E recipient subject with
  | Sent => ret tt
  | SmtpError msg => print ("Failed to send email notification: " +:+ msg)
  | SmtpCancelled => raise CancelledError
  end.

(** The two notification paths differ in the setting consulted and in the
    subject; the bodies are formatted from attributes already read. *)
Definition send_notification (method : string) (enabled : NotificationSettings -> bool)
    (subject_prefix : string) (bid : Z) : M unit :=
  emit (EvCall method bid) ;;
  job <- backup_job_rel bid ;;
  u <- getattr "user" user job ;;
  match u with
  | None => ret tt
  | Some u =>
      settings <- gets notification_settings ;;
      match List.find (fun s => ns_user_id s =? user_id u) settings with
      | None => ret tt
      | Some s =>
          if negb (enabled s) then ret tt
          else
            d <- getattr "database" database job ;;
            name <- getattr "name" db_name d ;;
            _send_email (email u) (subject_prefix +:+ name)
      end
  end.

Definition send_backup_success_notification : Z -> M unit :=
  send_notification "send_backup_success_notification" backup_success
                    "Backup Completed Successfully - ".

Definition send_backup_failure_notification : Z -> M unit :=
  send_notification "send_backup_failure_notification" backup_failure
                    "Backup Failed - ".

(** *** backup_service.py *)

Definition is_old_backup (backup_job : BackupJob) (retention_date : Z) (b : Backup) : bool :=
  (backup_job_id b =? job_id backup_job)
  && (created_at b <? retention_date)
  && bool_decide (status b = COMPLETED).

(** The rows of a result that the session does not hold yet become its
    objects. *)
Definition load (rows : list Backup) (s : gmap Z Backup) : gmap Z Backup :=
  foldr (fun r s => match s !! backup_id r with
                    | Some _ => s
                    | None => <[backup_id r := r]> s
                    end) s rows.

(** [self.db.query(Backup).filter(...).all()] *)
Definition query_old_backups (backup_job : BackupJob) (retention_date : Z) : M (list Backup) :=
  table <- gets backups ;;
  s <- gets session ;;
  let rows := List.filter (is_old_backup backup_job retention_date) table in
  modify (with_session (load rows s)) ;;
  ret (map (fun r => default r (s !! backup_id r)) rows).

Definition cleanup_one (old_backup : Backup) : M unit :=
  try_except
    ((if truthy (cloud_storage_path old_backup)
      then let p := default "" (cloud_storage_path old_backup) in
           call (EvCloudDelete p) (files_delete_v2 E p) "ApiError"
      else ret tt) ;;
     (if truthy (file_path old_backup)
         && path_exists E (default "" (file_path old_backup))
      then let f := default "" (file_path old_backup) in
           call (EvRemove f) (os_remove E f) "OSError"
      else ret tt) ;;
     st <- (match BackupStatus_getattr "DELETED" with
            | Some st => ret st
            | None => raise (Exception "AttributeError" "DELETED")
            end) ;;
     assign_status (backup_id old_backup) st ;;
     db_commit)
    (fun e => print ("Error cleaning up backup " +:+ pretty (backup_id old_backup)
                       +:+ ": " +:+ str e)).

Definition _cleanup_old_backups (backup_job : BackupJob) : M unit :=
  emit (EvCall "_cleanup_old_backups" (job_id backup_job)) ;;
  now <- utcnow ;;
  delta <- lift (timedelta_days (retention_days backup_job)) ;;
  retention_date <- lift (datetime_sub now delta) ;;
  old_backups <- query_old_backups backup_job retention_date ;;
  for_each old_backups cleanup_one.

Definition _handle_backup_error (bid : Z) (error_message : string) : M unit :=
  assign_status bid FAILED ;;
  setattr bid (set_error_message (Some error_message)) ;;
  now <- utcnow ;;
  setattr bid (set_completed_at (Some now)) ;;
  db_commit ;;
  send_backup_failure_notification bid.

Definition nl : string := String (Ascii.ascii_of_nat 10) EmptyString.
Definition indent : string := "            ".

Definition _create_backup_command (database_name backup_path : string)
    (backup_type : BackupType) : string :=
  match backup_type with
  | FULL =>
      nl +:+ indent +:+ "BACKUP DATABASE [" +:+ database_name +:+ "] " +:+ nl
      +:+ indent +:+ "TO DISK = '" +:+ backup_path +:+ "'" +:+ nl
      +:+ indent +:+ "WITH COMPRESSION, INIT" +:+ nl +:+ indent
  | DIFFERENTIAL =>
      nl +:+ indent +:+ "BACKUP DATABASE [" +:+ database_name +:+ "] " +:+ nl
      +:+ indent +:+ "TO DISK = '" +:+ backup_path +:+ "'" +:+ nl
      +:+ indent +:+ "WITH DIFFERENTIAL, COMPRESSION, INIT" +:+ nl +:+ indent
  end.

Fixpoint ends_with_slash (s : string) : bool :=
  match s with
  | EmptyString => false
  | String c EmptyString => String.eqb (String c EmptyString) "/"
  | String _ s' => ends_with_slash s'
  end.

(** [os.path.join(base, name)] for a [name] that does not start with "/" *)
Definition os_path_join (base name : string) : string :=
  if String.eqb base "" then name
  else if ends_with_slash base then base +:+ name
  else base +:+ "/" +:+ name.

Definition _get_sql_connection (database : option Database) : M unit :=
  cs <- getattr "connection_string" connection_string database ;;
  call (EvConnect cs) (pyodbc_connect E cs) "Error".

Definition _perform_backup (bid : Z) : M unit :=
  assign_status bid IN_PROGRESS ;;
  db_commit ;;
  try_finally
    (try_except
       (job <- backup_job_rel bid ;;
        match job with
        | None => getattr "database" database job ;; ret tt
        | Some backup_job =>
            _get_sql_connection (database backup_job) ;;
            now <- utcnow ;;
            name <- getattr "name" db_name (database backup_job) ;;
            let filename := "backup_" +:+ name +:+ "_" +:+ strftime E now +:+ ".bak" in
            let local_path := os_path_join (BACKUP_STORAGE_PATH E) filename in
            let backup_cmd :=
              _create_backup_command name local_path (backup_type backup_job) in
            call (EvExecute backup_cmd) (cursor_execute E backup_cmd) "Error" ;;
            let cloud_path := "/" +:+ name +:+ "/" +:+ filename in
            lift (match open_read E local_path with
                  | None => Return tt
                  | Some msg => Raise (Exception "OSError" msg)
                  end) ;;
            call (EvUpload cloud_path) (files_upload E cloud_path) "ApiError" ;;
            assign_status bid COMPLETED ;;
            setattr bid (set_file_path (Some local_path)) ;;
            setattr bid (set_cloud_storage_path (Some cloud_path)) ;;
            size <- lift (match getsize E local_path with
                          | inr n => Return n
                          | inl msg => Raise (Exception "OSError" msg)
                          end) ;;
            setattr bid (set_file_size (Some size)) ;;
            done <- utcnow ;;
            setattr bid (set_completed_at (Some done)) ;;
            _cleanup_old_backups backup_job ;;
            send_backup_success_notification bid
        end)
       (fun e => _handle_backup_error bid (str e) ;; raise e))
    db_commit.

Definition create_backup (backup_job_id : Z) : M Z :=
  backup_job <- query_job backup_job_id ;;
  match backup_job with
  | None => raise (Exception "ValueError"
                     ("Backup job " +:+ pretty backup_job_id +:+ " not found"))
  | Some _ =>
      now <- utcnow ;;
      bid <- db_add_commit backup_job_id PENDING now ;;
      try_except
        (_perform_backup bid ;; ret bid)
        (fun e => _handle_backup_error bid (str e) ;; raise e)
  end.

End Services.

Section Scheduler.

Variable E : Env.

(** *** scheduler_service.py *)

Definition _get_next_run_time (job : BackupJob) (days : Z) : M Z :=
  match last_run job with
  | Some last =>
      delta <- lift (timedelta_days days) ;;
      next_run <- lift (datetime_add last delta) ;;
      now <- utcnow E ;;
      if next_run <? now
      then now' <- utcnow E ;; lift (datetime_add now' (timedelta_minutes 5))
      else ret next_run
  | None =>
      now <- utcnow E ;;
      lift (datetime_add now (timedelta_minutes 5))
  end.

(** [asyncio.create_task(self._run_backup(job_id))]: the task is handed to
    the event loop at once; its coroutine starts when the loop next runs. *)
Definition create_task (job : Z) : M nat :=
  ts <- gets tasks ;;
  modify (with_tasks (ts ++ [mkTask job false false])) ;;
  ret (length ts).

(** [task.cancel()]: a request; a finished task ignores it. *)
Definition cancelled (t : Task) : Task :=
  if task_done t then t else mkTask (task_job t) true false.

Definition task_cancel (tid : nat) : M unit :=
  modify (fun w => with_tasks (alter cancelled tid (tasks w)) w).

(** The job object handed in belongs to the caller's session.  The session
    opened and committed here is a new one that holds no object, and the
    caller closes its own without committing: the assignment to
    [job.next_run] reaches the object, which is returned, and not the
    table. *)
Definition _schedule_job (job : BackupJob) : M BackupJob :=
  schedule_time <- match frequency job with
                   | DAILY => _get_next_run_time job 1
                   | WEEKLY => _get_next_run_time job 7
                   | MONTHLY => _get_next_run_time job 30
                   end ;;
  let job := set_next_run (Some schedule_time) job in
  task <- create_task (job_id job) ;;
  modify (fun w => with_running_jobs (<[job_id job := task]> (running_jobs w)) w) ;;
  ret job.

(** The filter of the polling query. *)
Definition is_due (now : Z) (job : BackupJob) : bool :=
  is_active job
  && match next_run job with
     | Some t => t <=? now
     | None => true
     end.

(** [if job.id not in self.running_jobs: self._schedule_job(job)] *)
Definition schedule_unless_running (job : BackupJob) : M unit :=
  running <- gets running_jobs ;;
  match running !! job_id job with
  | None => _schedule_job job ;; ret tt
  | Some _ => ret tt
  end.

Definition _schedule_pending_jobs : M unit :=
  now <- utcnow E ;;
  table <- gets backup_jobs ;;
  let jobs := List.filter (is_due now) table in
  for_each jobs schedule_unless_running.

(** [self.running_jobs[job_id].cancel(); del self.running_jobs[job_id]] *)
Definition cancel_and_del (job_id : Z) : M unit :=
  running <- gets running_jobs ;;
  match running !! job_id with
  | Some task =>
      task_cancel task ;;
      modify (fun w => with_running_jobs (delete job_id (running_jobs w)) w)
  | None => ret tt
  end.

Definition reschedule_job (job_id : Z) : M unit :=
  job <- query_job job_id ;;
  match job with
  | Some job =>
      if is_active job
      then cancel_and_del job_id ;; _schedule_job job ;; ret tt
      else ret tt
  | None => ret tt
  end.

Definition pause_job (job_id : Z) : M unit :=
  cancel_and_del job_id.

Definition resume_job (job_id : Z) : M unit :=
  job <- query_job job_id ;;
  running <- gets running_jobs ;;
  match job with
  | Some job =>
      if is_active job && bool_decide (running !! job_id = None)
      then _schedule_job job ;; ret tt
      else ret tt
  | None => ret tt
  end.

(** The [finally] block of [_run_backup]. *)
Definition _run_backup_finally (job_id : Z) : M unit :=
  db_close ;;
  running <- gets running_jobs ;;
  match running !! job_id with
  | Some _ => modify (fun w => with_running_jobs (delete job_id (running_jobs w)) w)
  | None => ret tt
  end.

Definition _run_backup (job_id : Z) : M unit :=
  db_close ;;
  try_finally
    (try_except
       (create_backup E job_id ;; ret tt)
       (fun e => print ("Error executing backup job " +:+ pretty job_id
                          +:+ ": " +:+ str e)))
    (_run_backup_finally job_id).

Definition finished (t : Task) : Task :=
  mkTask (task_job t) (cancel_requested t) true.

Definition mark_done (tid : nat) : M unit :=
  modify (fun w => with_tasks (alter finished tid (tasks w)) w).

(** The event loop runs a task.  A task cancelled before its first step
    ends without executing a line of its coroutine; otherwise the coroutine
    runs, and what it raises stays in the task. *)
Definition run_task (tid : nat) : M unit :=
  ts <- gets tasks ;;
  match ts !! tid with
  | None => ret tt
  | Some t =>
      if task_done t then ret tt
      else if cancel_requested t then mark_done tid
      else swallow (_run_backup (task_job t)) ;; mark_done tid
  end.

(** *** api/backups.py *)

(** The methods that class BackupService defines. *)
Definition BackupService_methods : list string :=
  [ "create_backup"; "_perform_backup"; "_get_sql_connection";
    "_create_backup_command"; "_cleanup_old_backups"; "_handle_backup_error";
    "get_backup_status"; "list_backups" ].

(** [backup_service.<name>] *)
Definition BackupService_getattr (name : string) : M unit :=
  if bool_decide (name ∈ BackupService_methods) then ret tt
  else raise (Exception "AttributeError"
                ("'BackupService' object has no attribute '" +:+ name +:+ "'")).

(** POST /jobs/{job_id}/run, for an authenticated caller; the session is
    the request's own ([get_db]). *)
Definition run_backup_job (job_id : Z) : M Z :=
  db_close ;;
  try_finally
    (try_except
       (backup <- create_backup E job_id ;;
        BackupService_getattr "execute_backup" ;;
        ret backup)
       (fun e => raise (HTTPException 400 (str e))))
    db_close.

End Scheduler.

(** *** What can happen to the scheduler

    One operation at a time, as on the event loop: a poll cycle, the
    administrative operations, a task run by the loop, the [finally] block
    of an execution of [job_id] that was suspended when control came back to
    the scheduler, and a manual run.  [stop()] is left out: it awaits each
    task inside its loop over [running_jobs], so other tasks run between
    its steps, which one operation at a time does not describe. *)
Inductive Action :=
| Poll
| Reschedule (job_id : Z)
| Pause (job_id : Z)
| Resume (job_id : Z)
| RunTask (tid : nat)
| Finally (job_id : Z)
| RunNow (job_id : Z).

Definition perform (E : Env) (a : Action) : M unit :=
  match a with
  | Poll => _schedule_pending_jobs E
  | Reschedule job_id => reschedule_job E job_id
  | Pause job_id => pause_job job_id
  | Resume job_id => resume_job E job_id
  | RunTask tid => run_task E tid
  | Finally job_id => _run_backup_finally job_id
  | RunNow job_id => swallow (run_backup_job E job_id)
  end.

(** The interval of a frequency, as [_schedule_job] passes it on. *)
Definition interval_days (f : ScheduleFrequency) : Z :=
  match f with
  | DAILY => 1
  | WEEKLY => 7
  | MONTHLY => 30
  end.

(** ** Notions used in the statements *)

(** The world with the scheduler's own state replaced. *)
Definition frame (rj : gmap Z nat) (ts : list Task) (w : World) : World :=
  with_tasks ts (with_running_jobs rj w).

(** A computation that neither reads nor writes [running_jobs] and the
    tasks. *)
Definition blind {A} (m : M A) : Prop :=
  forall rj ts w, m (frame rj ts w) = ((m w).1, frame rj ts (m w).2).

(** The statuses assigned to Backup [bid], in order. *)
Fixpoint status_history (bid : Z) (tr : list Event) : list BackupStatus :=
  match tr with
  | [] => []
  | EvStatus b st :: tr' =>
      if b =? bid then st :: status_history bid tr' else status_history bid tr'
  | _ :: tr' => status_history bid tr'
  end.

Definition terminal (st : BackupStatus) : bool :=
  match st with
  | COMPLETED | FAILED => true
  | PENDING | IN_PROGRESS => false
  end.

(** From [w] to [w']: tasks were only added, each one for a job that had no
    entry in [running_jobs], each one put under its job's id; no entry that
    was there changed; nothing else but the clock moved. *)
Definition dispatched_idle_only (w w' : World) : Prop :=
  (exists new,
      tasks w' = tasks w ++ new
      /\ Forall (fun t => running_jobs w !! task_job t = None
                         /\ cancel_requested t = false /\ task_done t = false) new)
  /\ (forall k t, running_jobs w !! k = Some t -> running_jobs w' !! k = Some t)
  /\ (forall k tid, running_jobs w !! k = None -> running_jobs w' !! k = Some tid ->
        (length (tasks w) <= tid)%nat /\ tasks w' !! tid = Some (mkTask k false false))
  /\ backup_jobs w' = backup_jobs w /\ backups w' = backups w
  /\ session w' = session w /\ trace w' = trace w.

(** A computation that assigns no status. *)
Definition silent {A} (m : M A) : Prop :=
  forall w, exists evs,
    trace (m w).2 = trace w ++ evs /\ forall bid, status_history bid evs = [].

(** A computation that assigns statuses to Backup [bid] only, in one of the
    sequences of [L]. *)
Definition emits {A} (bid : Z) (L : list (list BackupStatus)) (m : M A) : Prop :=
  forall w, exists evs,
    trace (m w).2 = trace w ++ evs
    /\ (forall k, k <> bid -> status_history k evs = [])
    /\ status_history bid evs ∈ L.

Definition seq_hist (L1 L2 : list (list BackupStatus)) : list (list BackupStatus) :=
  flat_map (fun h1 => map (app h1) L2) L1.

(** The assignments the code makes: Pending to InProgress, InProgress to
    Completed, and Failed over InProgress, Completed or Failed. *)
Definition may_follow (s s' : BackupStatus) : bool :=
  match s, s' with
  | PENDING, IN_PROGRESS
  | IN_PROGRESS, COMPLETED
  | IN_PROGRESS, FAILED
  | COMPLETED, FAILED
  | FAILED, FAILED => true
  | _, _ => false
  end.

Fixpoint chain (s : BackupStatus) (h : list BackupStatus) : bool :=
  match h with
  | [] => true
  | s' :: h' => may_follow s s' && chain s' h'
  end.

(** The history of a record from its creation. *)
Definition lifecycle (h : list BackupStatus) : bool :=
  match h with
  | [] => true
  | s :: h' => bool_decide (s = PENDING) && chain s h'
  end.

(** A computation that assigns statuses to no record of the table, only to
    the record it may insert (under the next key), and to that one along
    its lifecycle. *)
Definition attempt {A} (m : M A) : Prop :=
  forall w, exists evs,
    trace (m w).2 = trace w ++ evs
    /\ (forall k, k <> next_backup_id (backups w) -> status_history k evs = [])
    /\ lifecycle (status_history (next_backup_id (backups w)) evs) = true.

(** One of the adapter calls of an attempt raises [cls] with [msg], those
    before it having returned: connecting, the backup command, reading the
    file, the upload.  [now] is the clock reading that names the file. *)
Definition adapter_failure (E : Env) (d : Database) (btype : BackupType) (now : Z)
    (cls msg : string) : Prop :=
  let filename := "backup_" +:+ db_name d +:+ "_" +:+ strftime E now +:+ ".bak" in
  let local_path := os_path_join (BACKUP_STORAGE_PATH E) filename in
  let cloud_path := "/" +:+ db_name d +:+ "/" +:+ filename in
  let backup_cmd := _create_backup_command (db_name d) local_path btype in
  (cls = "Error" /\ pyodbc_connect E (connection_string d) = Some msg)
  \/ (pyodbc_connect E (connection_string d) = None
      /\ ((cls = "Error" /\ cursor_execute E backup_cmd = Some msg)
          \/ (cursor_execute E backup_cmd = None
              /\ ((cls = "OSError" /\ open_read E local_path = Some msg)
                  \/ (open_read E local_path = None
                      /\ cls = "ApiError"
                      /\ files_upload E cloud_path = Some msg))))).

(** Events that are calls to the outside, not the ghost events. *)
Definition is_effect (ev : Event) : bool :=
  match ev with
  | EvStatus _ _ | EvCall _ _ => false
  | _ => true
  end.

(** What the sweep does to the outside for one selected backup. *)
Definition cleanup_events (E : Env) (old_backup : Backup) : list Event :=
  let p := default "" (cloud_storage_path old_backup) in
  let f := default "" (file_path old_backup) in
  let complaint msg :=
    EvPrint ("Error cleaning up backup " +:+ pretty (backup_id old_backup)
               +:+ ": " +:+ msg) in
  let local :=
    if truthy (file_path old_backup) && path_exists E f
    then EvRemove f :: match os_remove E f with
                       | Some msg => [complaint msg]
                       | None => [complaint "DELETED"]
                       end
    else [complaint "DELETED"] in
  if truthy (cloud_storage_path old_backup)
  then EvCloudDelete p :: match files_delete_v2 E p with
                          | Some msg => [complaint msg]
                          | None => local
                          end
  else local.

(** The operations that can take the entry of job [j] out of
    [running_jobs], or put another task in its place. *)
Definition may_remove_entry (w : World) (j : Z) (a : Action) : Prop :=
  match a with
  | Pause k | Reschedule k | Finally k => k = j
  | RunTask tid =>
      exists task, tasks w !! tid = Some task /\ task_job task = j
                   /\ task_done task = false /\ cancel_requested task = false
  | Poll | Resume _ | RunNow _ => False
  end.

(** ** The rest of backup_service.py and notification_service.py *)

(** [BackupService.get_backup_status]:
    [self.db.query(Backup).filter(Backup.id == backup_id).first()] *)
Definition get_backup_status (id : Z) : M (option Backup) :=
  table <- gets backups ;;
  s <- gets session ;;
  match List.find (fun r => backup_id r =? id) table with
  | Some r =>
      modify (with_session (load [r] s)) ;;
      ret (Some (default r (s !! backup_id r)))
  | None => ret None
  end.

(** *** Sizes in words

    [size_in_bytes /= 1024] makes the size a float.  A byte count below
    2^53 and its quotients by powers of 1024 are floats exactly, so the
    value is kept as the fraction [num / den]; the format [.2f] rounds it to
    hundredths, a tie to the even neighbour. *)

Definition round_half_even (num den : Z) : Z :=
  let q := num / den in
  let r := num mod den in
  if 2 * r <? den then q
  else if den <? 2 * r then q + 1
  else if Z.even q then q else q + 1.

(** [f"{num / den:.2f}"] *)
Definition format_2f (num den : Z) : string :=
  let h := round_half_even (100 * num) den in
  pretty (h / 100) +:+ "." +:+ pretty (h mod 100 / 10) +:+ pretty (h mod 10).

(** [for unit in units: if size < 1024: return f"{size:.2f} {unit}";
    size /= 1024] and, after the loop, [return f"{size:.2f} {last}"] *)
Fixpoint format_units (units : list string) (last : string) (num den : Z) : string :=
  match units with
  | [] => format_2f num den +:+ " " +:+ last
  | unit :: units' =>
      if num <? 1024 * den then format_2f num den +:+ " " +:+ unit
      else format_units units' last num (1024 * den)
  end.

(** [NotificationService._format_file_size] *)
Definition _format_file_size (size_in_bytes : Z) : string :=
  format_units ["B"; "KB"; "MB"; "GB"] "TB" size_in_bytes 1.

Section StorageWarning.

Variable E : Env.

(** Column [storage_warning] of NotificationSettings. *)
Variable storage_warning : NotificationSettings -> bool.

(** [NotificationService.send_storage_warning]; the body of the mail is
    formatted from the percentage, a float. *)
Definition send_storage_warning (user : option User) (usage_percentage : PrimFloat.float)
    : M unit :=
  uid <- getattr "id" user_id user ;;
  settings <- gets notification_settings ;;
  match List.find (fun s => ns_user_id s =? uid) settings with
  | None => ret tt
  | Some s =>
      if negb (storage_warning s) then ret tt
      else
        recipient <- getattr "email" email user ;;
        _send_email E recipient "Storage Usage Warning"
  end.

End StorageWarning.

(** ** storage_service.py *)

(** What [users_get_space_usage()] answers: the bytes used and the
    allocation; [individual_allocated] is [None] for an account with a team
    allocation, where [allocation.get_individual()] raises. *)
Record SpaceUsage := mkSpaceUsage {
  used : Z;
  individual_allocated : option Z
}.

(** The dictionary that [get_storage_usage] returns. *)
Record UsageData := mkUsageData {
  used_bytes : Z;
  total_bytes : Z;
  used_formatted : string;
  total_formatted : string;
  usage_percentage : PrimFloat.float
}.

(** A byte count as a float; exact below 2^53. *)
Definition float_of_int (n : Z) : PrimFloat.float :=
  PrimFloat.of_uint63 (Uint63.of_Z n).

(** Backups newest first: [order_by(Backup.created_at.desc())]. *)
Definition newest_first (a b : Backup) : Prop := created_at b <= created_at a.

#[global] Instance newest_first_dec a b : Decision (newest_first a b).
Proof. unfold newest_first. apply _. Defined.

Module StorageService.

(** The names that module storage_service binds: its imports and its
    class. *)
Definition globals : list string :=
  [ "os"; "dropbox"; "datetime"; "List"; "Dict"; "Optional"; "Session";
    "settings"; "Backup"; "BackupJob"; "NotificationService"; "StorageService" ].

(** A global name in the body of a method. *)
Definition global_name (name : string) : M unit :=
  if bool_decide (name ∈ globals) then ret tt
  else raise (Exception "NameError" ("name '" +:+ name +:+ "' is not defined")).

(** The methods that class StorageService defines. *)
Definition methods : list string :=
  [ "upload_backup"; "delete_backup"; "get_storage_usage"; "list_backups";
    "get_backup_link"; "cleanup_old_backups"; "_handle_storage_warning";
    "_format_size" ].

(** [storage_service.<name>] *)
Definition getattr_method (name : string) : M unit :=
  if bool_decide (name ∈ methods) then ret tt
  else raise (Exception "AttributeError"
                ("'StorageService' object has no attribute '" +:+ name +:+ "'")).

Definition _format_size (size_bytes : Z) : string :=
  format_units ["B"; "KB"; "MB"; "GB"; "TB"] "TB" size_bytes 1.

Section Methods.

Variable E : Env.

(** Column [storage_warning] and relationship [user] of
    NotificationSettings. *)
Variable storage_warning : NotificationSettings -> bool.
Variable settings_user : NotificationSettings -> option User.

(** What Dropbox answers to [users_get_space_usage()]: an error message or
    the usage. *)
Variable users_get_space_usage : string + SpaceUsage.

Definition delete_backup (cloud_path : string) : M bool :=
  try_except
    (call (EvCloudDelete cloud_path) (files_delete_v2 E cloud_path) "ApiError" ;;
     ret true)
    (fun e => print ("Error deleting backup from cloud storage: " +:+ str e) ;;
              ret false).

Definition _handle_storage_warning (usage_percentage : PrimFloat.float) : M unit :=
  global_name "NotificationSettings" ;;
  all <- gets notification_settings ;;
  for_each (List.filter storage_warning all) (fun settings =>
    send_storage_warning E storage_warning (settings_user settings) usage_percentage).

Definition get_storage_usage : M UsageData :=
  try_except
    (space_usage <- lift (match users_get_space_usage with
                          | inr u => Return u
                          | inl msg => Raise (Exception "ApiError" msg)
                          end) ;;
     let used := used space_usage in
     allocated <- lift (match individual_allocated space_usage with
                        | Some a => Return a
                        | None => Raise (Exception "AttributeError"
                                           "tag 'individual' not set")
                        end) ;;
     let usage_data :=
       mkUsageData used allocated (_format_size used) (_format_size allocated)
         (if 0 <? allocated
          then PrimFloat.mul (PrimFloat.div (float_of_int used) (float_of_int allocated))
                             (float_of_int 100)
          else float_of_int 0) in
     (if PrimFloat.ltb (float_of_int 80) (usage_percentage usage_data)
      then _handle_storage_warning (usage_percentage usage_data)
      else ret tt) ;;
     ret usage_data)
    (fun e => print ("Error getting storage usage: " +:+ str e) ;;
              ret (mkUsageData 0 0 "0 B" "0 B" (float_of_int 0))).

(** [self.db.query(Backup).filter(Backup.backup_job_id == backup_job.id)
    .order_by(Backup.created_at.desc()).all()] *)
Definition query_job_backups (backup_job : BackupJob) : M (list Backup) :=
  table <- gets backups ;;
  s <- gets session ;;
  let rows :=
    merge_sort newest_first
      (List.filter (fun b => backup_job_id b =? job_id backup_job) table) in
  modify (with_session (load rows s)) ;;
  ret (map (fun r => default r (s !! backup_id r)) rows).

(** The loop of [cleanup_old_backups] over [backups[1:]]. *)
Fixpoint cleanup_loop (backup_job : BackupJob) (l : list Backup) (cleaned_count : Z)
    : M Z :=
  match l with
  | [] => ret cleaned_count
  | backup :: l' =>
      now <- utcnow E ;;
      if retention_days backup_job <? (now - created_at backup) / MICROSECONDS_PER_DAY
      then
        (if truthy (cloud_storage_path backup)
         then delete_backup (default "" (cloud_storage_path backup)) ;; ret tt
         else ret tt) ;;
        (if truthy (file_path backup)
            && path_exists E (default "" (file_path backup))
         then let f := default "" (file_path backup) in
              call (EvRemove f) (os_remove E f) "OSError"
         else ret tt) ;;
        cleanup_loop backup_job l' (cleaned_count + 1)
      else cleanup_loop backup_job l' cleaned_count
  end.

Definition cleanup_old_backups (backup_job : BackupJob) : M Z :=
  try_except
    (backups <- query_job_backups backup_job ;;
     cleanup_loop backup_job (drop 1 backups) 0)
    (fun e => print ("Error cleaning up old backups: " +:+ str e) ;; ret 0).

End Methods.

End StorageService.

(** ** api/backups.py and api/storage.py

    The handlers, for a caller who has passed the authentication
    dependency.  Each request has a session of its own ([get_db]). *)

Module Api.

(** The request bodies. *)
Module BackupJobCreate.
Record t := mk {
  database_id : Z;
  backup_type : BackupType;
  frequency : ScheduleFrequency;
  retention_days : Z
}.
End BackupJobCreate.

Module BackupJobUpdate.
Record t := mk {
  backup_type : option BackupType;
  frequency : option ScheduleFrequency;
  retention_days : option Z;
  is_active : option bool
}.
End BackupJobUpdate.

(** [except HTTPException: raise] before
    [except Exception as e: raise HTTPException(500, prefix + str(e))] *)
Definition or_500 (prefix : string) (e : exn) : exn :=
  match e with
  | HTTPException _ _ => e
  | _ => HTTPException 500 (prefix +:+ str e)
  end.

Section Routes.

Variable E : Env.
Variable storage_warning : NotificationSettings -> bool.
Variable settings_user : NotificationSettings -> option User.
Variable users_get_space_usage : string + SpaceUsage.

(** What a method that a handler calls would do with its arguments, if the
    service class defined it. *)
Variable absent : forall Args A : Type, string -> Args -> M A.

(** [await backup_service.<name>(args)]: the attribute is looked up, then
    called. *)
Definition backup_service_call {Args A : Type} (name : string) (args : Args) : M A :=
  BackupService_getattr name ;; absent Args A name args.

(** [await storage_service.<name>(args)] *)
Definition storage_service_call {Args A : Type} (name : string) (args : Args) : M A :=
  StorageService.getattr_method name ;; absent Args A name args.

(** [db: Session = Depends(get_db)] *)
Definition with_db {A} (handler : M A) : M A :=
  db_close ;; try_finally handler db_close.

(** POST /jobs *)
Definition create_backup_job (current_user : User) (job_data : BackupJobCreate.t)
    : M BackupJob :=
  with_db
    (try_except
       (backup_job <- backup_service_call "create_backup_job"
                        (BackupJobCreate.database_id job_data,
                         user_id current_user,
                         BackupJobCreate.backup_type job_data,
                         BackupJobCreate.frequency job_data,
                         BackupJobCreate.retention_days job_data) ;;
        reschedule_job E (job_id backup_job) ;;
        ret backup_job)
       (fun e => raise (HTTPException 400 (str e)))).

(** GET /jobs *)
Definition list_backup_jobs (database_id : option Z) : M (list BackupJob) :=
  with_db (backup_service_call "list_backup_jobs" database_id).

(** GET /jobs/{job_id} *)
Definition get_backup_job (job_id : Z) : M BackupJob :=
  with_db
    (job <- backup_service_call "get_backup_job" job_id ;;
     match job with
     | None => raise (HTTPException 404 "Backup job not found")
     | Some job => ret job
     end).

(** PUT /jobs/{job_id} *)
Definition update_backup_job (job_id : Z) (job_data : BackupJobUpdate.t) : M BackupJob :=
  with_db
    (try_except
       (job <- backup_service_call "update_backup_job" (job_id, job_data) ;;
        match job with
        | None => raise (HTTPException 404 "Backup job not found")
        | Some job =>
            (if bool_decide (is_Some (BackupJobUpdate.is_active job_data))
                || bool_decide (is_Some (BackupJobUpdate.frequency job_data))
             then reschedule_job E job_id
             else ret tt) ;;
            ret job
        end)
       (fun e => raise (HTTPException 400 (str e)))).

(** DELETE /jobs/{job_id} *)
Definition delete_backup_job (job_id : Z) : M string :=
  with_db
    (deleted <- backup_service_call "delete_backup_job" job_id ;;
     if negb deleted then raise (HTTPException 404 "Backup job not found")
     else pause_job job_id ;; ret "Backup job deleted successfully").

(** GET /history *)
Definition get_backup_history (job_id : option Z) (limit : Z) : M (list Backup) :=
  with_db (backup_service_call "get_backup_history" (job_id, limit)).

(** GET /status/{backup_id}; the service method of the same name is
    called. *)
Definition get_backup_status (backup_id : Z) : M Backup :=
  with_db
    (backup <- get_backup_status backup_id ;;
     match backup with
     | None => raise (HTTPException 404 "Backup not found")
     | Some backup => ret backup
     end).

(** POST /jobs/{job_id}/pause *)
Definition pause_backup_job (job_id : Z) : M string :=
  with_db
    (paused <- backup_service_call "pause_backup_job" job_id ;;
     if negb paused then raise (HTTPException 404 "Backup job not found")
     else pause_job job_id ;; ret "Backup job paused successfully").

(** POST /jobs/{job_id}/resume *)
Definition resume_backup_job (job_id : Z) : M string :=
  with_db
    (resumed <- backup_service_call "resume_backup_job" job_id ;;
     if negb resumed then raise (HTTPException 404 "Backup job not found")
     else resume_job E job_id ;; ret "Backup job resumed successfully").

(** GET /usage *)
Definition get_storage_usage : M UsageData :=
  with_db
    (try_except
       (StorageService.get_storage_usage E storage_warning settings_user
          users_get_space_usage)
       (fun e => raise (HTTPException 500
                          ("Error getting storage usage: " +:+ str e)))).

(** DELETE /files/{backup_id} *)
Definition delete_backup_file (backup_id : Z) : M string :=
  with_db
    (try_except
       (backup <- storage_service_call "get_backup" backup_id ;;
        match backup with
        | None => raise (HTTPException 404 "Backup file not found")
        | Some backup =>
            if negb (truthy (cloud_storage_path backup))
            then raise (HTTPException 404 "Backup file not found")
            else
              success <- StorageService.delete_backup E
                           (default "" (cloud_storage_path backup)) ;;
              if negb success
              then raise (HTTPException 500 "Failed to delete backup file")
              else ret "Backup file deleted successfully"
        end)
       (fun e => raise (or_500 "Error deleting backup file: " e))).

(** POST /cleanup/{job_id}; the answer is [cleaned_count]. *)
Definition cleanup_old_backups (job_id : Z) : M Z :=
  with_db
    (try_except
       (backup_job <- storage_service_call "get_backup_job" job_id ;;
        match backup_job with
        | None => raise (HTTPException 404 "Backup job not found")
        | Some backup_job => StorageService.cleanup_old_backups E backup_job
        end)
       (fun e => raise (or_500 "Error during cleanup: " e))).

(** The routes of api/backups.py. *)
Inductive Request :=
| CreateJob (current_user : User) (job_data : BackupJobCreate.t)
| ListJobs (database_id : option Z)
| GetJob (job_id : Z)
| UpdateJob (job_id : Z) (job_data : BackupJobUpdate.t)
| DeleteJob (job_id : Z)
| RunJob (job_id : Z)
| History (job_id : option Z) (limit : Z)
| Status (backup_id : Z)
| PauseJob (job_id : Z)
| ResumeJob (job_id : Z).

(** The router: the handler of the route is run and what it returns is the
    response. *)
Definition serve (r : Request) : M unit :=
  match r with
  | CreateJob u d => create_backup_job u d ;; ret tt
  | ListJobs d => list_backup_jobs d ;; ret tt
  | GetJob j => get_backup_job j ;; ret tt
  | UpdateJob j d => update_backup_job j d ;; ret tt
  | DeleteJob j => delete_backup_job j ;; ret tt
  | RunJob j => run_backup_job E j ;; ret tt
  | History j l => get_backup_history j l ;; ret tt
  | Status b => get_backup_status b ;; ret tt
  | PauseJob j => pause_backup_job j ;; ret tt
  | ResumeJob j => resume_backup_job j ;; ret tt
  end.

End Routes.

End Api.

(** ** Notions used in the further statements *)

(** [m] keeps [P]: whatever [m] answers, [P] holds of the world it leaves
    when it held of the world it found. *)
Definition keeps (P : World -> Prop) {A} (m : M A) : Prop :=
  forall w, P w -> P (m w).2.

(** The tables that hold the configuration: nothing but the rows of the
    jobs and of the notification settings. *)
Definition configured (jobs : list BackupJob) (ns : list NotificationSettings)
    (w : World) : Prop :=
  backup_jobs w = jobs /\ notification_settings w = ns.

(** A clock that does not go back and stays five minutes clear of the
    years that a datetime cannot hold. *)
Definition steady (E : Env) : Prop :=
  forall n, 0 <= clock E n <= clock E (S n)
            /\ clock E n + timedelta_minutes 5 <= datetime_max.

(** A specification of [m]: from a world where [P] holds, a returned [a]
    comes with [Q a] and a raised [e] with [R e]. *)
Definition triple {A} (P : World -> Prop) (m : M A)
    (Q : A -> World -> Prop) (R : exn -> World -> Prop) : Prop :=
  forall w, P w -> match m w with
                   | (Return a, w') => Q a w'
                   | (Raise e, w') => R e w'
                   end.

(** An attempt under way: the session holds the Backup [bid] of job [j],
    of which [Q] holds; the table is the rows that were there before the
    attempt, [rows0], and after them the row of [bid]; what else the
    session holds is a row of [rows0], under its id. *)
Definition tracked (bid j : Z) (rows0 : list Backup) (Q : Backup -> Prop)
    (w : World) : Prop :=
  exists b c,
    session w !! bid = Some b /\ backup_id b = bid /\ backup_job_id b = j /\ Q b
    /\ backups w = rows0 ++ [c] /\ backup_id c = bid
    /\ (forall k r, k <> bid -> session w !! k = Some r -> r ∈ rows0 /\ backup_id r = k).

(** The same, committed: the row of [bid] is the session's object. *)
Definition settled (bid j : Z) (rows0 : list Backup) (Q : Backup -> Prop)
    (w : World) : Prop :=
  exists b,
    session w !! bid = Some b /\ backup_id b = bid /\ backup_job_id b = j /\ Q b
    /\ backups w = rows0 ++ [b]
    /\ (forall k r, k <> bid -> session w !! k = Some r -> r ∈ rows0 /\ backup_id r = k).

(** What a Backup holds when its attempt has succeeded, and when it has
    failed. *)
Definition completed (b : Backup) : Prop :=
  status b = COMPLETED /\ is_Some (file_path b) /\ is_Some (cloud_storage_path b)
  /\ is_Some (file_size b) /\ is_Some (completed_at b).

Definition failed (b : Backup) : Prop :=
  status b = FAILED /\ is_Some (error_message b) /\ is_Some (completed_at b).

(** A property of the session and of the table of backups, and of nothing
    else in the world. *)
Definition common (P : World -> Prop) : Prop :=
  forall w w', session w' = session w -> backups w' = backups w -> P w -> P w'.

(** The mail of a notification about Backup [bid]: none, or one mail to
    the user of the Backup's job, whose settings enable the notification,
    with the name of the job's database in the subject; a complaint is
    printed after it when the SMTP exchange failed. *)
Definition asked_for (enabled : NotificationSettings -> bool) (prefix : string)
    (bid : Z) (w : World) (mail : list Event) : Prop :=
  mail = []
  \/ exists b job u s d,
       session w !! bid = Some b
       /\ List.find (fun j => job_id j =? backup_job_id b) (backup_jobs w) = Some job
       /\ user job = Some u
       /\ List.find (fun s => ns_user_id s =? user_id u) (notification_settings w)
          = Some s
       /\ enabled s = true
       /\ database job = Some d
       /\ (mail = [EvEmail (email u) (prefix +:+ db_name d)]
           \/ exists msg,
                mail = [ EvEmail (email u) (prefix +:+ db_name d);
                         EvPrint ("Failed to send email notification: " +:+ msg) ]).

(** The text of [h] hundredths, as [.2f] prints them. *)
Definition hundredths (h : Z) : string :=
  pretty (h / 100) +:+ "." +:+ pretty (h mod 100 / 10) +:+ pretty (h mod 10).

(** [(used / allocated) * 100 if allocated > 0 else 0], as
    [get_storage_usage] computes it. *)
Definition percent_used (used allocated : Z) : PrimFloat.float :=
  if 0 <? allocated
  then PrimFloat.mul (PrimFloat.div (float_of_int used) (float_of_int allocated))
                     (float_of_int 100)
  else float_of_int 0.

(** The backups of [l] that the loop of [StorageService.cleanup_old_backups]
    finds older than the window of the job, when it reads the clock for the
    [n]-th time at the first one. *)
Fixpoint expired (E : Env) (job : BackupJob) (n : nat) (l : list Backup) : list Backup :=
  match l with
  | [] => []
  | b :: l' =>
      if retention_days job <? (clock E n - created_at b) / MICROSECONDS_PER_DAY
      then b :: expired E job (S n) l'
      else expired E job (S n) l'
  end.

(** What that loop does to the outside for one such backup. *)
Definition sweep_events (E : Env) (backup : Backup) : list Event :=
  let p := default "" (cloud_storage_path backup) in
  let f := default "" (file_path backup) in
  (if truthy (cloud_storage_path backup)
   then EvCloudDelete p
        :: match files_delete_v2 E p with
           | Some msg => [EvPrint ("Error deleting backup from cloud storage: " +:+ msg)]
           | None => []
           end
   else [])
  ++ (if truthy (file_path backup) && path_exists E f then [EvRemove f] else []).

(** The message of the OSError that [os.remove] raises for the local file
    of the backup, when the file is there and cannot be removed. *)
Definition local_failure (E : Env) (backup : Backup) : option string :=
  let f := default "" (file_path backup) in
  if truthy (file_path backup) && path_exists E f then os_remove E f else None.

(** The message of the AttributeError for a method that class [cls] does
    not define. *)
Definition no_attribute (cls name : string) : string :=
  "'" +:+ cls +:+ "' object has no attribute '" +:+ name +:+ "'".

(** *** The recorded status

    What the table of backups holds, commit after commit. *)

(** One step of a recorded status: it stays, or goes from Pending to
    InProgress, or from InProgress to Completed or to Failed. *)
Definition status_step (s s' : BackupStatus) : Prop :=
  s' = s
  \/ (s = PENDING /\ s' = IN_PROGRESS)
  \/ (s = IN_PROGRESS /\ (s' = COMPLETED \/ s' = FAILED)).

(** What a commit does to the table [t]: every row stays in its place,
    under its id, and its status stays or goes one step; the rows added
    come last and are Pending. *)
Definition commit_step (t t' : list Backup) : Prop :=
  exists kept new,
    t' = kept ++ new
    /\ Forall2 (fun r r' => backup_id r' = backup_id r
                            /\ status_step (status r) (status r')) t kept
    /\ Forall (fun r => status r = PENDING) new.

(** Each element of [l] comes by [R] from the one before it, the first
    from [x]. *)
Fixpoint stepwise {A} (R : A -> A -> Prop) (x : A) (l : list A) : Prop :=
  match l with
  | [] => True
  | y :: l' => R x y /\ stepwise R y l'
  end.

(** The operations of [l], one after the other; what one of them raises
    does not keep the next from running. *)
Fixpoint perform_all (E : Env) (l : list Action) (w : World) : World :=
  match l with
  | [] => w
  | a :: l' => perform_all E l' (perform E a w).2
  end.

(** An attempt under way, as the table has it: since the journal was [j0]
    and the table [rows0], the commits went step by step, and the table is
    now [rows0] and after it the row of [bid], whose status is [st]. *)
Definition logged (j0 : list (list Backup)) (rows0 : list Backup) (bid : Z)
    (st : BackupStatus) (w : World) : Prop :=
  exists commits c,
    journal w = j0 ++ commits
    /\ stepwise commit_step rows0 commits
    /\ backups w = List.last commits rows0
    /\ backups w = rows0 ++ [c] /\ backup_id c = bid /\ status c = st.

(** The attempt as the session and as the table have it. *)
Definition attempt_inv (j0 : list (list Backup)) (rows0 : list Backup) (bid j : Z)
    (Q : Backup -> Prop) (st : BackupStatus) (w : World) : Prop :=
  tracked bid j rows0 Q w /\ logged j0 rows0 bid st w.

(** What an operation has committed: the commits it added to the journal
    went step by step from the table it found, and the table it leaves is
    the last of them; the ids stay distinct. *)
Definition committed_stepwise (w w' : World) : Prop :=
  exists commits,
    journal w' = journal w ++ commits
    /\ stepwise commit_step (backups w) commits
    /\ backups w' = List.last commits (backups w)
    /\ NoDup (map backup_id (backups w')).

(** ** Sample data *)

Definition noon : Z := 739000 * MICROSECONDS_PER_DAY.

(** Every collaborator answers; the clock advances by a microsecond per
    reading. *)
Definition calm : Env :=
  mkEnv (fun n => noon + Z.of_nat n) (fun _ => "20240101_120000") "/backups"
        (fun _ => None) (fun _ => None) (fun _ => None) (fun _ => None)
        (fun _ => inr 1024) (fun _ => None) (fun _ => true) (fun _ => None)
        (fun _ _ => Sent).

Definition sales : Database := mkDatabase "sales" "DSN=sales".

Definition operator : User := mkUser 7 "ops@example.org".

Definition nightly : BackupJob :=
  mkBackupJob 1 (Some sales) (Some operator) FULL DAILY 30 None None true.

(** A Completed backup of [nightly], forty days old. *)
Definition aged : Backup :=
  mkBackup 1 1 COMPLETED (Some "/backups/a.bak") (Some 10) (Some "/sales/a.bak")
           None None None (noon - 40 * MICROSECONDS_PER_DAY).

(** [nightly] after a run two days ago. *)
Definition overdue : BackupJob :=
  mkBackupJob 1 (Some sales) (Some operator) FULL DAILY 30
              (Some (noon - 2 * MICROSECONDS_PER_DAY)) None true.

Definition quiet : World :=
  mkWorld 0 [nightly] [aged] [mkNotificationSettings 7 true true] ∅ [] ∅ [] [].

(** [nightly], due a minute ago. *)
Definition due : BackupJob :=
  mkBackupJob 1 (Some sales) (Some operator) FULL DAILY 30 None
              (Some (noon - MICROSECONDS_PER_MINUTE)) true.

(** Job 1 is in flight: task 0 is registered for it and has not finished. *)
Definition busy : World :=
  mkWorld 0 [due] [aged] [mkNotificationSettings 7 true true] ∅ []
          {[ 1 := 0%nat ]} [mkTask 1 false false] [].

(** [nightly] with a retention window that reaches before the year 1. *)
Definition hoarder : BackupJob :=
  mkBackupJob 1 (Some sales) (Some operator) FULL DAILY 4000000 None None true.

Definition hoard : World :=
  mkWorld 0 [hoarder] [aged] [mkNotificationSettings 7 true true] ∅ [] ∅ [] [].

(** The SQL server refuses the connection. *)
Definition offline : Env :=
  mkEnv (fun n => noon + Z.of_nat n) (fun _ => "20240101_120000") "/backups"
        (fun _ => Some "08001: server not found") (fun _ => None) (fun _ => None)
        (fun _ => None) (fun _ => inr 1024) (fun _ => None) (fun _ => true)
        (fun _ => None) (fun _ _ => Sent).

(** [due], deactivated while its execution is in flight. *)
Definition retired : BackupJob :=
  mkBackupJob 1 (Some sales) (Some operator) FULL DAILY 30 None
              (Some (noon - MICROSECONDS_PER_MINUTE)) false.

Definition winding_down : World :=
  mkWorld 0 [retired] [aged] [mkNotificationSettings 7 true true] ∅ []
          {[ 1 := 0%nat ]} [mkTask 1 false false] [].

(** [calm] with a clock that stands at noon. *)
Definition still : Env :=
  mkEnv (fun _ => noon) (fun _ => "20240101_120000") "/backups"
        (fun _ => None) (fun _ => None) (fun _ => None) (fun _ => None)
        (fun _ => inr 1024) (fun _ => None) (fun _ => true) (fun _ => None)
        (fun _ _ => Sent).

(** Task 0 is registered for [nightly] and has not begun. *)
Definition daily_in_flight : World :=
  mkWorld 0 [nightly] [aged] [mkNotificationSettings 7 true true] ∅ []
          {[ 1 := 0%nat ]} [mkTask 1 false false] [].

(** [nightly] without its database. *)
Definition unmoored : BackupJob :=
  mkBackupJob 1 None (Some operator) FULL DAILY 30 None None true.

Definition adrift : World :=
  mkWorld 0 [unmoored] [aged] [mkNotificationSettings 7 true true] ∅ [] ∅ [] [].

(** A second Completed backup of [nightly], fifty days old. *)
Definition older_twin : Backup :=
  mkBackup 2 1 COMPLETED (Some "/backups/b.bak") (Some 10) (Some "/sales/b.bak")
           None None None (noon - 50 * MICROSECONDS_PER_DAY).

Definition archive : World :=
  mkWorld 0 [nightly] [older_twin; aged] [mkNotificationSettings 7 true true] ∅ [] ∅ [] [].

(** The store before the first run of [nightly]. *)
Definition bare : World :=
  mkWorld 0 [nightly] [] [mkNotificationSettings 7 true true] ∅ [] ∅ [] [].

(** [calm] with a clock that, after its first five readings, is forty-one
    days on; the name of a backup file follows the day. *)
Definition six_weeks : Env :=
  mkEnv (fun n => if (n <? 5)%nat then noon + Z.of_nat n
                  else noon + 41 * MICROSECONDS_PER_DAY + Z.of_nat n)
        (fun t => if t <? noon + MICROSECONDS_PER_DAY then "20240101_120000"
                  else "20240211_120000")
        "/backups"
        (fun _ => None) (fun _ => None) (fun _ => None) (fun _ => None)
        (fun _ => inr 1024) (fun _ => None) (fun _ => true) (fun _ => None)
        (fun _ _ => Sent).

(** * Properties *)

Local Open Scope py_scope.

(** ** Dates in range *)

Lemma datetime_add_in_range t d :
  0 <= t + d <= datetime_max -> datetime_add t d = Return (t + d).
Proof.
  intros H. unfold datetime_add.
  replace (0 <=? t + d) with true by (symmetry; apply Z.leb_le; lia).
  replace (t + d <=? datetime_max) with true by (symmetry; apply Z.leb_le; lia).
  reflexivity.
Qed.

Lemma timedelta_days_in_range days :
  Z.abs days <= timedelta_max_days ->
  timedelta_days days = Return (days * MICROSECONDS_PER_DAY).
Proof.
  intros H. unfold timedelta_days.
  replace (Z.abs days <=? timedelta_max_days) with true
    by (symmetry; apply Z.leb_le; lia).
  reflexivity.
Qed.

Lemma interval_days_small f : Z.abs (interval_days f) <= timedelta_max_days.
Proof. destruct f; unfold timedelta_max_days; cbn; lia. Qed.

(** ** The scheduler's state is out of the executor's sight *)

Lemma frame_id w : frame (running_jobs w) (tasks w) w = w.
Proof. destruct w; reflexivity. Qed.

Lemma blind_preserves {A} (m : M A) w :
  blind m -> running_jobs (m w).2 = running_jobs w /\ tasks (m w).2 = tasks w.
Proof.
  intros H. specialize (H (running_jobs w) (tasks w) w).
  rewrite frame_id in H. rewrite H. cbn. split; reflexivity.
Qed.

Lemma blind_ret {A} (a : A) : blind (ret a).
Proof. intros rj ts w; reflexivity. Qed.

Lemma blind_raise {A} e : blind (@raise A e).
Proof. intros rj ts w; reflexivity. Qed.

Lemma blind_lift {A} (o : outcome A) : blind (lift o).
Proof. intros rj ts w; reflexivity. Qed.

Lemma blind_bind {A B} (m : M A) (k : A -> M B) :
  blind m -> (forall a, blind (k a)) -> blind (bind m k).
Proof.
  intros Hm Hk rj ts w. unfold bind. rewrite Hm.
  destruct (m w) as [[a|e] w1]; cbn; [apply Hk | reflexivity].
Qed.

Lemma blind_try_except {A} (m : M A) h :
  blind m -> (forall e, blind (h e)) -> blind (try_except m h).
Proof.
  intros Hm Hh rj ts w. unfold try_except. rewrite Hm.
  destruct (m w) as [[a|e] w1]; cbn; [reflexivity|].
  destruct (is_Exception e); [apply Hh | reflexivity].
Qed.

Lemma blind_try_finally {A} (m : M A) f :
  blind m -> blind f -> blind (try_finally m f).
Proof.
  intros Hm Hf rj ts w. unfold try_finally. rewrite Hm.
  destruct (m w) as [r w1]; cbn. rewrite Hf.
  destruct (f w1) as [[a|e] w2]; reflexivity.
Qed.

Lemma blind_for_each {A} (l : list A) body :
  (forall x, blind (body x)) -> blind (for_each l body).
Proof.
  intros Hb. induction l as [|x l IH]; cbn [for_each].
  - apply blind_ret.
  - apply blind_bind; auto.
Qed.

Lemma blind_swallow {A} (m : M A) : blind m -> blind (swallow m).
Proof. intros Hm rj ts w. unfold swallow. rewrite Hm. reflexivity. Qed.

Lemma blind_emit ev : blind (emit ev).
Proof. intros rj ts w; reflexivity. Qed.

Lemma blind_utcnow E : blind (utcnow E).
Proof. intros rj ts w; reflexivity. Qed.

Lemma blind_setattr bid f : blind (setattr bid f).
Proof. intros rj ts w; reflexivity. Qed.

Lemma blind_db_commit : blind db_commit.
Proof. intros rj ts w; reflexivity. Qed.

Lemma blind_db_close : blind db_close.
Proof. intros rj ts w; reflexivity. Qed.

Lemma blind_gets_backup_jobs : blind (gets backup_jobs).
Proof. intros rj ts w; reflexivity. Qed.

Lemma blind_gets_backups : blind (gets backups).
Proof. intros rj ts w; reflexivity. Qed.

Lemma blind_gets_session : blind (gets session).
Proof. intros rj ts w; reflexivity. Qed.

Lemma blind_gets_settings : blind (gets notification_settings).
Proof. intros rj ts w; reflexivity. Qed.

Create HintDb blind.
#[local] Hint Resolve blind_ret blind_raise blind_lift blind_emit blind_utcnow
  blind_setattr blind_db_commit blind_db_close blind_gets_backup_jobs
  blind_gets_backups blind_gets_session blind_gets_settings : blind.

Ltac blind_step :=
  match goal with
  | |- blind (bind _ _) => apply blind_bind; [|intros]
  | |- blind (try_except _ _) => apply blind_try_except; [|intros]
  | |- blind (try_finally _ _) => apply blind_try_finally
  | |- blind (for_each _ _) => apply blind_for_each; intros
  | |- blind (swallow _) => apply blind_swallow
  | |- blind (match ?x with _ => _ end) => destruct x
  | |- blind (modify _) => intros ? ? ?; reflexivity
  | |- blind _ => solve [auto with blind]
  end.

Ltac solve_blind := repeat blind_step.

Lemma blind_getattr {O A} attr (f : O -> A) o : blind (getattr attr f o).
Proof. unfold getattr. solve_blind. Qed.
#[local] Hint Resolve blind_getattr : blind.

Lemma blind_print msg : blind (print msg).
Proof. apply blind_emit. Qed.
#[local] Hint Resolve blind_print : blind.

Lemma blind_call ev ans cls : blind (call ev ans cls).
Proof. unfold call. solve_blind. Qed.
#[local] Hint Resolve blind_call : blind.

Lemma blind_assign_status bid st : blind (assign_status bid st).
Proof. unfold assign_status. solve_blind. Qed.
#[local] Hint Resolve blind_assign_status : blind.

Lemma blind_query_job id : blind (query_job id).
Proof. unfold query_job. solve_blind. Qed.
#[local] Hint Resolve blind_query_job : blind.

Lemma blind_backup_job_rel bid : blind (backup_job_rel bid).
Proof. unfold backup_job_rel. solve_blind. Qed.
#[local] Hint Resolve blind_backup_job_rel : blind.

Lemma blind_send_notification E m en pre bid :
  blind (send_notification E m en pre bid).
Proof. unfold send_notification, _send_email. solve_blind. Qed.
#[local] Hint Resolve blind_send_notification : blind.

Lemma blind_cleanup_old_backups E job : blind (_cleanup_old_backups E job).
Proof. unfold _cleanup_old_backups, query_old_backups, cleanup_one. solve_blind. Qed.
#[local] Hint Resolve blind_cleanup_old_backups : blind.

Lemma blind_handle_backup_error E bid msg : blind (_handle_backup_error E bid msg).
Proof.
  unfold _handle_backup_error, send_backup_failure_notification. solve_blind.
Qed.
#[local] Hint Resolve blind_handle_backup_error : blind.

Lemma blind_perform_backup E bid : blind (_perform_backup E bid).
Proof.
  unfold _perform_backup, _get_sql_connection, send_backup_success_notification.
  solve_blind.
Qed.
#[local] Hint Resolve blind_perform_backup : blind.

Lemma blind_create_backup E j : blind (create_backup E j).
Proof. unfold create_backup, db_add_commit. solve_blind. Qed.
#[local] Hint Resolve blind_create_backup : blind.

Lemma blind_run_backup_job E j : blind (run_backup_job E j).
Proof. unfold run_backup_job, BackupService_getattr. solve_blind. Qed.

Lemma blind_get_next_run_time E job d : blind (_get_next_run_time E job d).
Proof. unfold _get_next_run_time. solve_blind. Qed.

(** ** The next run time *)

Lemma get_next_run_time_eq E job days w :
  Z.abs days <= timedelta_max_days ->
  (forall last, last_run job = Some last ->
     0 <= last + days * MICROSECONDS_PER_DAY <= datetime_max) ->
  0 <= clock E (reads w) ->
  clock E (reads w) <= clock E (S (reads w)) ->
  clock E (S (reads w)) + timedelta_minutes 5 <= datetime_max ->
  _get_next_run_time E job days w =
    match last_run job with
    | Some last =>
        if last + days * MICROSECONDS_PER_DAY <? clock E (reads w)
        then (Return (clock E (S (reads w)) + timedelta_minutes 5),
              with_reads (S (S (reads w))) w)
        else (Return (last + days * MICROSECONDS_PER_DAY), with_reads (S (reads w)) w)
    | None =>
        (Return (clock E (reads w) + timedelta_minutes 5), with_reads (S (reads w)) w)
    end.
Proof.
  intros Hd Hl H0 Hm Hmax.
  assert (Hfive : 0 < timedelta_minutes 5) by reflexivity.
  unfold _get_next_run_time.
  destruct (last_run job) as [last|] eqn:Hlast.
  - specialize (Hl last eq_refl).
    rewrite timedelta_days_in_range by exact Hd.
    unfold bind at 1, lift at 1.
    rewrite (datetime_add_in_range last) by lia.
    unfold bind at 1, lift at 1.
    unfold bind at 1, utcnow at 1.
    destruct (last + days * MICROSECONDS_PER_DAY <? clock E (reads w)); [|reflexivity].
    unfold bind, utcnow, lift. cbn [reads with_reads].
    rewrite datetime_add_in_range by lia. reflexivity.
  - unfold bind, utcnow, lift.
    rewrite datetime_add_in_range by lia. reflexivity.
Qed.

(** [_schedule_job] in one equation: the interval of the frequency goes to
    [_get_next_run_time]; when that returns, the value goes to the job
    object, a task is created and put under the job's id. *)
Lemma schedule_job_eq E job w :
  _schedule_job E job w =
    match _get_next_run_time E job (interval_days (frequency job)) w with
    | (Return t, w1) =>
        (Return (set_next_run (Some t) job),
         with_running_jobs (<[job_id job := length (tasks w1)]> (running_jobs w1))
           (with_tasks (tasks w1 ++ [mkTask (job_id job) false false]) w1))
    | (Raise e, w1) => (Raise e, w1)
    end.
Proof.
  unfold _schedule_job, bind at 1.
  replace (match frequency job with
           | DAILY => _get_next_run_time E job 1
           | WEEKLY => _get_next_run_time E job 7
           | MONTHLY => _get_next_run_time E job 30
           end) with (_get_next_run_time E job (interval_days (frequency job)))
    by (destruct (frequency job); reflexivity).
  destruct (_get_next_run_time E job (interval_days (frequency job)) w)
    as [[t|e] w1]; reflexivity.
Qed.

(** C4 (as the code has it): the interval is 1, 7 or 30 days by frequency;
    with a known last_run the candidate is last_run + interval, replaced by
    five minutes after the (second) clock reading when the candidate is
    before the clock reading, and with no last_run the next run is five
    minutes after the clock reading.  The value is never before the clock
    reading taken to compute it, and it is equal to that reading exactly
    when last_run + interval is that very instant. *)
Theorem next_run_is_never_in_the_past E job w :
  let d := interval_days (frequency job) in
  let now := clock E (reads w) in
  let later := clock E (S (reads w)) in
  (forall last, last_run job = Some last ->
     0 <= last + d * MICROSECONDS_PER_DAY <= datetime_max) ->
  0 <= now -> now <= later -> later + timedelta_minutes 5 <= datetime_max ->
  exists t w',
    _schedule_job E job w = (Return (set_next_run (Some t) job), w')
    /\ t = match last_run job with
           | Some last =>
               if last + d * MICROSECONDS_PER_DAY <? now
               then later + timedelta_minutes 5
               else last + d * MICROSECONDS_PER_DAY
           | None => now + timedelta_minutes 5
           end
    /\ now <= t
    /\ (t = now <-> last_run job = Some (now - d * MICROSECONDS_PER_DAY)).
Proof.
  intros d now later Hl H0 Hm Hmax.
  assert (Hfive : 0 < timedelta_minutes 5) by reflexivity.
  rewrite schedule_job_eq.
  pose proof (get_next_run_time_eq E job (interval_days (frequency job)) w
                (interval_days_small _) Hl H0 Hm Hmax) as Heq.
  rewrite Heq. clear Heq. fold d now later.
  destruct (last_run job) as [last|] eqn:Hlast.
  - destruct (last + d * MICROSECONDS_PER_DAY <? now) eqn:Hcmp.
    + apply Z.ltb_lt in Hcmp.
      eexists _, _. split; [reflexivity|]. split; [reflexivity|].
      split; [lia|]. split; [lia|].
      intros [= ->]. lia.
    + apply Z.ltb_ge in Hcmp.
      eexists _, _. split; [reflexivity|]. split; [reflexivity|].
      split; [lia|]. split.
      * intros Ht. f_equal. lia.
      * intros [= ->]. lia.
  - eexists _, _. split; [reflexivity|]. split; [reflexivity|].
    split; [lia|]. split; [lia | discriminate].
Qed.

Lemma next_run_is_never_in_the_past_witness :
  exists t w',
    _schedule_job calm overdue quiet = (Return (set_next_run (Some t) overdue), w')
    /\ t = noon + 1 + timedelta_minutes 5
    /\ noon <= t
    /\ (t = noon <->
        Some (noon - 2 * MICROSECONDS_PER_DAY) = Some (noon - 1 * MICROSECONDS_PER_DAY)).
Proof.
  apply (next_run_is_never_in_the_past calm overdue quiet).
  - intros last [= <-]. vm_compute. split; discriminate.
  - vm_compute. discriminate.
  - vm_compute. discriminate.
  - vm_compute. discriminate.
Defined.

(** C4 (as the claim has it) fails at the boundary: a Daily job whose last
    run was exactly one day before the clock reading gets that very reading
    as its next run. *)
Lemma next_run_immediate_when_exactly_due :
  let job := mkBackupJob 1 (Some sales) (Some operator) FULL DAILY 30
                         (Some (noon - MICROSECONDS_PER_DAY)) None true in
  exists job' w',
    _schedule_job calm job quiet = (Return job', w')
    /\ next_run job' = Some (clock calm (reads quiet))
    /\ ~ clock calm (reads quiet) < clock calm (reads quiet).
Proof.
  eexists _, _. split; [vm_compute; reflexivity|].
  split; [reflexivity | lia].
Qed.

(** ** Dispatching *)

Lemma get_next_run_time_world E job d w :
  exists n, (_get_next_run_time E job d w).2 = with_reads n w.
Proof.
  destruct w. unfold _get_next_run_time, bind, lift, utcnow.
  repeat case_match; simplify_eq/=; eexists; reflexivity.
Qed.

Lemma schedule_job_world E job w :
  exists n,
    match (_schedule_job E job w).1 with
    | Return job' =>
        (exists t, job' = set_next_run (Some t) job)
        /\ (_schedule_job E job w).2 =
             with_running_jobs (<[job_id job := length (tasks w)]> (running_jobs w))
               (with_tasks (tasks w ++ [mkTask (job_id job) false false])
                  (with_reads n w))
    | Raise e => (_schedule_job E job w).2 = with_reads n w
    end.
Proof.
  rewrite schedule_job_eq.
  destruct (get_next_run_time_world E job (interval_days (frequency job)) w) as [n Hn].
  destruct (_get_next_run_time E job (interval_days (frequency job)) w) as [[t|e] w1];
    cbn in Hn; subst w1; exists n; cbn.
  - split; [eexists; reflexivity | reflexivity].
  - reflexivity.
Qed.

Lemma dispatched_idle_only_refl w n : dispatched_idle_only w (with_reads n w).
Proof.
  unfold dispatched_idle_only. cbn. split_and!; try reflexivity; try tauto.
  - exists []. rewrite app_nil_r. split; [reflexivity | constructor].
  - intros k tid H1 H2. congruence.
Qed.

Lemma dispatched_idle_only_trans w1 w2 w3 :
  dispatched_idle_only w1 w2 -> dispatched_idle_only w2 w3 ->
  dispatched_idle_only w1 w3.
Proof.
  intros ([n1 [Ht1 Hf1]] & Hk1 & Hn1 & Hj1 & Hb1 & Hs1 & Hr1)
         ([n2 [Ht2 Hf2]] & Hk2 & Hn2 & Hj2 & Hb2 & Hs2 & Hr2).
  unfold dispatched_idle_only. split_and!; try congruence.
  - exists (n1 ++ n2). split; [rewrite Ht2, Ht1, app_assoc; reflexivity|].
    apply Forall_app. split; [exact Hf1|].
    eapply Forall_impl; [exact Hf2|]. cbn. intros t (Hnone & Hc & Hd).
    split_and!; try assumption.
    destruct (running_jobs w1 !! task_job t) as [x|] eqn:Hx; [|reflexivity].
    apply Hk1 in Hx. congruence.
  - intros k t H. apply Hk2, Hk1, H.
  - intros k tid Hnone Hsome.
    destruct (running_jobs w2 !! k) as [t2|] eqn:H2.
    + assert (t2 = tid) as -> by (apply Hk2 in H2; congruence).
      destruct (Hn1 k tid Hnone H2) as [Hle Hlk]. split; [exact Hle|].
      rewrite Ht2. apply lookup_app_l_Some. exact Hlk.
    + destruct (Hn2 k tid H2 Hsome) as [Hle Hlk]. split; [|exact Hlk].
      rewrite Ht1, length_app in Hle. lia.
Qed.

Lemma schedule_job_dispatches E job w :
  running_jobs w !! job_id job = None ->
  dispatched_idle_only w (_schedule_job E job w).2
  /\ ((exists e, (_schedule_job E job w).1 = Raise e)
      \/ running_jobs (_schedule_job E job w).2 !! job_id job = Some (length (tasks w))).
Proof.
  intros Hidle. destruct (schedule_job_world E job w) as [n Hw].
  destruct (_schedule_job E job w) as [[job'|e] w']; cbn in *.
  - destruct Hw as [_ ->]. split.
    + unfold dispatched_idle_only. cbn. split_and!; try reflexivity.
      * eexists. split; [reflexivity|]. repeat constructor. exact Hidle.
      * intros k t Hk. rewrite lookup_insert_ne; [exact Hk | congruence].
      * intros k tid Hk. rewrite lookup_insert. case_decide; [|congruence].
        intros [= <-]. subst k. split; [lia|].
        rewrite lookup_app_r by lia. rewrite Nat.sub_diag. reflexivity.
    + right. apply lookup_insert_eq.
  - subst w'. split; [apply dispatched_idle_only_refl | left; eauto].
Qed.

Lemma schedule_unless_running_eq E job w :
  schedule_unless_running E job w =
    match running_jobs w !! job_id job with
    | Some _ => (Return tt, w)
    | None => match _schedule_job E job w with
              | (Return _, w') => (Return tt, w')
              | (Raise e, w') => (Raise e, w')
              end
    end.
Proof.
  unfold schedule_unless_running, bind, gets.
  destruct (running_jobs w !! job_id job); [reflexivity|].
  destruct (_schedule_job E job w) as [[job'|e] w']; reflexivity.
Qed.

Lemma dispatched_idle_only_same w : dispatched_idle_only w w.
Proof.
  pose proof (dispatched_idle_only_refl w (reads w)) as H.
  destruct w; exact H.
Qed.

Lemma schedule_unless_running_dispatches E job w :
  dispatched_idle_only w (schedule_unless_running E job w).2
  /\ ((schedule_unless_running E job w).1 = Return tt ->
      is_Some (running_jobs (schedule_unless_running E job w).2 !! job_id job)).
Proof.
  rewrite schedule_unless_running_eq.
  destruct (running_jobs w !! job_id job) as [t|] eqn:Hrj.
  - cbn. split; [apply dispatched_idle_only_same|].
    intros _. rewrite Hrj. eauto.
  - destruct (schedule_job_dispatches E job w Hrj) as [Hd Hr].
    destruct (_schedule_job E job w) as [[job'|e] w']; cbn in *.
    + split; [exact Hd|]. intros _. destruct Hr as [[e He]|Hr]; [discriminate|].
      rewrite Hr. eauto.
    + split; [exact Hd | discriminate].
Qed.

Lemma poll_loop_dispatches E l w :
  dispatched_idle_only w (for_each l (schedule_unless_running E) w).2
  /\ ((for_each l (schedule_unless_running E) w).1 = Return tt ->
      forall job, job ∈ l ->
        is_Some (running_jobs (for_each l (schedule_unless_running E) w).2 !! job_id job)).
Proof.
  revert w. induction l as [|x l IH]; intros w; cbn [for_each].
  - split; [apply dispatched_idle_only_same|].
    intros _ job Hin. inversion Hin.
  - unfold bind.
    destruct (schedule_unless_running_dispatches E x w) as [Hd Hr].
    destruct (schedule_unless_running E x w) as [[[]|e] w1]; cbn in *.
    + destruct (IH w1) as [Hd' Hr']. split.
      * eapply dispatched_idle_only_trans; eassumption.
      * intros Hret job Hin. apply elem_of_cons in Hin as [->|Hin].
        -- destruct (Hr eq_refl) as [t Ht].
           destruct Hd' as (_ & Hk & _). rewrite (Hk _ _ Ht). eauto.
        -- apply Hr'; assumption.
    + split; [exact Hd | discriminate].
Qed.

Lemma schedule_pending_jobs_eq E w :
  _schedule_pending_jobs E w =
    for_each (List.filter (is_due (clock E (reads w))) (backup_jobs w))
             (schedule_unless_running E) (with_reads (S (reads w)) w).
Proof. reflexivity. Qed.

Lemma poll_dispatches_idle_only E w :
  dispatched_idle_only w (_schedule_pending_jobs E w).2.
Proof.
  rewrite schedule_pending_jobs_eq.
  eapply dispatched_idle_only_trans;
    [apply (dispatched_idle_only_refl w (S (reads w))) | apply poll_loop_dispatches].
Qed.

Lemma poll_dispatches_due E w job :
  job ∈ backup_jobs w ->
  is_due (clock E (reads w)) job = true ->
  running_jobs w !! job_id job = None ->
  (_schedule_pending_jobs E w).1 = Return tt ->
  exists tid,
    running_jobs (_schedule_pending_jobs E w).2 !! job_id job = Some tid
    /\ (length (tasks w) <= tid)%nat
    /\ tasks (_schedule_pending_jobs E w).2 !! tid = Some (mkTask (job_id job) false false).
Proof.
  intros Hin Hdue Hidle Hret.
  pose proof (poll_dispatches_idle_only E w) as (_ & _ & Hnew & _).
  rewrite schedule_pending_jobs_eq in *.
  destruct (poll_loop_dispatches E
              (List.filter (is_due (clock E (reads w))) (backup_jobs w))
              (with_reads (S (reads w)) w)) as [_ Hall].
  destruct (Hall Hret job) as [tid Htid].
  - apply list_elem_of_In, filter_In. split; [apply list_elem_of_In, Hin | exact Hdue].
  - exists tid. split; [exact Htid|]. apply Hnew; assumption.
Qed.

Lemma resume_dispatches_idle_only E j w :
  dispatched_idle_only w (resume_job E j w).2.
Proof.
  unfold resume_job, bind at 1, query_job, bind at 1, gets at 1, ret at 1.
  unfold bind at 1, gets at 1.
  destruct (List.find _ (backup_jobs w)) as [job|] eqn:Hfind;
    [|apply dispatched_idle_only_same].
  apply find_some in Hfind as [_ Hid]. apply Z.eqb_eq in Hid.
  destruct (is_active job); cbn [andb]; [|apply dispatched_idle_only_same].
  case_bool_decide as Hidle; [|apply dispatched_idle_only_same].
  rewrite <- Hid in Hidle.
  destruct (schedule_job_dispatches E job w Hidle) as [Hd _].
  unfold bind. destruct (_schedule_job E job w) as [[job'|e] w']; exact Hd.
Qed.

Lemma cancel_and_del_eq j w :
  cancel_and_del j w =
    match running_jobs w !! j with
    | Some t => (Return tt,
                 with_running_jobs (delete j (running_jobs w))
                   (with_tasks (alter cancelled t (tasks w)) w))
    | None => (Return tt, w)
    end.
Proof.
  unfold cancel_and_del, bind, gets.
  destruct (running_jobs w !! j); reflexivity.
Qed.

Lemma cancel_and_del_other j k w :
  k <> j -> running_jobs (cancel_and_del k w).2 !! j = running_jobs w !! j.
Proof.
  intros Hne. rewrite cancel_and_del_eq.
  destruct (running_jobs w !! k); cbn; [apply lookup_delete_ne; exact Hne | reflexivity].
Qed.

Lemma schedule_job_other E job j w :
  job_id job <> j ->
  running_jobs (_schedule_job E job w).2 !! j = running_jobs w !! j.
Proof.
  intros Hne. destruct (schedule_job_world E job w) as [n Hw].
  destruct (_schedule_job E job w) as [[job'|e] w']; cbn in *.
  - destruct Hw as [_ ->]. cbn. apply lookup_insert_ne. exact Hne.
  - subst w'. reflexivity.
Qed.

Lemma reschedule_other E j k w :
  k <> j -> running_jobs (reschedule_job E k w).2 !! j = running_jobs w !! j.
Proof.
  intros Hne.
  unfold reschedule_job, bind at 1, query_job, bind at 1, gets at 1, ret at 1.
  destruct (List.find _ (backup_jobs w)) as [job|] eqn:Hfind; [|reflexivity].
  apply find_some in Hfind as [_ Hid]. apply Z.eqb_eq in Hid.
  destruct (is_active job); [|reflexivity].
  unfold bind at 1. rewrite cancel_and_del_eq.
  pose proof (cancel_and_del_other j k w Hne) as Hc. rewrite cancel_and_del_eq in Hc.
  destruct (running_jobs w !! k) as [t|]; cbn in Hc |- *.
  - unfold bind. rewrite <- Hc.
    match goal with |- context [_schedule_job E job ?w0] =>
      pose proof (schedule_job_other E job j w0 ltac:(congruence)) as Hs;
      destruct (_schedule_job E job w0) as [[job'|e] w'] end; exact Hs.
  - unfold bind.
    pose proof (schedule_job_other E job j w ltac:(congruence)) as Hs.
    destruct (_schedule_job E job w) as [[job'|e] w']; exact Hs.
Qed.

Lemma run_backup_finally_eq j w :
  _run_backup_finally j w =
    (Return tt, with_running_jobs (delete j (running_jobs w)) (with_session ∅ w)).
Proof.
  unfold _run_backup_finally, bind, db_close, modify, gets. cbn.
  destruct (running_jobs w !! j) eqn:Hj; [reflexivity|].
  rewrite (delete_id _ _ Hj). destruct w; reflexivity.
Qed.

(** An execution leaves the scheduler's state alone until its [finally]
    block, which takes the entry of its job id out of [running_jobs]. *)
Lemma run_backup_eq E j w :
  exists r w1,
    _run_backup E j w =
      (r, with_running_jobs (delete j (running_jobs w)) (with_session ∅ w1))
    /\ tasks w1 = tasks w.
Proof.
  unfold _run_backup, bind at 1, db_close at 1, modify at 1.
  unfold try_finally.
  match goal with |- context [try_except ?m ?h ?w0] =>
    pose proof (blind_preserves (try_except m h) w0
                  ltac:(solve_blind)) as [Hrj Hts];
    destruct (try_except m h w0) as [r w1] end.
  cbn in Hrj, Hts. rewrite run_backup_finally_eq. cbn.
  exists r, w1. rewrite Hrj. split; [reflexivity | exact Hts].
Qed.

Lemma run_backup_sched E j w :
  running_jobs (_run_backup E j w).2 = delete j (running_jobs w)
  /\ tasks (_run_backup E j w).2 = tasks w.
Proof.
  destruct (run_backup_eq E j w) as (r & w1 & -> & Hts).
  split; [reflexivity | exact Hts].
Qed.

Lemma run_task_eq E tid w :
  run_task E tid w =
    match tasks w !! tid with
    | None => (Return tt, w)
    | Some t =>
        if task_done t then (Return tt, w)
        else if cancel_requested t
             then (Return tt, with_tasks (alter finished tid (tasks w)) w)
             else (swallow (_run_backup E (task_job t)) ;; mark_done tid) w
    end.
Proof.
  unfold run_task, bind at 1, gets at 1.
  destruct (tasks w !! tid) as [t|]; [|reflexivity].
  destruct (task_done t); [reflexivity|].
  destruct (cancel_requested t); reflexivity.
Qed.

Lemma run_task_entry E tid w j :
  (forall task, tasks w !! tid = Some task -> task_done task = false ->
     cancel_requested task = false -> task_job task <> j) ->
  running_jobs (run_task E tid w).2 !! j = running_jobs w !! j.
Proof.
  intros Hother. rewrite run_task_eq.
  destruct (tasks w !! tid) as [task|] eqn:Htask; [|reflexivity].
  destruct (task_done task) eqn:Hdone; [reflexivity|].
  destruct (cancel_requested task) eqn:Hc; [reflexivity|].
  destruct (run_backup_sched E (task_job task) w) as [Hrj _].
  unfold bind, swallow, mark_done, modify.
  destruct (_run_backup E (task_job task) w) as [r w1]. cbn in Hrj |- *.
  rewrite Hrj. apply lookup_delete_ne. eauto.
Qed.

Lemma entry_kept_unless_removed E a w j t :
  running_jobs w !! j = Some t ->
  may_remove_entry w j a \/ running_jobs (perform E a w).2 !! j = Some t.
Proof.
  intros Hj. destruct a as [|k|k|k|tid|k|k]; cbn [perform may_remove_entry].
  - right. apply (poll_dispatches_idle_only E w), Hj.
  - destruct (decide (k = j)) as [->|Hne]; [left; reflexivity | right].
    rewrite reschedule_other by exact Hne. exact Hj.
  - destruct (decide (k = j)) as [->|Hne]; [left; reflexivity | right].
    unfold pause_job. rewrite cancel_and_del_other by exact Hne. exact Hj.
  - right. apply (resume_dispatches_idle_only E k w), Hj.
  - destruct (tasks w !! tid) as [task|] eqn:Htask.
    + destruct (decide (task_job task = j)) as [Hjob|Hne].
      * destruct (task_done task) eqn:Hdone;
          [right; rewrite run_task_entry; [exact Hj | intros; simplify_eq; congruence]|].
        destruct (cancel_requested task) eqn:Hc;
          [right; rewrite run_task_entry; [exact Hj | intros; simplify_eq; congruence]|].
        left. exists task. auto.
      * right. rewrite run_task_entry; [exact Hj | intros; simplify_eq; auto].
    + right. rewrite run_task_entry; [exact Hj | intros; simplify_eq].
  - destruct (decide (k = j)) as [->|Hne]; [left; reflexivity | right].
    rewrite run_backup_finally_eq. cbn. rewrite lookup_delete_ne by exact Hne. exact Hj.
  - right.
    destruct (blind_preserves (swallow (run_backup_job E k)) w
                (blind_swallow _ (blind_run_backup_job E k))) as [-> _].
    exact Hj.
Qed.

(** C3 (as the code has it): a poll cycle and resume_job create tasks only
    for jobs that have no entry in the in-flight map, and leave every entry
    as it is; an entry is taken out, or replaced by another task, only by
    pause_job and reschedule_job for its job id (which request cancellation
    and delete the entry without waiting for the task), and by the finally
    block of an execution of that job id.  (stop(), which clears the map,
    is not one of the operations here: see [Action].) *)
Theorem in_flight_entry_kept_or_removed E a w j t :
  running_jobs w !! j = Some t ->
  ((a = Poll \/ exists k, a = Resume k) -> dispatched_idle_only w (perform E a w).2)
  /\ (running_jobs (perform E a w).2 !! j <> Some t -> may_remove_entry w j a).
Proof.
  intros Hj. split.
  - intros [->|[k ->]]; cbn [perform].
    + apply poll_dispatches_idle_only.
    + apply resume_dispatches_idle_only.
  - intros Hchanged.
    destruct (entry_kept_unless_removed E a w j t Hj) as [H|H]; [exact H | contradiction].
Qed.

Lemma in_flight_entry_kept_or_removed_witness :
  ((Pause 1 = Poll \/ exists k, Pause 1 = Resume k) ->
     dispatched_idle_only busy (perform calm (Pause 1) busy).2)
  /\ (running_jobs (perform calm (Pause 1) busy).2 !! 1 <> Some 0%nat ->
      may_remove_entry busy 1 (Pause 1)).
Proof.
  apply (in_flight_entry_kept_or_removed calm (Pause 1) busy 1 0%nat).
  reflexivity.
Defined.

(** C3 (as the claim has it) fails: pause_job takes the entry of a task that
    has not finished out of the map, and reschedule_job puts a new task in
    its place; the old task has only been asked to cancel. *)
Lemma live_entry_removed_and_replaced :
  running_jobs busy !! 1 = Some 0%nat
  /\ tasks busy !! 0%nat = Some (mkTask 1 false false)
  /\ running_jobs (pause_job 1 busy).2 !! 1 = None
  /\ tasks (pause_job 1 busy).2 !! 0%nat = Some (mkTask 1 true false)
  /\ running_jobs (reschedule_job calm 1 busy).2 !! 1 = Some 1%nat
  /\ tasks (reschedule_job calm 1 busy).2 !! 0%nat = Some (mkTask 1 true false).
Proof. vm_compute. repeat split; reflexivity. Qed.

(** ** Pausing *)

(** C7 (as the code has it): pause_job asks the job's in-flight task, if
    there is one, to cancel and deletes its entry, so the job is absent from
    the in-flight map when pause_job returns; it touches no job and no
    Backup, and a task cancelled before its first step creates no Backup
    either; the job is not held back from polling: the next poll cycle that
    finds it active and due dispatches it again, resume or not. *)
Theorem pause_forgets_the_task_not_the_job E j w :
  let w1 := (pause_job j w).2 in
  (pause_job j w).1 = Return tt
  /\ running_jobs w1 !! j = None
  /\ (forall t, running_jobs w !! j = Some t -> tasks w1 = alter cancelled t (tasks w))
  /\ backup_jobs w1 = backup_jobs w /\ backups w1 = backups w
  /\ trace w1 = trace w /\ reads w1 = reads w
  /\ (forall t task,
        running_jobs w !! j = Some t -> tasks w !! t = Some task ->
        task_done task = false ->
        backups (run_task E t w1).2 = backups w /\ trace (run_task E t w1).2 = trace w)
  /\ (forall job,
        job ∈ backup_jobs w -> job_id job = j ->
        is_due (clock E (reads w)) job = true ->
        (_schedule_pending_jobs E w1).1 = Return tt ->
        exists tid,
          running_jobs (_schedule_pending_jobs E w1).2 !! j = Some tid
          /\ (length (tasks w) <= tid)%nat
          /\ tasks (_schedule_pending_jobs E w1).2 !! tid = Some (mkTask j false false)).
Proof.
  unfold pause_job. rewrite cancel_and_del_eq.
  destruct (running_jobs w !! j) as [t0|] eqn:Hj; cbv zeta; cbn [fst snd].
  - split_and!; try reflexivity.
    + apply lookup_delete_eq.
    + intros t [= <-]. reflexivity.
    + intros t task [= <-] Htask Hdone. rewrite run_task_eq. cbn.
      rewrite list_lookup_alter_eq, Htask. cbn. unfold cancelled. rewrite Hdone.
      cbn. split; reflexivity.
    + intros job Hin <- Hdue Hret.
      match type of Hret with (_schedule_pending_jobs E ?w1).1 = _ =>
        destruct (poll_dispatches_due E w1 job Hin Hdue
                    (lookup_delete_eq _ _) Hret) as (tid & Ht & Hle & Hlk) end.
      exists tid. cbn in Hle. rewrite length_alter in Hle. auto.
  - split_and!; try reflexivity; try discriminate.
    + exact Hj.
    + intros job Hin <- Hdue Hret.
      exact (poll_dispatches_due E w job Hin Hdue Hj Hret).
Qed.

(** C7 (as the claim has it) fails: after pause_job the next poll cycle
    dispatches the job again although resume_job was never called, and the
    cancelled task leaves no Backup behind, Failed or other. *)
Lemma paused_job_dispatched_by_next_poll :
  let w1 := (pause_job 1 busy).2 in
  let w2 := (_schedule_pending_jobs calm w1).2 in
  running_jobs w1 !! 1 = None
  /\ running_jobs w2 !! 1 = Some 1%nat
  /\ tasks w2 !! 1%nat = Some (mkTask 1 false false)
  /\ backups (run_task calm 0 w1).2 = [aged].
Proof. vm_compute. repeat split; reflexivity. Qed.

(** ** Scheduling a job *)

(** Scheduling, step by step: the computed next_run goes to the job object
    that was handed in, and to nothing else; in the same call a task running
    [_run_backup] for the job is created and registered, whatever the value
    of next_run; the event loop then runs the execution without looking at
    next_run.  resume_job and reschedule_job come down to this for an active
    job (the first only when the job has no entry, the second after
    cancelling and deleting the entry), and so does a poll cycle for every
    due job without an entry. *)
Theorem scheduling_creates_the_task_at_once E job w t w1 :
  _get_next_run_time E job (interval_days (frequency job)) w = (Return t, w1) ->
  let tid := length (tasks w) in
  let w' := with_running_jobs (<[job_id job := tid]> (running_jobs w))
              (with_tasks (tasks w ++ [mkTask (job_id job) false false]) w1) in
  _schedule_job E job w = (Return (set_next_run (Some t) job), w')
  /\ backups w' = backups w /\ trace w' = trace w /\ backup_jobs w' = backup_jobs w
  /\ run_task E tid w' = (swallow (_run_backup E (job_id job)) ;; mark_done tid) w'
  /\ (List.find (fun j => job_id j =? job_id job) (backup_jobs w) = Some job ->
      is_active job = true -> running_jobs w !! job_id job = None ->
      resume_job E (job_id job) w = (Return tt, w'))
  /\ (forall w0,
        List.find (fun j => job_id j =? job_id job) (backup_jobs w0) = Some job ->
        is_active job = true -> (cancel_and_del (job_id job) w0).2 = w ->
        reschedule_job E (job_id job) w0 = (Return tt, w'))
  /\ (forall w0 job0,
        job0 ∈ backup_jobs w0 -> is_due (clock E (reads w0)) job0 = true ->
        running_jobs w0 !! job_id job0 = None ->
        (_schedule_pending_jobs E w0).1 = Return tt ->
        exists tid0,
          running_jobs (_schedule_pending_jobs E w0).2 !! job_id job0 = Some tid0
          /\ (length (tasks w0) <= tid0)%nat
          /\ tasks (_schedule_pending_jobs E w0).2 !! tid0
             = Some (mkTask (job_id job0) false false)).
Proof.
  intros Hnext tid w'.
  destruct (get_next_run_time_world E job (interval_days (frequency job)) w) as [n Hn].
  rewrite Hnext in Hn. cbn in Hn. subst w1.
  assert (Hs : _schedule_job E job w = (Return (set_next_run (Some t) job), w')).
  { rewrite schedule_job_eq, Hnext. reflexivity. }
  split_and!; try reflexivity.
  - exact Hs.
  - rewrite run_task_eq. subst w'. cbn [tasks with_tasks with_running_jobs].
    rewrite lookup_app_r by (subst tid; lia).
    subst tid. rewrite Nat.sub_diag. reflexivity.
  - intros Hfind Hact Hidle.
    unfold resume_job, bind at 1, query_job, bind at 1, gets at 1, ret at 1.
    rewrite Hfind. unfold bind at 1, gets at 1. rewrite Hact.
    rewrite bool_decide_eq_true_2 by exact Hidle. cbn [andb].
    unfold bind. rewrite Hs. reflexivity.
  - intros w0 Hfind Hact Hw0.
    unfold reschedule_job, bind at 1, query_job, bind at 1, gets at 1, ret at 1.
    rewrite Hfind, Hact. unfold bind at 1.
    rewrite cancel_and_del_eq in Hw0 |- *.
    destruct (running_jobs w0 !! job_id job); cbn in Hw0; rewrite Hw0;
      unfold bind; rewrite Hs; reflexivity.
  - intros w0 job0. apply poll_dispatches_due.
Qed.

Lemma scheduling_creates_the_task_at_once_witness :
  _schedule_job calm nightly quiet =
    (Return (set_next_run (Some (noon + timedelta_minutes 5)) nightly),
     with_running_jobs {[ 1 := 0%nat ]}
       (with_tasks [mkTask 1 false false] (with_reads 1 quiet))).
Proof.
  apply (scheduling_creates_the_task_at_once calm nightly quiet
           (noon + timedelta_minutes 5) (with_reads 1 quiet)).
  reflexivity.
Defined.

(** ** The retention sweep *)

Lemma cleanup_one_eq E old_backup w :
  cleanup_one E old_backup w =
    (Return tt, with_trace (trace w ++ cleanup_events E old_backup) w).
Proof.
  unfold cleanup_one, cleanup_events, try_except, bind, call, print, emit,
    modify, ret, raise.
  destruct (truthy (cloud_storage_path old_backup)); cbn.
  - destruct (files_delete_v2 E _); cbn.
    + rewrite <- app_assoc. reflexivity.
    + destruct (truthy (file_path old_backup) && path_exists E _); cbn.
      * destruct (os_remove E _); cbn; rewrite <- !app_assoc; reflexivity.
      * rewrite <- !app_assoc. reflexivity.
  - destruct (truthy (file_path old_backup) && path_exists E _); cbn.
    + destruct (os_remove E _); cbn; rewrite <- !app_assoc; reflexivity.
    + destruct w; reflexivity.
Qed.

Lemma for_each_cleanup_one E l w :
  for_each l (cleanup_one E) w =
    (Return tt, with_trace (trace w ++ concat (map (cleanup_events E) l)) w).
Proof.
  revert w. induction l as [|b l IH]; intros w; cbn [for_each map concat].
  - rewrite app_nil_r. destruct w; reflexivity.
  - unfold bind. rewrite cleanup_one_eq, IH. cbn.
    rewrite <- app_assoc. reflexivity.
Qed.

(** The sweep in one equation, when the cutoff is a date. *)
Lemma cleanup_old_backups_eq E job w :
  Z.abs (retention_days job) <= timedelta_max_days ->
  0 <= clock E (reads w) - retention_days job * MICROSECONDS_PER_DAY <= datetime_max ->
  let cutoff := clock E (reads w) - retention_days job * MICROSECONDS_PER_DAY in
  let rows := List.filter (is_old_backup job cutoff) (backups w) in
  _cleanup_old_backups E job w =
    (Return tt,
     with_trace (trace w ++ EvCall "_cleanup_old_backups" (job_id job)
                   :: concat (map (cleanup_events E)
                                (map (fun r => default r (session w !! backup_id r)) rows)))
       (with_session (load rows (session w)) (with_reads (S (reads w)) w))).
Proof.
  intros Hd Hc cutoff rows.
  unfold _cleanup_old_backups, bind at 1, emit at 1, modify at 1.
  unfold bind at 1, utcnow at 1. cbn [reads with_trace].
  rewrite timedelta_days_in_range by exact Hd.
  unfold bind at 1, lift at 1.
  unfold datetime_sub. rewrite datetime_add_in_range by lia.
  unfold bind at 1, lift at 1.
  replace (clock E (reads w) + - (retention_days job * MICROSECONDS_PER_DAY))
    with cutoff by (unfold cutoff; lia).
  unfold bind at 1, query_old_backups, bind at 1, gets at 1.
  unfold bind at 1, gets at 1. unfold bind at 1, modify at 1, ret at 1.
  cbn [backups session with_reads with_trace with_session].
  fold rows. rewrite for_each_cleanup_one. cbn.
  rewrite <- app_assoc. reflexivity.
Qed.

Lemma status_history_app bid tr evs :
  status_history bid (tr ++ evs) = status_history bid tr ++ status_history bid evs.
Proof.
  induction tr as [|ev tr IH]; cbn; [reflexivity|].
  destruct ev; try exact IH. destruct (_ =? _); [cbn; f_equal|]; exact IH.
Qed.

Lemma cleanup_events_silent E bid l :
  status_history bid (concat (map (cleanup_events E) l)) = [].
Proof.
  induction l as [|b l IH]; [reflexivity|]. cbn [map concat].
  rewrite status_history_app, IH, app_nil_r. unfold cleanup_events.
  repeat case_match; reflexivity.
Qed.

Lemma load_keeps rows s k b : s !! k = Some b -> load rows s !! k = Some b.
Proof.
  intros Hk. induction rows as [|r rows IH]; [exact Hk|].
  change (load (r :: rows) s)
    with (match load rows s !! backup_id r with
          | Some _ => load rows s
          | None => <[backup_id r := r]> (load rows s)
          end).
  destruct (load rows s !! backup_id r) eqn:Hr; [exact IH|].
  rewrite lookup_insert_ne; [exact IH | congruence].
Qed.

(** In any case the sweep writes no status and leaves the tables as they
    are. *)
Lemma cleanup_old_backups_shape E job w :
  exists r evs s n,
    _cleanup_old_backups E job w =
      (r, with_trace (trace w ++ EvCall "_cleanup_old_backups" (job_id job) :: evs)
            (with_session s (with_reads n w)))
    /\ (forall bid, status_history bid evs = [])
    /\ (forall k b, session w !! k = Some b -> s !! k = Some b).
Proof.
  unfold _cleanup_old_backups, bind at 1, emit at 1, modify at 1.
  unfold bind at 1, utcnow at 1. cbn [reads with_trace].
  unfold bind at 1, lift at 1.
  destruct (timedelta_days (retention_days job)) as [delta|e].
  2:{ eexists _, [], _, _. split; [reflexivity|]. split; [reflexivity|]. auto. }
  unfold bind at 1, lift at 1.
  destruct (datetime_sub (clock E (reads w)) delta) as [cutoff|e].
  2:{ eexists _, [], _, _. split; [reflexivity|]. split; [reflexivity|]. auto. }
  unfold bind at 1, query_old_backups, bind at 1, gets at 1.
  unfold bind at 1, gets at 1. unfold bind at 1, modify at 1, ret at 1.
  rewrite for_each_cleanup_one. cbn.
  eexists _, _, _, _. split; [rewrite <- app_assoc; reflexivity|].
  split; [intros bid; apply cleanup_events_silent|].
  intros k b Hk. apply load_keeps, Hk.
Qed.

Lemma truthy_Some (s : option string) :
  truthy s = true <-> exists p, s = Some p /\ p <> "".
Proof.
  destruct s as [p|]; cbn.
  - rewrite negb_true_iff, String.eqb_neq. split; [eauto|].
    intros (q & [= <-] & Hq). exact Hq.
  - split; [discriminate | intros (q & [=] & _)].
Qed.

Lemma is_old_backup_spec job cutoff b :
  is_old_backup job cutoff b = true <->
  backup_job_id b = job_id job /\ created_at b < cutoff /\ status b = COMPLETED.
Proof.
  unfold is_old_backup.
  rewrite !andb_true_iff, Z.eqb_eq, Z.ltb_lt, bool_decide_eq_true. tauto.
Qed.

Lemma cloud_delete_in_cleanup_events E b p :
  EvCloudDelete p ∈ cleanup_events E b <-> cloud_storage_path b = Some p /\ p <> "".
Proof.
  unfold cleanup_events.
  destruct (truthy (cloud_storage_path b)) eqn:Ht.
  - apply truthy_Some in Ht as (q & Hq & Hne). rewrite Hq. cbn [default from_option id].
    split.
    + intros Hin. apply elem_of_cons in Hin as [[= ->]|Hin]; [auto|]. exfalso.
      repeat case_match;
        repeat (apply elem_of_cons in Hin as [Hin|Hin]; [discriminate|]);
        inversion Hin.
    + intros [[= ->] _]. apply list_elem_of_here.
  - split.
    + intros Hin. exfalso.
      repeat case_match;
        repeat (apply elem_of_cons in Hin as [Hin|Hin]; [discriminate|]);
        inversion Hin.
    + intros [Hq Hne]. assert (truthy (cloud_storage_path b) = true)
        by (apply truthy_Some; eauto). congruence.
Qed.

Lemma remove_in_cleanup_events E b f :
  EvRemove f ∈ cleanup_events E b <->
  file_path b = Some f /\ f <> "" /\ path_exists E f = true
  /\ (forall p, cloud_storage_path b = Some p -> p <> "" -> files_delete_v2 E p = None).
Proof.
  unfold cleanup_events, truthy.
  destruct (cloud_storage_path b) as [p|]; destruct (file_path b) as [g|];
    cbn [default from_option id];
    repeat match goal with
           | |- context [String.eqb ?x ""] => destruct (String.eqb_spec x "")
           end; cbn [negb andb];
    repeat match goal with
           | |- context [path_exists E ?x] => destruct (path_exists E x) eqn:?
           end; cbn [andb];
    repeat match goal with
           | |- context [files_delete_v2 E ?x] => destruct (files_delete_v2 E x) eqn:?
           end;
    repeat match goal with
           | |- context [os_remove E ?x] => destruct (os_remove E x) eqn:?
           end;
    try solve [set_unfold; naive_solver];
    (split; [intros Hin; set_unfold; naive_solver | intros ([= ->] & _); congruence]).
Qed.

(** The sweep as a function of the world it is called in: it selects every
    backup of the job that the table has as Completed with a created_at
    before now - retention_days; for each of them it asks Dropbox to delete
    the remote artifact when a remote path is recorded, and, unless that
    call failed, removes the local file when one is recorded and present.
    A backup that is not selected is not touched.  (In a run the backup of
    the attempt is not selected: the table has it as InProgress.) *)
Theorem sweep_deletes_every_old_completed_backup E job w :
  Z.abs (retention_days job) <= timedelta_max_days ->
  0 <= clock E (reads w) - retention_days job * MICROSECONDS_PER_DAY <= datetime_max ->
  let cutoff := clock E (reads w) - retention_days job * MICROSECONDS_PER_DAY in
  let old b := b ∈ backups w /\ backup_job_id b = job_id job
               /\ created_at b < cutoff /\ status b = COMPLETED in
  (forall r, old r -> session w !! backup_id r = None) ->
  exists evs w',
    _cleanup_old_backups E job w = (Return tt, w')
    /\ trace w' = trace w ++ EvCall "_cleanup_old_backups" (job_id job) :: evs
    /\ (forall p, EvCloudDelete p ∈ evs <->
          exists b, old b /\ cloud_storage_path b = Some p /\ p <> "")
    /\ (forall f, EvRemove f ∈ evs <->
          exists b, old b /\ file_path b = Some f /\ f <> ""
                    /\ path_exists E f = true
                    /\ (forall p, cloud_storage_path b = Some p -> p <> "" ->
                          files_delete_v2 E p = None)).
Proof.
  intros Hd Hc cutoff old Hfresh.
  rewrite (cleanup_old_backups_eq E job w Hd Hc). fold cutoff.
  set (rows := List.filter (is_old_backup job cutoff) (backups w)).
  assert (Hrows : forall b, b ∈ rows <-> old b).
  { intros b. unfold rows, old.
    rewrite list_elem_of_In, filter_In, <- list_elem_of_In, is_old_backup_spec.
    tauto. }
  assert (Hobjs : map (fun r => default r (session w !! backup_id r)) rows = rows).
  { rewrite <- (map_id rows) at 2. apply map_ext_in. intros r Hr.
    apply list_elem_of_In, Hrows, Hfresh in Hr. rewrite Hr. reflexivity. }
  rewrite Hobjs.
  assert (Hin : forall ev,
            ev ∈ concat (map (cleanup_events E) rows) <->
            exists b, old b /\ ev ∈ cleanup_events E b).
  { intros ev. rewrite list_elem_of_In, in_concat. split.
    - intros (l & Hl & Hev). apply in_map_iff in Hl as (b & <- & Hb).
      exists b. split; [apply Hrows, list_elem_of_In, Hb | apply list_elem_of_In, Hev].
    - intros (b & Hb & Hev). exists (cleanup_events E b). split.
      + apply in_map, list_elem_of_In, Hrows, Hb.
      + apply list_elem_of_In, Hev. }
  eexists _, _. split; [reflexivity|]. split; [reflexivity|]. split.
  - intros p. rewrite Hin.
    setoid_rewrite cloud_delete_in_cleanup_events. reflexivity.
  - intros f. rewrite Hin.
    setoid_rewrite remove_in_cleanup_events. reflexivity.
Qed.

Lemma sweep_deletes_every_old_completed_backup_witness :
  exists w', _cleanup_old_backups calm nightly quiet = (Return tt, w').
Proof.
  destruct (sweep_deletes_every_old_completed_backup calm nightly quiet)
    as (evs & w' & Hrun & _).
  - vm_compute. discriminate.
  - vm_compute. split; discriminate.
  - intros r _. apply lookup_empty.
  - exists w'. exact Hrun.
Defined.

(** C9 (the code at the failing input): DELETED is not a member of
    BackupStatus, so looking it up raises; the sweep has deleted both
    artifacts of the old backup by then, and the record keeps its status.
    No sweep writes a status to any record. *)
Theorem purged_backup_keeps_its_status :
  BackupStatus_getattr "DELETED" = None
  /\ trace (_cleanup_old_backups calm nightly quiet).2 =
       [ EvCall "_cleanup_old_backups" 1;
         EvCloudDelete "/sales/a.bak";
         EvRemove "/backups/a.bak";
         EvPrint "Error cleaning up backup 1: DELETED" ]
  /\ backups (_cleanup_old_backups calm nightly quiet).2 = [aged]
  /\ status aged = COMPLETED
  /\ (forall E job w bid,
        backups (_cleanup_old_backups E job w).2 = backups w
        /\ status_history bid (trace (_cleanup_old_backups E job w).2)
           = status_history bid (trace w)).
Proof.
  split; [reflexivity|]. split; [vm_compute; reflexivity|].
  split; [vm_compute; reflexivity|]. split; [reflexivity|].
  intros E job w bid.
  destruct (cleanup_old_backups_shape E job w) as (r & evs & s & n & -> & Hevs & _).
  cbn. split; [reflexivity|].
  rewrite status_history_app. cbn. rewrite Hevs, app_nil_r. reflexivity.
Qed.

(** ** Which statuses an attempt assigns *)

Lemma silent_ret {A} (a : A) : silent (ret a).
Proof. intros w. exists []. rewrite app_nil_r. split; reflexivity. Qed.

Lemma silent_raise {A} e : silent (@raise A e).
Proof. intros w. exists []. rewrite app_nil_r. split; reflexivity. Qed.

Lemma silent_lift {A} (o : outcome A) : silent (lift o).
Proof. intros w. exists []. rewrite app_nil_r. split; reflexivity. Qed.

Lemma silent_gets {A} (f : World -> A) : silent (gets f).
Proof. intros w. exists []. rewrite app_nil_r. split; reflexivity. Qed.

Lemma silent_modify f : (forall w, trace (f w) = trace w) -> silent (modify f).
Proof. intros Hf w. exists []. rewrite app_nil_r. cbn. split; [apply Hf | reflexivity]. Qed.

Lemma silent_utcnow E : silent (utcnow E).
Proof. intros w. exists []. rewrite app_nil_r. split; reflexivity. Qed.

Lemma silent_emit ev :
  (forall bid st, ev <> EvStatus bid st) -> silent (emit ev).
Proof.
  intros Hev w. exists [ev]. split; [reflexivity|]. intros bid.
  destruct ev; try reflexivity. exfalso. eapply Hev. reflexivity.
Qed.

Lemma silent_bind {A B} (m : M A) (k : A -> M B) :
  silent m -> (forall a, silent (k a)) -> silent (bind m k).
Proof.
  intros Hm Hk w. unfold bind. destruct (Hm w) as (evs & Ht & Hs).
  destruct (m w) as [[a|e] w1]; cbn in *.
  - destruct (Hk a w1) as (evs' & Ht' & Hs'). exists (evs ++ evs').
    rewrite Ht', Ht, app_assoc. split; [reflexivity|]. intros bid.
    rewrite status_history_app, Hs, Hs'. reflexivity.
  - exists evs. auto.
Qed.

Lemma silent_try_except {A} (m : M A) h :
  silent m -> (forall e, silent (h e)) -> silent (try_except m h).
Proof.
  intros Hm Hh w. unfold try_except. destruct (Hm w) as (evs & Ht & Hs).
  destruct (m w) as [[a|e] w1]; cbn in *; [exists evs; auto|].
  destruct (is_Exception e); [|exists evs; auto].
  destruct (Hh e w1) as (evs' & Ht' & Hs'). exists (evs ++ evs').
  rewrite Ht', Ht, app_assoc. split; [reflexivity|]. intros bid.
  rewrite status_history_app, Hs, Hs'. reflexivity.
Qed.

Lemma silent_try_finally {A} (m : M A) f :
  silent m -> silent f -> silent (try_finally m f).
Proof.
  intros Hm Hf w. unfold try_finally. destruct (Hm w) as (evs & Ht & Hs).
  destruct (m w) as [r w1]; cbn in *.
  destruct (Hf w1) as (evs' & Ht' & Hs').
  exists (evs ++ evs'). split.
  - destruct (f w1) as [[[]|e] w2]; cbn in *; rewrite Ht', Ht, app_assoc; reflexivity.
  - intros bid. rewrite status_history_app, Hs, Hs'. reflexivity.
Qed.

Lemma silent_for_each {A} (l : list A) body :
  (forall x, silent (body x)) -> silent (for_each l body).
Proof.
  intros Hb. induction l as [|x l IH]; cbn [for_each].
  - apply silent_ret.
  - apply silent_bind; auto.
Qed.

Lemma silent_swallow {A} (m : M A) : silent m -> silent (swallow m).
Proof. intros Hm w. exact (Hm w). Qed.

Create HintDb silent.
#[local] Hint Resolve silent_ret silent_raise silent_lift silent_gets
  silent_utcnow : silent.

Ltac silent_step :=
  match goal with
  | |- silent (bind _ _) => apply silent_bind; [|intros]
  | |- silent (try_except _ _) => apply silent_try_except; [|intros]
  | |- silent (try_finally _ _) => apply silent_try_finally
  | |- silent (for_each _ _) => apply silent_for_each; intros
  | |- silent (swallow _) => apply silent_swallow
  | |- silent (match ?x with _ => _ end) => destruct x
  | |- silent (modify _) => apply silent_modify; intros; reflexivity
  | |- silent (emit _) => apply silent_emit; intros; discriminate
  | |- silent _ => solve [auto with silent]
  end.

Ltac solve_silent := repeat silent_step.

Lemma silent_getattr {O A} attr (f : O -> A) o : silent (getattr attr f o).
Proof. unfold getattr. solve_silent. Qed.

Lemma silent_print msg : silent (print msg).
Proof. unfold print. solve_silent. Qed.

Lemma silent_call ev ans cls :
  (forall bid st, ev <> EvStatus bid st) -> silent (call ev ans cls).
Proof.
  intros Hev. unfold call. apply silent_bind; [apply silent_emit, Hev|].
  intros _. solve_silent.
Qed.

Lemma silent_setattr bid f : silent (setattr bid f).
Proof. unfold setattr. solve_silent. Qed.

Lemma silent_db_commit : silent db_commit.
Proof. unfold db_commit. solve_silent. Qed.

Lemma silent_db_close : silent db_close.
Proof. unfold db_close. solve_silent. Qed.

Lemma silent_query_job id : silent (query_job id).
Proof. unfold query_job. solve_silent. Qed.

Lemma silent_backup_job_rel bid : silent (backup_job_rel bid).
Proof. unfold backup_job_rel. solve_silent. Qed.

#[local] Hint Resolve silent_getattr silent_print silent_setattr silent_db_commit
  silent_db_close silent_query_job silent_backup_job_rel : silent.

Ltac silent_step ::=
  match goal with
  | |- silent (bind _ _) => apply silent_bind; [|intros]
  | |- silent (try_except _ _) => apply silent_try_except; [|intros]
  | |- silent (try_finally _ _) => apply silent_try_finally
  | |- silent (for_each _ _) => apply silent_for_each; intros
  | |- silent (swallow _) => apply silent_swallow
  | |- silent (call _ _ _) => apply silent_call; intros; discriminate
  | |- silent (match ?x with _ => _ end) => destruct x
  | |- silent (modify _) => apply silent_modify; intros; reflexivity
  | |- silent (emit _) => apply silent_emit; intros; discriminate
  | |- silent _ => solve [auto with silent]
  end.

Lemma silent_send_notification E m en pre bid :
  silent (send_notification E m en pre bid).
Proof. unfold send_notification, _send_email. solve_silent. Qed.

Lemma silent_cleanup_old_backups E job : silent (_cleanup_old_backups E job).
Proof.
  intros w.
  destruct (cleanup_old_backups_shape E job w) as (r & evs & s & n & -> & Hevs & _).
  eexists. split; [reflexivity|]. intros bid. cbn. apply Hevs.
Qed.

#[local] Hint Resolve silent_send_notification silent_cleanup_old_backups : silent.

Lemma seq_hist_intro L1 L2 h1 h2 :
  h1 ∈ L1 -> h2 ∈ L2 -> h1 ++ h2 ∈ seq_hist L1 L2.
Proof.
  intros H1 H2. unfold seq_hist. apply list_elem_of_In, in_flat_map.
  exists h1. split; [apply list_elem_of_In, H1|].
  apply in_map, list_elem_of_In, H2.
Qed.

Lemma emits_of_silent {A} bid L (m : M A) : silent m -> [] ∈ L -> emits bid L m.
Proof.
  intros Hm HL w. destruct (Hm w) as (evs & Ht & Hs). exists evs.
  split; [exact Ht|]. split; [intros k _; apply Hs|]. rewrite Hs. exact HL.
Qed.

Lemma emits_weaken {A} bid L L' (m : M A) :
  emits bid L m -> bool_decide (L ⊆ L') = true -> emits bid L' m.
Proof.
  intros Hm HL w. apply bool_decide_eq_true in HL.
  destruct (Hm w) as (evs & Ht & Hk & Hs). exists evs. auto.
Qed.

Lemma emits_assign_status bid st : emits bid [[st]] (assign_status bid st).
Proof.
  intros w. exists [EvStatus bid st]. split; [reflexivity|]. split.
  - intros k Hk. cbn. rewrite (proj2 (Z.eqb_neq bid k)) by congruence. reflexivity.
  - cbn. rewrite Z.eqb_refl. apply list_elem_of_here.
Qed.

Lemma emits_bind {A B} bid L1 L2 (m : M A) (k : A -> M B) :
  emits bid L1 m -> (forall a, emits bid L2 (k a)) ->
  emits bid (L1 ++ seq_hist L1 L2) (bind m k).
Proof.
  intros Hm Hk w. unfold bind. destruct (Hm w) as (evs & Ht & Ho & Hs).
  destruct (m w) as [[a|e] w1]; cbn in *.
  - destruct (Hk a w1) as (evs' & Ht' & Ho' & Hs'). exists (evs ++ evs').
    rewrite Ht', Ht, app_assoc. split; [reflexivity|]. split.
    + intros j Hj. rewrite status_history_app, Ho, Ho' by exact Hj. reflexivity.
    + rewrite status_history_app. apply elem_of_app. right.
      apply seq_hist_intro; assumption.
  - exists evs. split; [exact Ht|]. split; [exact Ho|].
    apply elem_of_app. left. exact Hs.
Qed.

Lemma emits_try_except {A} bid L1 L2 (m : M A) h :
  emits bid L1 m -> (forall e, emits bid L2 (h e)) ->
  emits bid (L1 ++ seq_hist L1 L2) (try_except m h).
Proof.
  intros Hm Hh w. unfold try_except. destruct (Hm w) as (evs & Ht & Ho & Hs).
  destruct (m w) as [[a|e] w1]; cbn in *.
  - exists evs. split; [exact Ht|]. split; [exact Ho|].
    apply elem_of_app. left. exact Hs.
  - destruct (is_Exception e).
    + destruct (Hh e w1) as (evs' & Ht' & Ho' & Hs'). exists (evs ++ evs').
      rewrite Ht', Ht, app_assoc. split; [reflexivity|]. split.
      * intros j Hj. rewrite status_history_app, Ho, Ho' by exact Hj. reflexivity.
      * rewrite status_history_app. apply elem_of_app. right.
        apply seq_hist_intro; assumption.
    + exists evs. split; [exact Ht|]. split; [exact Ho|].
      apply elem_of_app. left. exact Hs.
Qed.

Lemma emits_try_finally {A} bid L1 L2 (m : M A) f :
  emits bid L1 m -> emits bid L2 f -> emits bid (seq_hist L1 L2) (try_finally m f).
Proof.
  intros Hm Hf w. unfold try_finally. destruct (Hm w) as (evs & Ht & Ho & Hs).
  destruct (m w) as [r w1]; cbn in *.
  destruct (Hf w1) as (evs' & Ht' & Ho' & Hs').
  exists (evs ++ evs'). split; [|split].
  - destruct (f w1) as [[[]|e] w2]; cbn in *; rewrite Ht', Ht, app_assoc; reflexivity.
  - intros j Hj. rewrite status_history_app, Ho, Ho' by exact Hj. reflexivity.
  - rewrite status_history_app. apply seq_hist_intro; assumption.
Qed.

Lemma emits_bind_silent_l {A B} bid L (m : M A) (k : A -> M B) :
  silent m -> (forall a, emits bid L (k a)) -> bool_decide ([] ∈ L) = true ->
  emits bid L (bind m k).
Proof.
  intros Hm Hk HL w. apply bool_decide_eq_true in HL.
  unfold bind. destruct (Hm w) as (evs & Ht & Hs).
  destruct (m w) as [[a|e] w1]; cbn in *.
  - destruct (Hk a w1) as (evs' & Ht' & Ho' & Hs'). exists (evs ++ evs').
    rewrite Ht', Ht, app_assoc. split; [reflexivity|]. split.
    + intros j Hj. rewrite status_history_app, Hs, Ho' by exact Hj. reflexivity.
    + rewrite status_history_app, Hs. exact Hs'.
  - exists evs. split; [exact Ht|]. split; [intros j _; apply Hs|].
    rewrite Hs. exact HL.
Qed.

Lemma emits_bind_silent_r {A B} bid L (m : M A) (k : A -> M B) :
  emits bid L m -> (forall a, silent (k a)) -> emits bid L (bind m k).
Proof.
  intros Hm Hk w. unfold bind. destruct (Hm w) as (evs & Ht & Ho & Hs).
  destruct (m w) as [[a|e] w1]; cbn in *.
  - destruct (Hk a w1) as (evs' & Ht' & Hs'). exists (evs ++ evs').
    rewrite Ht', Ht, app_assoc. split; [reflexivity|]. split.
    + intros j Hj. rewrite status_history_app, Ho, Hs' by exact Hj. reflexivity.
    + rewrite status_history_app, Hs', app_nil_r. exact Hs.
  - exists evs. auto.
Qed.

Lemma emits_handle_backup_error E bid msg :
  emits bid [[FAILED]] (_handle_backup_error E bid msg).
Proof.
  unfold _handle_backup_error, send_backup_failure_notification.
  apply emits_bind_silent_r; [apply emits_assign_status|].
  intros _. solve_silent.
Qed.

Lemma emits_perform_backup E bid :
  emits bid [ [IN_PROGRESS]; [IN_PROGRESS; COMPLETED]; [IN_PROGRESS; FAILED];
              [IN_PROGRESS; COMPLETED; FAILED] ]
        (_perform_backup E bid).
Proof.
  unfold _perform_backup, _get_sql_connection, send_backup_success_notification.
  eapply emits_weaken.
  - eapply emits_bind; [apply emits_assign_status|]. intros _.
    apply (emits_bind_silent_l bid [[]; [COMPLETED]; [FAILED]; [COMPLETED; FAILED]]);
      [solve_silent | | reflexivity].
    intros _.
    apply (emits_try_finally bid [[]; [COMPLETED]; [FAILED]; [COMPLETED; FAILED]] [[]]);
      [|apply emits_of_silent; [solve_silent | apply list_elem_of_here]].
    apply (emits_try_except bid [[]; [COMPLETED]] [[FAILED]]).
    + apply emits_bind_silent_l; [solve_silent | | reflexivity].
      intros [backup_job|].
      2:{ apply emits_of_silent; [solve_silent | apply list_elem_of_here]. }
      repeat (apply emits_bind_silent_l;
              [solve [solve_silent] | intros | reflexivity]).
      eapply emits_weaken; [|instantiate (1 := [[COMPLETED]]); reflexivity].
      apply emits_bind_silent_r; [apply emits_assign_status|].
      intros _. solve_silent.
    + intros e. apply emits_bind_silent_r; [apply emits_handle_backup_error|].
      intros _. apply silent_raise.
  - vm_compute. reflexivity.
Qed.

Lemma attempt_of_silent {A} (m : M A) : silent m -> attempt m.
Proof.
  intros Hm w. destruct (Hm w) as (evs & Ht & Hs). exists evs.
  split; [exact Ht|]. split; [intros k _; apply Hs|]. rewrite Hs. reflexivity.
Qed.

Lemma attempt_bind_silent_r {A B} (m : M A) (k : A -> M B) :
  attempt m -> (forall a, silent (k a)) -> attempt (bind m k).
Proof.
  intros Hm Hk w. unfold bind. destruct (Hm w) as (evs & Ht & Ho & Hs).
  destruct (m w) as [[a|e] w1]; cbn in *.
  - destruct (Hk a w1) as (evs' & Ht' & Hs'). exists (evs ++ evs').
    rewrite Ht', Ht, app_assoc. split; [reflexivity|]. split.
    + intros j Hj. rewrite status_history_app, Ho, Hs' by exact Hj. reflexivity.
    + rewrite status_history_app, Hs', app_nil_r. exact Hs.
  - exists evs. auto.
Qed.

Lemma attempt_try_except_silent {A} (m : M A) h :
  attempt m -> (forall e, silent (h e)) -> attempt (try_except m h).
Proof.
  intros Hm Hh w. unfold try_except. destruct (Hm w) as (evs & Ht & Ho & Hs).
  destruct (m w) as [[a|e] w1]; cbn in *; [exists evs; auto|].
  destruct (is_Exception e); [|exists evs; auto].
  destruct (Hh e w1) as (evs' & Ht' & Hs'). exists (evs ++ evs').
  rewrite Ht', Ht, app_assoc. split; [reflexivity|]. split.
  - intros j Hj. rewrite status_history_app, Ho, Hs' by exact Hj. reflexivity.
  - rewrite status_history_app, Hs', app_nil_r. exact Hs.
Qed.

Lemma attempt_try_finally_silent {A} (m : M A) f :
  attempt m -> silent f -> attempt (try_finally m f).
Proof.
  intros Hm Hf w. unfold try_finally. destruct (Hm w) as (evs & Ht & Ho & Hs).
  destruct (m w) as [r w1]; cbn in *.
  destruct (Hf w1) as (evs' & Ht' & Hs').
  exists (evs ++ evs'). split; [|split].
  - destruct (f w1) as [[[]|e] w2]; cbn in *; rewrite Ht', Ht, app_assoc; reflexivity.
  - intros j Hj. rewrite status_history_app, Ho, Hs' by exact Hj. reflexivity.
  - rewrite status_history_app, Hs', app_nil_r. exact Hs.
Qed.

Lemma attempt_bind_silent_l {A B} (m : M A) (k : A -> M B) :
  silent m -> (forall w, backups (m w).2 = backups w) ->
  (forall a, attempt (k a)) -> attempt (bind m k).
Proof.
  intros Hm Hb Hk w. unfold bind. destruct (Hm w) as (evs & Ht & Hs).
  specialize (Hb w).
  destruct (m w) as [[a|e] w1]; cbn in *.
  - destruct (Hk a w1) as (evs' & Ht' & Ho' & Hs'). rewrite Hb in Ho', Hs'.
    exists (evs ++ evs'). rewrite Ht', Ht, app_assoc. split; [reflexivity|]. split.
    + intros j Hj. rewrite status_history_app, Hs, Ho' by exact Hj. reflexivity.
    + rewrite status_history_app, Hs. exact Hs'.
  - exists evs. split; [exact Ht|]. split; [intros j _; apply Hs|].
    rewrite Hs. reflexivity.
Qed.

Lemma attempt_swallow {A} (m : M A) : attempt m -> attempt (swallow m).
Proof. intros Hm w. exact (Hm w). Qed.

(** One attempt: Pending at the insert, then what [_perform_backup] and
    the handler of [create_backup] assign. *)
Lemma attempt_create_backup E j : attempt (create_backup E j).
Proof.
  intros w. unfold create_backup, bind at 1, query_job, bind at 1, gets at 1, ret at 1.
  destruct (List.find _ (backup_jobs w)) as [job|].
  2:{ exists []. rewrite app_nil_r. cbn. auto. }
  unfold bind at 1, utcnow at 1.
  unfold bind at 1, db_add_commit, bind at 1, utcnow at 1.
  unfold bind at 1, gets at 1. unfold bind at 1, modify at 1.
  unfold bind at 1, emit at 1, modify at 1. unfold ret at 1.
  cbn [backups with_reads with_backups with_session with_trace trace reads session].
  set (bid := next_backup_id (backups w)).
  match goal with |- context [try_except ?m ?h ?w1] =>
    assert (Hrun : emits bid
              ([ [IN_PROGRESS]; [IN_PROGRESS; COMPLETED]; [IN_PROGRESS; FAILED];
                 [IN_PROGRESS; COMPLETED; FAILED] ]
               ++ seq_hist [ [IN_PROGRESS]; [IN_PROGRESS; COMPLETED];
                             [IN_PROGRESS; FAILED];
                             [IN_PROGRESS; COMPLETED; FAILED] ] [[FAILED]])
              (try_except m h));
    [|destruct (Hrun w1) as (evs & Ht & Ho & Hs); exists (EvStatus bid PENDING :: evs)]
  end.
  { apply emits_try_except.
    - apply emits_bind_silent_r; [apply emits_perform_backup | intros; apply silent_ret].
    - intros e. apply emits_bind_silent_r; [apply emits_handle_backup_error|].
      intros _. apply silent_raise. }
  split; [|split].
  - rewrite Ht. cbn [trace with_trace]. rewrite <- app_assoc. reflexivity.
  - intros k Hk. cbn. rewrite (proj2 (Z.eqb_neq bid k)) by congruence. apply Ho, Hk.
  - cbn [status_history]. rewrite Z.eqb_refl.
    revert Hs. generalize (status_history bid evs). intros h Hh.
    assert (Hall : Forall (fun h => lifecycle (PENDING :: h) = true)
              ([ [IN_PROGRESS]; [IN_PROGRESS; COMPLETED]; [IN_PROGRESS; FAILED];
                 [IN_PROGRESS; COMPLETED; FAILED] ]
               ++ seq_hist [ [IN_PROGRESS]; [IN_PROGRESS; COMPLETED];
                             [IN_PROGRESS; FAILED];
                             [IN_PROGRESS; COMPLETED; FAILED] ] [[FAILED]]))
      by (cbn; repeat constructor).
    rewrite Forall_forall in Hall. apply Hall, Hh.
Qed.

Lemma silent_get_next_run_time E job d : silent (_get_next_run_time E job d).
Proof. unfold _get_next_run_time. solve_silent. Qed.

Lemma silent_schedule_job E job : silent (_schedule_job E job).
Proof.
  unfold _schedule_job, create_task.
  apply silent_bind; [destruct (frequency job); apply silent_get_next_run_time|].
  intros t. solve_silent.
Qed.

Lemma silent_cancel_and_del j : silent (cancel_and_del j).
Proof. unfold cancel_and_del, task_cancel. solve_silent. Qed.

#[local] Hint Resolve silent_schedule_job silent_cancel_and_del : silent.

Lemma silent_schedule_pending_jobs E : silent (_schedule_pending_jobs E).
Proof. unfold _schedule_pending_jobs, schedule_unless_running. solve_silent. Qed.

Lemma silent_reschedule_job E j : silent (reschedule_job E j).
Proof. unfold reschedule_job. solve_silent. Qed.

Lemma silent_resume_job E j : silent (resume_job E j).
Proof. unfold resume_job. solve_silent. Qed.

Lemma silent_run_backup_finally j : silent (_run_backup_finally j).
Proof. unfold _run_backup_finally. solve_silent. Qed.

Lemma attempt_run_backup E j : attempt (_run_backup E j).
Proof.
  unfold _run_backup.
  apply attempt_bind_silent_l; [apply silent_db_close | reflexivity |]. intros _.
  apply attempt_try_finally_silent; [|apply silent_run_backup_finally].
  apply attempt_try_except_silent; [|intros; apply silent_print].
  apply attempt_bind_silent_r; [apply attempt_create_backup | intros; apply silent_ret].
Qed.

Lemma attempt_run_task E tid : attempt (run_task E tid).
Proof.
  unfold run_task, mark_done.
  apply attempt_bind_silent_l; [apply silent_gets | reflexivity |]. intros ts.
  destruct (ts !! tid) as [t|]; [|apply attempt_of_silent, silent_ret].
  destruct (task_done t); [apply attempt_of_silent, silent_ret|].
  destruct (cancel_requested t); [apply attempt_of_silent; solve_silent|].
  apply attempt_bind_silent_r; [apply attempt_swallow, attempt_run_backup|].
  intros _. solve_silent.
Qed.

Lemma attempt_run_backup_job E j : attempt (run_backup_job E j).
Proof.
  unfold run_backup_job, BackupService_getattr.
  apply attempt_bind_silent_l; [apply silent_db_close | reflexivity |]. intros _.
  apply attempt_try_finally_silent; [|apply silent_db_close].
  apply attempt_try_except_silent; [|intros; apply silent_raise].
  apply attempt_bind_silent_r; [apply attempt_create_backup|].
  intros bid. solve_silent.
Qed.

Lemma attempt_perform E a : attempt (perform E a).
Proof.
  destruct a; cbn [perform].
  - apply attempt_of_silent, silent_schedule_pending_jobs.
  - apply attempt_of_silent, silent_reschedule_job.
  - apply attempt_of_silent, silent_cancel_and_del.
  - apply attempt_of_silent, silent_resume_job.
  - apply attempt_run_task.
  - apply attempt_of_silent, silent_run_backup_finally.
  - apply attempt_swallow, attempt_run_backup_job.
Qed.

Lemma next_backup_id_fresh rows b : b ∈ rows -> backup_id b < next_backup_id rows.
Proof.
  unfold next_backup_id. induction rows as [|r rows IH]; intros Hin; [inversion Hin|].
  apply elem_of_cons in Hin as [->|Hin]; cbn; [lia|].
  specialize (IH Hin). lia.
Qed.

Lemma chain_terminal s h :
  chain s h = true -> terminal s = true -> Forall (fun s' => s' = FAILED) h.
Proof.
  revert s. induction h as [|s' h IH]; intros s Hc Ht; [constructor|].
  cbn in Hc. apply andb_true_iff in Hc as [Hf Hc].
  assert (s' = FAILED) as -> by (destruct s, s'; try discriminate; reflexivity).
  constructor; [reflexivity|]. apply (IH FAILED Hc). reflexivity.
Qed.

Lemma chain_absorbing s0 h i j s s' :
  chain s0 h = true -> (i < j)%nat -> h !! i = Some s -> h !! j = Some s' ->
  terminal s = true -> s' = FAILED.
Proof.
  revert s0 i j. induction h as [|x h IH]; intros s0 i j Hc Hij Hi Hj Ht;
    [inversion Hi|].
  cbn in Hc. apply andb_true_iff in Hc as [_ Hc].
  destruct j as [|j]; [lia|]. cbn in Hj. destruct i as [|i].
  - cbn in Hi. injection Hi as ->.
    pose proof (chain_terminal s h Hc Ht) as Hall.
    rewrite Forall_forall in Hall. apply Hall.
    apply list_elem_of_lookup. eauto.
  - cbn in Hi. apply (IH x i j Hc); [lia | assumption..].
Qed.

Lemma lifecycle_absorbing h i j s s' :
  lifecycle h = true -> (i < j)%nat -> h !! i = Some s -> h !! j = Some s' ->
  terminal s = true -> s' = FAILED.
Proof.
  destruct h as [|x h]; intros Hl Hij Hi Hj Ht; [inversion Hi|].
  cbn in Hl. apply andb_true_iff in Hl as [Hp Hc]. apply bool_decide_eq_true in Hp.
  subst x. destruct j as [|j]; [lia|]. destruct i as [|i].
  - cbn in Hi. injection Hi as <-. discriminate.
  - cbn in Hi, Hj. apply (chain_absorbing PENDING h i j s s' Hc); [lia | assumption..].
Qed.

(** The assignments to the objects of the session, which a commit may or
    may not come to record: no operation of the scheduler, the executor,
    the sweep or the manual run assigns a status to a record that is in the
    table when it starts; the object that an attempt inserts is assigned
    Pending, then InProgress, then possibly Completed, then Failed any
    number of times. *)
Theorem assignments_follow_the_lifecycle E a w :
  exists evs,
    trace (perform E a w).2 = trace w ++ evs
    /\ (forall b, b ∈ backups w -> status_history (backup_id b) evs = [])
    /\ lifecycle (status_history (next_backup_id (backups w)) evs) = true
    /\ (forall i j s s',
          (i < j)%nat ->
          status_history (next_backup_id (backups w)) evs !! i = Some s ->
          status_history (next_backup_id (backups w)) evs !! j = Some s' ->
          terminal s = true -> s' = FAILED).
Proof.
  destruct (attempt_perform E a w) as (evs & Ht & Ho & Hs).
  exists evs. split; [exact Ht|]. split; [|split; [exact Hs|]].
  - intros b Hb. apply Ho. pose proof (next_backup_id_fresh _ _ Hb). lia.
  - intros i j s s'. apply lifecycle_absorbing, Hs.
Qed.

(** With a retention window that reaches before the year 1 the sweep
    raises after the object was set to Completed, and the error handling
    sets it to Failed before anything is committed: the table has the
    record Pending, InProgress and then Failed. *)
Lemma completed_in_memory_is_recorded_failed :
  (create_backup calm 1 hoard).1
    = Raise (Exception "OverflowError" "date value out of range")
  /\ status_history 2 (trace (create_backup calm 1 hoard).2)
     = [PENDING; IN_PROGRESS; COMPLETED; FAILED; FAILED]
  /\ map (map status) (journal (create_backup calm 1 hoard).2)
     = [ [COMPLETED; PENDING]; [COMPLETED; IN_PROGRESS]; [COMPLETED; FAILED];
         [COMPLETED; FAILED]; [COMPLETED; FAILED] ].
Proof. vm_compute. repeat split; reflexivity. Qed.

(** ** The manual run *)

Lemma create_backup_inserts E j w job :
  List.find (fun job => job_id job =? j) (backup_jobs w) = Some job ->
  exists evs,
    trace (create_backup E j w).2
    = trace w ++ EvStatus (next_backup_id (backups w)) PENDING :: evs.
Proof.
  intros Hfind.
  unfold create_backup, bind at 1, query_job, bind at 1, gets at 1, ret at 1.
  rewrite Hfind.
  unfold bind at 1, utcnow at 1.
  unfold bind at 1, db_add_commit, bind at 1, utcnow at 1.
  unfold bind at 1, gets at 1. unfold bind at 1, modify at 1.
  unfold bind at 1, emit at 1, modify at 1. unfold ret at 1.
  cbn [backups with_reads with_backups with_session with_trace trace reads session].
  match goal with |- context [try_except ?m ?h ?w1] =>
    destruct (emits_try_except (next_backup_id (backups w))
                [ [IN_PROGRESS]; [IN_PROGRESS; COMPLETED]; [IN_PROGRESS; FAILED];
                  [IN_PROGRESS; COMPLETED; FAILED] ] [[FAILED]] m h
                ltac:(apply emits_bind_silent_r;
                      [apply emits_perform_backup | intros; apply silent_ret])
                ltac:(intros e; apply emits_bind_silent_r;
                      [apply emits_handle_backup_error | intros; apply silent_raise])
                w1) as (evs & Ht & _)
  end.
  exists evs. rewrite Ht. cbn [trace with_trace].
  rewrite <- app_assoc. reflexivity.
Qed.

Lemma run_backup_job_eq E j w :
  run_backup_job E j w =
    match create_backup E j (with_session ∅ w) with
    | (Return bid, w1) =>
        (Raise (HTTPException 400
                  "'BackupService' object has no attribute 'execute_backup'"),
         with_session ∅ w1)
    | (Raise e, w1) =>
        (Raise (if is_Exception e then HTTPException 400 (str e) else e),
         with_session ∅ w1)
    end.
Proof.
  unfold run_backup_job, bind at 1, db_close at 1, modify at 1.
  unfold try_finally, try_except, bind at 1.
  destruct (create_backup E j (with_session ∅ w)) as [[bid|e] w1]; cbn.
  - reflexivity.
  - destruct (is_Exception e); reflexivity.
Qed.

(** C8 (as the code has it): a manual run never looks at the in-flight map
    and never changes it: whatever the map holds, run_backup_job calls
    create_backup, which inserts a Pending Backup for an existing job and
    goes on with the attempt; the only failure the caller is given is HTTP
    400 with the text of the exception. *)
Theorem manual_run_bypasses_the_in_flight_map E j w :
  (forall rj ts,
     run_backup_job E j (frame rj ts w)
     = ((run_backup_job E j w).1, frame rj ts (run_backup_job E j w).2))
  /\ running_jobs (run_backup_job E j w).2 = running_jobs w
  /\ tasks (run_backup_job E j w).2 = tasks w
  /\ (is_Some (List.find (fun job => job_id job =? j) (backup_jobs w)) ->
      exists evs,
        trace (run_backup_job E j w).2
        = trace w ++ EvStatus (next_backup_id (backups w)) PENDING :: evs)
  /\ (forall e, (run_backup_job E j w).1 = Raise e ->
        e = CancelledError \/ exists detail, e = HTTPException 400 detail).
Proof.
  split; [intros rj ts; apply blind_run_backup_job|].
  destruct (blind_preserves (run_backup_job E j) w (blind_run_backup_job E j))
    as [Hrj Hts].
  split; [exact Hrj|]. split; [exact Hts|]. split.
  - intros [job Hfind].
    destruct (create_backup_inserts E j (with_session ∅ w) job Hfind) as [evs Hevs].
    exists evs. rewrite run_backup_job_eq.
    destruct (create_backup E j (with_session ∅ w)) as [[bid|e] w1]; exact Hevs.
  - intros e. rewrite run_backup_job_eq.
    destruct (create_backup E j (with_session ∅ w)) as [[bid|e0] w1]; cbn.
    + intros [= <-]. right. eauto.
    + intros [= <-]. destruct e0; cbn; eauto.
Qed.

(** C8 (as the claim has it) fails: job 1 has an execution in flight, and a
    manual run for it goes through a whole second attempt; the caller gets
    HTTP 400 for the missing execute_backup, not a concurrency conflict,
    and a second manual run goes through a third attempt. *)
Lemma manual_run_starts_a_second_execution :
  let first := run_backup_job calm 1 busy in
  let second := run_backup_job calm 1 first.2 in
  running_jobs busy !! 1 = Some 0%nat
  /\ tasks busy !! 0%nat = Some (mkTask 1 false false)
  /\ first.1 = Raise (HTTPException 400
                        "'BackupService' object has no attribute 'execute_backup'")
  /\ status_history 2 (trace first.2) = [PENDING; IN_PROGRESS; COMPLETED]
  /\ running_jobs first.2 !! 1 = Some 0%nat
  /\ status_history 3 (trace second.2) = [PENDING; IN_PROGRESS; COMPLETED]
  /\ map (fun b => (backup_id b, backup_job_id b, status b)) (backups second.2)
     = [(1, 1, COMPLETED); (2, 1, COMPLETED); (3, 1, COMPLETED)].
Proof. vm_compute. repeat split; reflexivity. Qed.

(** ** One attempt, step by step *)

(** Evaluation of the monad's operations and of the record updates, and of
    nothing else. *)
Ltac run :=
  cbv beta iota zeta delta
    [bind ret raise lift gets modify emit print call utcnow getattr swallow
     try_except try_finally is_Exception
     query_job db_add_commit db_commit db_close setattr assign_status
     backup_job_rel _get_sql_connection
     set_status set_file_path set_file_size set_cloud_storage_path
     set_completed_at set_error_message
     backup_id backup_job_id status file_path file_size cloud_storage_path
     started_at completed_at error_message created_at
     with_reads with_backups with_session with_trace with_running_jobs with_tasks
     with_journal
     reads backup_jobs backups notification_settings session trace running_jobs tasks
     journal
     fst snd].

Lemma flush_last s rows b0 :
  flush s (rows ++ [b0]) = flush s rows ++ [default b0 (s !! backup_id b0)].
Proof. unfold flush. rewrite map_app. reflexivity. Qed.

Lemma length_flush s rows : length (flush s rows) = length rows.
Proof. unfold flush. apply length_map. Qed.

Lemma cleanup_events_effects E l :
  forallb is_effect (concat (map (cleanup_events E) l)) = true.
Proof.
  induction l as [|b l IH]; [reflexivity|]. cbn [map concat].
  rewrite forallb_app, IH, andb_true_r. unfold cleanup_events.
  repeat case_match; reflexivity.
Qed.

(** A notification about a Backup whose job has its database: the method
    is entered, at most one mail goes out, and nothing is raised but the
    cancellation of the task. *)
Lemma send_notification_outcome E method enabled prefix bid w b job d :
  session w !! bid = Some b ->
  List.find (fun j => job_id j =? backup_job_id b) (backup_jobs w) = Some job ->
  database job = Some d ->
  exists r mail,
    send_notification E method enabled prefix bid w
    = (r, with_trace (trace w ++ EvCall method bid :: mail) w)
    /\ (r = Return tt \/ r = Raise CancelledError)
    /\ forallb is_effect mail = true.
Proof.
  intros Hb Hjob Hd. destruct w as [r jobs rows ns s tr rj ts jn].
  destruct b as [b1 b2 b3 b4 b5 b6 b7 b8 b9 b10]. cbn in Hb, Hjob.
  unfold send_notification, _send_email. run. rewrite Hb. run. rewrite Hjob. run.
  destruct (user job) as [u|].
  2:{ exists (Return tt), []. auto. }
  run. destruct (List.find _ ns) as [st|].
  2:{ exists (Return tt), []. auto. }
  destruct (enabled st); cbn [negb].
  2:{ exists (Return tt), []. auto. }
  run. rewrite Hd. run.
  destruct (smtp_send E (email u) (prefix +:+ db_name d));
    run; rewrite <- ?app_assoc; eexists _, _;
    (split; [reflexivity|]); split; auto.
Qed.

(** C2 (as the code has it): when connecting, the backup command, reading
    the file and the upload succeed, the size of the file can be read and
    the cutoff of the sweep is a date, the executor sets the Backup to
    Completed and records local path, remote path, size and completed_at,
    then calls the sweep for the job and then the success notification, and
    commits the record; the job's row, last_run included, is as it was. *)
Theorem successful_attempt_is_recorded E j w job d size :
  session w = ∅ ->
  List.find (fun job => job_id job =? j) (backup_jobs w) = Some job ->
  database job = Some d ->
  let bid := next_backup_id (backups w) in
  let filename :=
    "backup_" +:+ db_name d +:+ "_" +:+ strftime E (clock E (2 + reads w)%nat)
    +:+ ".bak" in
  let local_path := os_path_join (BACKUP_STORAGE_PATH E) filename in
  let cloud_path := "/" +:+ db_name d +:+ "/" +:+ filename in
  let backup_cmd := _create_backup_command (db_name d) local_path (backup_type job) in
  pyodbc_connect E (connection_string d) = None ->
  cursor_execute E backup_cmd = None ->
  open_read E local_path = None ->
  files_upload E cloud_path = None ->
  getsize E local_path = inr size ->
  Z.abs (retention_days job) <= timedelta_max_days ->
  0 <= clock E (4 + reads w)%nat - retention_days job * MICROSECONDS_PER_DAY
    <= datetime_max ->
  let done :=
    mkBackup bid j COMPLETED (Some local_path) (Some size) (Some cloud_path)
             (Some (clock E (reads w))) (Some (clock E (3 + reads w)%nat)) None
             (clock E (1 + reads w)%nat) in
  exists r w' sweep mail rows,
    create_backup E j w = (r, w')
    /\ (r = Return bid \/ r = Raise CancelledError)
    /\ trace w' =
         trace w
         ++ [ EvStatus bid PENDING; EvStatus bid IN_PROGRESS;
              EvConnect (connection_string d); EvExecute backup_cmd;
              EvUpload cloud_path; EvStatus bid COMPLETED;
              EvCall "_cleanup_old_backups" j ]
         ++ sweep ++ EvCall "send_backup_success_notification" bid :: mail
    /\ forallb is_effect sweep = true /\ forallb is_effect mail = true
    /\ session w' !! bid = Some done
    /\ backups w' = rows ++ [done] /\ length rows = length (backups w)
    /\ backup_jobs w' = backup_jobs w.
Proof.
  intros Hs Hfind Hd bid filename local_path cloud_path backup_cmd
         Hconn Hexec Hopen Hup Hsize Hdays Hcut done.
  assert (Hj : job_id job = j)
    by (apply find_some in Hfind as [_ H]; apply Z.eqb_eq in H; exact H).
  destruct w as [r jobs rows ns s tr rj ts jn]. cbn in Hs, Hfind, Hcut. subst s.
  subst done backup_cmd cloud_path local_path filename bid.
  cbn [backups reads trace backup_jobs Nat.add] in *.
  unfold create_backup. run. rewrite Hfind. run.
  unfold _perform_backup. run.
  rewrite !alter_insert_eq, lookup_insert_eq. run. rewrite Hfind. run.
  rewrite Hd. run. rewrite Hconn. run. rewrite Hexec. run. rewrite Hopen. run.
  rewrite Hup. run. rewrite Hsize. run. rewrite !alter_insert_eq. run.
  match goal with |- context [_cleanup_old_backups E job ?W] =>
    rewrite (cleanup_old_backups_eq E job W Hdays Hcut)
  end.
  run. unfold send_backup_success_notification.
  match goal with |- context [send_notification E ?m ?en ?pre ?k ?W] =>
    eassert (Hlk : session W !! k = Some _)
      by (cbn [session]; apply load_keeps, lookup_insert_eq);
    destruct (send_notification_outcome E m en pre k W _ job d Hlk Hfind Hd)
      as (r0 & mail & Heq & Hr & Hmail);
    rewrite Heq; clear Heq Hlk
  end.
  rewrite !flush_last, lookup_insert_eq. cbn [default from_option id].
  destruct Hr as [-> | ->]; run; rewrite flush_last;
    match goal with |- context [load ?sel ?s0 !! ?k] =>
      rewrite (load_keeps sel s0 k _ (lookup_insert_eq _ _ _))
    end; cbn [default from_option id];
    match goal with |- context [concat (map (cleanup_events E) ?l)] =>
      eexists _, _, (concat (map (cleanup_events E) l)), mail, _
    end;
    (split; [reflexivity|]); (split; [auto|]);
    (split; [cbn [trace]; rewrite Hj, <- !app_assoc; reflexivity|]);
    (split; [apply cleanup_events_effects|]);
    (split; [exact Hmail|]);
    (split; [apply load_keeps, lookup_insert_eq|]);
    (split; [reflexivity|]);
    (split; [rewrite !length_flush; reflexivity | reflexivity]).
Qed.

Lemma successful_attempt_is_recorded_witness :
  exists r w',
    create_backup calm 1 quiet = (r, w')
    /\ (r = Return 2 \/ r = Raise CancelledError).
Proof.
  destruct (successful_attempt_is_recorded calm 1 quiet nightly sales 1024)
    as (r & w' & sweep & mail & rows & Hrun & Hr & _);
    try reflexivity.
  - vm_compute. discriminate.
  - vm_compute. split; discriminate.
  - exists r, w'. split; [exact Hrun | exact Hr].
Defined.

(** C2 (as the claim has it) fails: the attempt succeeds and the job's
    last_run is still unset; nothing in the executor assigns it. *)
Lemma successful_attempt_leaves_last_run_unset :
  (create_backup calm 1 quiet).1 = Return 2
  /\ map status (backups (create_backup calm 1 quiet).2) = [COMPLETED; COMPLETED]
  /\ backup_jobs (create_backup calm 1 quiet).2 = [nightly]
  /\ last_run nightly = None.
Proof. vm_compute. repeat split; reflexivity. Qed.

(** The error handler for a Backup whose job has its database: the record
    is set to Failed with the message and the time, committed, and the
    failure notification is entered. *)
Lemma handle_backup_error_outcome E bid msg w b s0 job d :
  session w = <[bid := b]> s0 ->
  List.find (fun j => job_id j =? backup_job_id b) (backup_jobs w) = Some job ->
  database job = Some d ->
  let b' := set_completed_at (Some (clock E (reads w)))
              (set_error_message (Some msg) (set_status FAILED b)) in
  exists r mail,
    _handle_backup_error E bid msg w
    = (r, mkWorld (S (reads w)) (backup_jobs w)
            (flush (<[bid := b']> s0) (backups w)) (notification_settings w)
            (<[bid := b']> s0)
            (trace w ++ EvStatus bid FAILED
               :: EvCall "send_backup_failure_notification" bid :: mail)
            (running_jobs w) (tasks w)
            (journal w ++ [flush (<[bid := b']> s0) (backups w)]))
    /\ (r = Return tt \/ r = Raise CancelledError)
    /\ forallb is_effect mail = true.
Proof.
  intros Hs Hjob Hd b'. subst b'.
  destruct w as [r jobs rows ns s tr rj ts jn].
  destruct b as [b1 b2 b3 b4 b5 b6 b7 b8 b9 b10]. cbn in Hs, Hjob. subst s.
  unfold _handle_backup_error, send_backup_failure_notification. run.
  rewrite !alter_insert_eq. run.
  match goal with |- context [send_notification E ?m ?en ?pre ?k ?W] =>
    eassert (Hlk : session W !! k = Some _) by (cbn [session]; apply lookup_insert_eq);
    destruct (send_notification_outcome E m en pre k W _ job d Hlk Hjob Hd)
      as (r0 & mail & Heq & Hr & Hmail);
    rewrite Heq; clear Heq Hlk
  end.
  run. rewrite <- !app_assoc. exists r0, mail.
  split; [reflexivity|]. split; assumption.
Qed.

(** ** A failing attempt *)

Lemma run_backup_result E j w :
  (_run_backup E j w).1 =
    match (create_backup E j (with_session ∅ w)).1 with
    | Return _ => Return tt
    | Raise e => if is_Exception e then Return tt else Raise e
    end.
Proof.
  unfold _run_backup, bind at 1, db_close at 1, modify at 1.
  unfold try_finally, try_except, bind at 1.
  destruct (create_backup E j (with_session ∅ w)) as [[bid|e] w1]; cbn [fst].
  - unfold ret. rewrite run_backup_finally_eq. reflexivity.
  - destruct (is_Exception e).
    + unfold print, emit, modify. rewrite run_backup_finally_eq. reflexivity.
    + rewrite run_backup_finally_eq. reflexivity.
Qed.

Ltac handle job d Hfind Hd :=
  match goal with
  | |- context [_handle_backup_error ?E ?k ?m ?W] =>
      let Hs := fresh "Hs" in
      let r := fresh "r" in
      let mail := fresh "mail" in
      let Heq := fresh "Heq" in
      let Hr := fresh "Hr" in
      let Hm := fresh "Hm" in
      eassert (Hs : session W = <[k := _]> _) by reflexivity;
      destruct (handle_backup_error_outcome E k m W _ _ job d Hs Hfind Hd)
        as (r & mail & Heq & Hr & Hm);
      rewrite Heq; clear Heq Hs; destruct Hr as [-> | ->]; run
  end.

(** C6 (as the code has it): when an adapter call of an attempt raises,
    the executor sets the Backup to Failed with the message of the
    exception and the time, commits it and enters the failure notification;
    create_backup then raises the exception again to its caller (or the
    cancellation, when the task is cancelled while the mail is sent).  In
    the scheduler, _run_backup catches the exception and prints it: no
    Exception leaves the task, and the entry of the job is taken out of the
    in-flight map. *)
Theorem adapter_failure_is_recorded_and_raised_again E j w job d cls msg :
  List.find (fun job => job_id job =? j) (backup_jobs w) = Some job ->
  database job = Some d ->
  adapter_failure E d (backup_type job) (clock E (2 + reads w)%nat) cls msg ->
  let bid := next_backup_id (backups w) in
  exists r w1 t rows before after,
    create_backup E j (with_session ∅ w) = (r, w1)
    /\ ((r = Raise (Exception cls msg) /\ (_run_backup E j w).1 = Return tt)
        \/ (r = Raise CancelledError /\ (_run_backup E j w).1 = Raise CancelledError))
    /\ session w1 !! bid
       = Some (mkBackup bid j FAILED None None None (Some (clock E (reads w)))
                        (Some t) (Some msg) (clock E (1 + reads w)%nat))
    /\ backups w1
       = rows ++ [mkBackup bid j FAILED None None None (Some (clock E (reads w)))
                           (Some t) (Some msg) (clock E (1 + reads w)%nat)]
    /\ trace w1
       = before ++ EvStatus bid FAILED
           :: EvCall "send_backup_failure_notification" bid :: after
    /\ running_jobs (_run_backup E j w).2 = delete j (running_jobs w).
Proof.
  intros Hfind Hd Hfail bid.
  assert (Hout : forall r w1,
            create_backup E j (with_session ∅ w) = (r, w1) ->
            r = Raise (Exception cls msg) \/ r = Raise CancelledError ->
            (r = Raise (Exception cls msg) /\ (_run_backup E j w).1 = Return tt)
            \/ (r = Raise CancelledError
                /\ (_run_backup E j w).1 = Raise CancelledError)).
  { intros r w1 Hrun Hr. rewrite run_backup_result, Hrun. cbn [fst].
    destruct Hr as [-> | ->]; [left | right]; split; reflexivity. }
  pose proof (proj1 (run_backup_sched E j w)) as Hrj.
  revert Hout. generalize (_run_backup E j w).1. intros out Hout.
  revert Hrj. generalize (running_jobs (_run_backup E j w).2). intros rj' Hrj.
  subst bid. destruct w as [r jobs rows ns s tr rj ts jn].
  cbn [backups reads trace backup_jobs Nat.add with_session] in *.
  unfold adapter_failure in Hfail. cbv zeta in Hfail.
  revert Hout. unfold create_backup. run. rewrite Hfind. run.
  unfold _perform_backup. run.
  rewrite !alter_insert_eq, lookup_insert_eq. run. rewrite Hfind. run.
  rewrite Hd. run.
  destruct Hfail as [[-> Hc] | [Hc [[-> Hx] | [Hx [[-> Ho] | (Ho & -> & Hu)]]]]];
    rewrite Hc; run;
    try (rewrite Hx; run); try (rewrite Ho; run); try (rewrite Hu; run).
  all: handle job d Hfind Hd.
  all: try handle job d Hfind Hd.
  all: rewrite ?flush_last, ?lookup_insert_eq; cbn [default from_option id].
  all: rewrite ?flush_last, ?lookup_insert_eq; cbn [default from_option id].
  all: rewrite ?flush_last, ?lookup_insert_eq; cbn [default from_option id].
  all: intros Hout.
  all: eexists _, _, _, _, _, _.
  all: split; [reflexivity|].
  all: split; [eapply Hout; [reflexivity | auto]|].
  all: split; [apply lookup_insert_eq|].
  all: split; [reflexivity|].
  all: split; [|exact Hrj].
  all: cbn [trace]; reflexivity.
Qed.

Lemma adapter_failure_is_recorded_and_raised_again_witness :
  exists r w1,
    create_backup offline 1 (with_session ∅ quiet) = (r, w1)
    /\ ((r = Raise (Exception "Error" "08001: server not found")
         /\ (_run_backup offline 1 quiet).1 = Return tt)
        \/ (r = Raise CancelledError
            /\ (_run_backup offline 1 quiet).1 = Raise CancelledError)).
Proof.
  destruct (adapter_failure_is_recorded_and_raised_again offline 1 quiet nightly sales
              "Error" "08001: server not found")
    as (r & w1 & t & rows & before & after & Hrun & Hr & _).
  - reflexivity.
  - reflexivity.
  - left. split; reflexivity.
  - exists r, w1. split; [exact Hrun | exact Hr].
Defined.

(** C6 (as the claim has it) fails: create_backup raises the adapter's
    exception to its caller, and the caller is the scheduler's _run_backup,
    whose except clause prints it. *)
Lemma scheduler_receives_the_exception :
  (create_backup offline 1 quiet).1
    = Raise (Exception "Error" "08001: server not found")
  /\ last (trace (_run_backup offline 1 quiet).2)
     = Some (EvPrint "Error executing backup job 1: 08001: server not found")
  /\ status_history 2 (trace (_run_backup offline 1 quiet).2)
     = [PENDING; IN_PROGRESS; FAILED; FAILED].
Proof. vm_compute. repeat split; reflexivity. Qed.

(** * Further properties *)

(** ** A job that is not there, or not active *)

(** X1: for a job id that the jobs table does not hold, create_backup
    raises ValueError and leaves the world as it found it: no Backup is
    inserted, nothing is called.  The manual run answers HTTP 400 with that
    message; the scheduler's _run_backup prints it, returns, and takes the
    entry of the job id out of the in-flight map. *)
Theorem unknown_job_is_refused E j w :
  List.find (fun job => job_id job =? j) (backup_jobs w) = None ->
  let missing := "Backup job " +:+ pretty j +:+ " not found" in
  create_backup E j w = (Raise (Exception "ValueError" missing), w)
  /\ run_backup_job E j w = (Raise (HTTPException 400 missing), with_session ∅ w)
  /\ _run_backup E j w =
       (Return tt,
        with_running_jobs (delete j (running_jobs w))
          (with_session ∅
             (with_trace
                (trace w ++ [EvPrint ("Error executing backup job " +:+ pretty j
                                        +:+ ": " +:+ missing)]) w))).
Proof.
  intros Hfind missing.
  assert (Hc : forall w0, backup_jobs w0 = backup_jobs w ->
                 create_backup E j w0 = (Raise (Exception "ValueError" missing), w0)).
  { intros w0 Hw0.
    unfold create_backup, bind at 1, query_job, bind at 1, gets at 1, ret at 1.
    rewrite Hw0, Hfind. reflexivity. }
  split; [apply Hc; reflexivity|]. split.
  - rewrite run_backup_job_eq, Hc by reflexivity. destruct w; reflexivity.
  - unfold _run_backup, bind at 1, db_close at 1, modify at 1.
    unfold try_finally, try_except, bind at 1.
    rewrite Hc by reflexivity. cbn [is_Exception].
    unfold print, emit, modify. rewrite run_backup_finally_eq.
    destruct w; reflexivity.
Qed.

Lemma unknown_job_is_refused_witness :
  create_backup calm 9 quiet
  = (Raise (Exception "ValueError" "Backup job 9 not found"), quiet).
Proof.
  apply (unknown_job_is_refused calm 9 quiet). reflexivity.
Defined.

Lemma reschedule_job_eq E j w :
  reschedule_job E j w =
    match List.find (fun job => job_id job =? j) (backup_jobs w) with
    | Some job =>
        if is_active job
        then (cancel_and_del j ;; _schedule_job E job ;; ret tt) w
        else (Return tt, w)
    | None => (Return tt, w)
    end.
Proof.
  unfold reschedule_job, bind at 1, query_job, bind at 1, gets at 1, ret at 1.
  destruct (List.find _ (backup_jobs w)) as [job|]; [|reflexivity].
  destruct (is_active job); reflexivity.
Qed.

Lemma resume_job_eq E j w :
  resume_job E j w =
    match List.find (fun job => job_id job =? j) (backup_jobs w) with
    | Some job =>
        if is_active job && bool_decide (running_jobs w !! j = None)
        then (_schedule_job E job ;; ret tt) w
        else (Return tt, w)
    | None => (Return tt, w)
    end.
Proof.
  unfold resume_job, bind at 1, query_job, bind at 1, gets at 1, ret at 1.
  unfold bind at 1, gets at 1.
  destruct (List.find _ (backup_jobs w)) as [job|]; [|reflexivity].
  destruct (is_active job && bool_decide _); reflexivity.
Qed.

(** X2: reschedule_job and resume_job do nothing for a job id that is not
    in the jobs table or whose job is not active; in particular the
    execution of a deactivated job that is in flight is not cancelled, and
    its entry stays in the in-flight map. *)
Theorem inactive_job_is_left_alone E j w :
  (forall job, List.find (fun job => job_id job =? j) (backup_jobs w) = Some job ->
               is_active job = false) ->
  reschedule_job E j w = (Return tt, w) /\ resume_job E j w = (Return tt, w).
Proof.
  intros Hjob. rewrite reschedule_job_eq, resume_job_eq.
  destruct (List.find _ (backup_jobs w)) as [job|]; [|split; reflexivity].
  rewrite (Hjob job eq_refl). split; reflexivity.
Qed.

Lemma inactive_job_is_left_alone_witness :
  reschedule_job calm 1 winding_down = (Return tt, winding_down)
  /\ resume_job calm 1 winding_down = (Return tt, winding_down).
Proof.
  apply (inactive_job_is_left_alone calm 1 winding_down).
  intros job [= <-]. reflexivity.
Defined.

(** X3: for an active job of the jobs table, pausing and then resuming is
    rescheduling: the task in flight, if any, is asked to cancel, its entry
    is deleted, the next run is computed and a new task is registered. *)
Theorem pause_then_resume_is_reschedule E j w job :
  List.find (fun job => job_id job =? j) (backup_jobs w) = Some job ->
  is_active job = true ->
  (pause_job j ;; resume_job E j) w = reschedule_job E j w.
Proof.
  intros Hfind Hact.
  rewrite reschedule_job_eq, Hfind, Hact.
  unfold pause_job. unfold bind at 1. unfold bind at 1.
  rewrite cancel_and_del_eq.
  assert (Hr : forall w0, backup_jobs w0 = backup_jobs w -> running_jobs w0 !! j = None ->
                 resume_job E j w0 = (_schedule_job E job ;; ret tt) w0).
  { intros w0 Hw0 Hidle. rewrite resume_job_eq, Hw0, Hfind, Hact.
    rewrite bool_decide_eq_true_2 by exact Hidle. reflexivity. }
  destruct (running_jobs w !! j) as [t|] eqn:Hj.
  - apply Hr; [reflexivity | apply lookup_delete_eq].
  - apply Hr; [reflexivity | exact Hj].
Qed.

Lemma pause_then_resume_is_reschedule_witness :
  (pause_job 1 ;; resume_job calm 1) busy = reschedule_job calm 1 busy.
Proof.
  apply (pause_then_resume_is_reschedule calm 1 busy due); reflexivity.
Defined.

(** ** What no operation writes *)

Lemma keeps_ret P {A} (a : A) : keeps P (ret a).
Proof. intros w Hw; exact Hw. Qed.

Lemma keeps_raise P {A} e : keeps P (@raise A e).
Proof. intros w Hw; exact Hw. Qed.

Lemma keeps_lift P {A} (o : outcome A) : keeps P (lift o).
Proof. intros w Hw; exact Hw. Qed.

Lemma keeps_gets P {A} (f : World -> A) : keeps P (gets f).
Proof. intros w Hw; exact Hw. Qed.

Lemma keeps_modify P f : (forall w, P w -> P (f w)) -> keeps P (modify f).
Proof. intros Hf w Hw. apply Hf, Hw. Qed.

Lemma keeps_bind P {A B} (m : M A) (k : A -> M B) :
  keeps P m -> (forall a, keeps P (k a)) -> keeps P (bind m k).
Proof.
  intros Hm Hk w Hw. unfold bind. specialize (Hm w Hw).
  destruct (m w) as [[a|e] w1]; cbn in *; [apply Hk, Hm | exact Hm].
Qed.

Lemma keeps_try_except P {A} (m : M A) h :
  keeps P m -> (forall e, keeps P (h e)) -> keeps P (try_except m h).
Proof.
  intros Hm Hh w Hw. unfold try_except. specialize (Hm w Hw).
  destruct (m w) as [[a|e] w1]; cbn in *; [exact Hm|].
  destruct (is_Exception e); [apply Hh, Hm | exact Hm].
Qed.

Lemma keeps_try_finally P {A} (m : M A) f :
  keeps P m -> keeps P f -> keeps P (try_finally m f).
Proof.
  intros Hm Hf w Hw. unfold try_finally. specialize (Hm w Hw).
  destruct (m w) as [r w1]; cbn in *. specialize (Hf w1 Hm).
  destruct (f w1) as [[a|e] w2]; exact Hf.
Qed.

Lemma keeps_for_each P {A} (l : list A) body :
  (forall x, keeps P (body x)) -> keeps P (for_each l body).
Proof.
  intros Hb. induction l as [|x l IH]; cbn [for_each].
  - apply keeps_ret.
  - apply keeps_bind; auto.
Qed.

Lemma keeps_swallow P {A} (m : M A) : keeps P m -> keeps P (swallow m).
Proof. intros Hm w Hw. apply Hm, Hw. Qed.

(** One step of a proof that a computation keeps a property which does not
    depend on what [modify] changes there. *)
Ltac keeps_step :=
  match goal with
  | |- keeps _ (bind _ _) => apply keeps_bind; [|intros]
  | |- keeps _ (try_except _ _) => apply keeps_try_except; [|intros]
  | |- keeps _ (try_finally _ _) => apply keeps_try_finally
  | |- keeps _ (for_each _ _) => apply keeps_for_each; intros
  | |- keeps _ (swallow _) => apply keeps_swallow
  | |- keeps _ (ret _) => apply keeps_ret
  | |- keeps _ (raise _) => apply keeps_raise
  | |- keeps _ (lift _) => apply keeps_lift
  | |- keeps _ (gets _) => apply keeps_gets
  | |- keeps _ (modify _) => apply keeps_modify; intros ? H; exact H
  | |- keeps _ (utcnow _) => intros ? H; exact H
  | |- keeps _ (match ?x with _ => _ end) => destruct x
  end.

Ltac solve_keeps := repeat keeps_step.

(** The definitions of the services, down to the operations of the monad. *)
Ltac services :=
  unfold perform, run_task, mark_done, _run_backup, _run_backup_finally,
    run_backup_job, BackupService_getattr, resume_job, pause_job, reschedule_job,
    cancel_and_del, _schedule_pending_jobs, schedule_unless_running, _schedule_job,
    task_cancel, create_task, _get_next_run_time, create_backup, _perform_backup,
    _get_sql_connection, _handle_backup_error, _cleanup_old_backups, cleanup_one,
    query_old_backups, send_backup_success_notification,
    send_backup_failure_notification, send_notification, _send_email,
    backup_job_rel, assign_status, setattr, db_close, db_commit, db_add_commit,
    query_job, getattr, call, print, emit.

Lemma configured_perform E a jobs ns : keeps (configured jobs ns) (perform E a).
Proof. destruct a; services; solve_keeps. Qed.

(** X4: no operation of the scheduler, of the executor or of the manual run
    writes to the jobs table or to the notification settings: whatever is
    performed, every job keeps its last_run, its next_run and its is_active
    flag as they were in the table. *)
Theorem no_operation_writes_the_jobs_table E a w :
  backup_jobs (perform E a w).2 = backup_jobs w
  /\ notification_settings (perform E a w).2 = notification_settings w.
Proof.
  apply (configured_perform E a (backup_jobs w) (notification_settings w) w).
  split; reflexivity.
Qed.

(** ** What a poll cycle dispatches *)

Lemma schedule_unless_running_new_task E job w :
  exists new,
    tasks (schedule_unless_running E job w).2 = tasks w ++ new
    /\ Forall (fun t => task_job t = job_id job) new.
Proof.
  rewrite schedule_unless_running_eq.
  destruct (running_jobs w !! job_id job) eqn:Hrj.
  - exists []. cbn. rewrite app_nil_r. split; [reflexivity | constructor].
  - destruct (schedule_job_world E job w) as [n Hw].
    destruct (_schedule_job E job w) as [[job'|e] w']; cbn in *.
    + destruct Hw as [_ ->]. exists [mkTask (job_id job) false false]. cbn.
      split; [reflexivity|]. repeat constructor.
    + subst w'. exists []. cbn. rewrite app_nil_r. split; [reflexivity | constructor].
Qed.

Lemma poll_loop_new_tasks E l w :
  exists new,
    tasks (for_each l (schedule_unless_running E) w).2 = tasks w ++ new
    /\ Forall (fun t => exists job, job ∈ l /\ job_id job = task_job t) new.
Proof.
  revert w. induction l as [|x l IH]; intros w; cbn [for_each].
  - exists []. cbn. rewrite app_nil_r. split; [reflexivity | constructor].
  - unfold bind.
    destruct (schedule_unless_running_new_task E x w) as (n1 & Ht1 & Hf1).
    destruct (schedule_unless_running E x w) as [[[]|e] w1]; cbn in Ht1.
    + destruct (IH w1) as (n2 & Ht2 & Hf2). exists (n1 ++ n2). split.
      * rewrite Ht2, Ht1, app_assoc. reflexivity.
      * apply Forall_app. split.
        -- eapply Forall_impl; [exact Hf1|]. cbn. intros t Ht.
           exists x. split; [apply list_elem_of_here | auto].
        -- eapply Forall_impl; [exact Hf2|]. cbn. intros t (job & Hin & Hid).
           exists job. split; [apply elem_of_cons; auto | exact Hid].
    + exists n1. split; [exact Ht1|].
      eapply Forall_impl; [exact Hf1|]. cbn. intros t Ht.
      exists x. split; [apply list_elem_of_here | auto].
Qed.

(** X5: a poll cycle creates tasks only for jobs of the jobs table that are
    active and due (next_run unset or not after the clock reading of the
    poll) and that had no entry in the in-flight map; each new task is
    neither cancelled nor done.  A job that is not active is never
    dispatched by the poll. *)
Theorem poll_dispatches_only_active_due_jobs E w :
  exists new,
    tasks (_schedule_pending_jobs E w).2 = tasks w ++ new
    /\ Forall (fun t =>
         cancel_requested t = false /\ task_done t = false
         /\ running_jobs w !! task_job t = None
         /\ exists job,
              job ∈ backup_jobs w /\ job_id job = task_job t
              /\ is_active job = true
              /\ (forall due_at, next_run job = Some due_at ->
                    due_at <= clock E (reads w))) new.
Proof.
  destruct (poll_dispatches_idle_only E w) as ((new & Hnew & Hidle) & _).
  rewrite schedule_pending_jobs_eq in *.
  destruct (poll_loop_new_tasks E
              (List.filter (is_due (clock E (reads w))) (backup_jobs w))
              (with_reads (S (reads w)) w)) as (new' & Hnew' & Hjobs).
  cbn [tasks with_reads] in Hnew'.
  assert (new' = new) as -> by (eapply app_inv_head; rewrite <- Hnew, <- Hnew'; reflexivity).
  exists new. split; [exact Hnew|].
  rewrite Forall_forall in *. intros t Ht.
  destruct (Hidle t Ht) as (Hnone & Hc & Hd).
  destruct (Hjobs t Ht) as (job & Hin & Hid).
  apply list_elem_of_In, filter_In in Hin as [Hin Hdue].
  unfold is_due in Hdue. apply andb_true_iff in Hdue as [Hact Hdue].
  split_and!; try assumption.
  exists job. split_and!; try assumption.
  - apply list_elem_of_In, Hin.
  - intros due_at Hn. rewrite Hn in Hdue. apply Z.leb_le, Hdue.
Qed.

(** ** A job is due again as soon as it has run *)

Lemma steady_mono E n m : steady E -> (n <= m)%nat -> clock E n <= clock E m.
Proof.
  intros Hs Hnm. induction Hnm as [|m Hnm IH]; [lia|].
  destruct (Hs m) as [[_ Hm] _]. lia.
Qed.

Lemma schedule_job_returns E job w :
  steady E ->
  (forall last, last_run job = Some last ->
     0 <= last + interval_days (frequency job) * MICROSECONDS_PER_DAY <= datetime_max) ->
  exists job' w', _schedule_job E job w = (Return job', w').
Proof.
  intros Hs Hl. rewrite schedule_job_eq.
  rewrite (get_next_run_time_eq E job (interval_days (frequency job)) w
             (interval_days_small _) Hl).
  - destruct (last_run job) as [last|]; [|eauto].
    destruct (_ <? _); eauto.
  - apply Hs.
  - apply Hs.
  - apply Hs.
Qed.

Lemma poll_loop_returns E l w :
  steady E ->
  (forall job last, job ∈ l -> last_run job = Some last ->
     0 <= last + interval_days (frequency job) * MICROSECONDS_PER_DAY <= datetime_max) ->
  (for_each l (schedule_unless_running E) w).1 = Return tt.
Proof.
  intros Hs. revert w. induction l as [|x l IH]; intros w Hl; [reflexivity|].
  cbn [for_each]. unfold bind. rewrite schedule_unless_running_eq.
  destruct (running_jobs w !! job_id x).
  - apply IH. intros job last Hin. apply Hl, elem_of_cons. auto.
  - destruct (schedule_job_returns E x w Hs) as (job' & w' & ->).
    + intros last. apply Hl, list_elem_of_here.
    + apply IH. intros job last Hin. apply Hl, elem_of_cons. auto.
Qed.

Lemma poll_returns E w :
  steady E ->
  (forall job last, job ∈ backup_jobs w -> last_run job = Some last ->
     0 <= last + interval_days (frequency job) * MICROSECONDS_PER_DAY <= datetime_max) ->
  (_schedule_pending_jobs E w).1 = Return tt.
Proof.
  intros Hs Hl. rewrite schedule_pending_jobs_eq. apply poll_loop_returns; [exact Hs|].
  intros job last Hin. apply Hl.
  apply list_elem_of_In, filter_In in Hin as [Hin _]. apply list_elem_of_In, Hin.
Qed.

Lemma run_task_sched E tid w task :
  tasks w !! tid = Some task -> task_done task = false -> cancel_requested task = false ->
  running_jobs (run_task E tid w).2 = delete (task_job task) (running_jobs w)
  /\ length (tasks (run_task E tid w).2) = length (tasks w).
Proof.
  intros Ht Hd Hc. rewrite run_task_eq, Ht, Hd, Hc.
  destruct (run_backup_sched E (task_job task) w) as [Hrj Hts].
  unfold bind, swallow, mark_done, modify.
  destruct (_run_backup E (task_job task) w) as [r w1]. cbn in *.
  split; [exact Hrj|]. rewrite length_alter, Hts. reflexivity.
Qed.

(** X6: the run of a job's task leaves the job as due as it was: it takes
    the entry out of the in-flight map and writes neither last_run nor
    next_run, so the next poll cycle creates a new task for the job,
    whatever its frequency.  The clock is steady and the last_run values of
    the table, with their intervals, are dates. *)
Theorem job_is_dispatched_again_after_its_run E w job tid :
  steady E ->
  (forall job last, job ∈ backup_jobs w -> last_run job = Some last ->
     0 <= last + interval_days (frequency job) * MICROSECONDS_PER_DAY <= datetime_max) ->
  job ∈ backup_jobs w -> is_active job = true -> next_run job = None ->
  running_jobs w !! job_id job = Some tid ->
  tasks w !! tid = Some (mkTask (job_id job) false false) ->
  let w1 := (run_task E tid w).2 in
  let w2 := (_schedule_pending_jobs E w1).2 in
  running_jobs w1 !! job_id job = None
  /\ backup_jobs w1 = backup_jobs w
  /\ (_schedule_pending_jobs E w1).1 = Return tt
  /\ exists tid',
       running_jobs w2 !! job_id job = Some tid'
       /\ (length (tasks w) <= tid')%nat
       /\ tasks w2 !! tid' = Some (mkTask (job_id job) false false).
Proof.
  intros Hs Hl Hin Hact Hnext Hrj Htask w1 w2.
  destruct (run_task_sched E tid w _ Htask eq_refl eq_refl) as [Hrj1 Hlen].
  cbn [task_job] in Hrj1. fold w1 in Hrj1, Hlen.
  assert (Hjobs : backup_jobs w1 = backup_jobs w).
  { apply (configured_perform E (RunTask tid) (backup_jobs w) (notification_settings w) w).
    split; reflexivity. }
  assert (Hidle : running_jobs w1 !! job_id job = None)
    by (rewrite Hrj1; apply lookup_delete_eq).
  assert (Hret : (_schedule_pending_jobs E w1).1 = Return tt).
  { apply poll_returns; [exact Hs|]. rewrite Hjobs. exact Hl. }
  split; [exact Hidle|]. split; [exact Hjobs|]. split; [exact Hret|].
  destruct (poll_dispatches_due E w1 job) as (tid' & H1 & H2 & H3); try assumption.
  - rewrite Hjobs. exact Hin.
  - unfold is_due. rewrite Hact, Hnext. reflexivity.
  - exists tid'. rewrite <- Hlen. auto.
Qed.

Lemma steady_still : steady still.
Proof. intros n. vm_compute. repeat split; discriminate. Qed.

Lemma job_is_dispatched_again_after_its_run_witness :
  let w1 := (run_task still 0 daily_in_flight).2 in
  let w2 := (_schedule_pending_jobs still w1).2 in
  running_jobs w1 !! job_id nightly = None
  /\ backup_jobs w1 = backup_jobs daily_in_flight
  /\ (_schedule_pending_jobs still w1).1 = Return tt
  /\ exists tid',
       running_jobs w2 !! job_id nightly = Some tid'
       /\ (length (tasks daily_in_flight) <= tid')%nat
       /\ tasks w2 !! tid' = Some (mkTask (job_id nightly) false false).
Proof.
  refine (job_is_dispatched_again_after_its_run still daily_in_flight nightly 0%nat
            steady_still _ _ eq_refl eq_refl eq_refl eq_refl).
  - intros job last Hin. apply list_elem_of_singleton in Hin as ->. discriminate.
  - apply list_elem_of_here.
Defined.

(** ** One record per attempt *)

Lemma triple_pre {A} (P P' : World -> Prop) (m : M A) Q R :
  triple P' m Q R -> (forall w, P w -> P' w) -> triple P m Q R.
Proof. intros Hm HP w Hw. apply Hm, HP, Hw. Qed.

Lemma triple_raise {A} (P : World -> Prop) (m : M A) Q R R' :
  triple P m Q R' -> (forall e w, R' e w -> R e w) -> triple P m Q R.
Proof.
  intros Hm HR w Hw. specialize (Hm w Hw). destruct (m w) as [[a|e] w1]; auto.
Qed.

Lemma triple_bind {A B} P (m : M A) (k : A -> M B) Q1 Q R :
  triple P m Q1 R -> (forall a, triple (Q1 a) (k a) Q R) -> triple P (bind m k) Q R.
Proof.
  intros Hm Hk w Hw. unfold bind. specialize (Hm w Hw).
  destruct (m w) as [[a|e] w1]; [apply Hk, Hm | exact Hm].
Qed.

Lemma triple_try_except {A} P (m : M A) h Q R1 R :
  triple P m Q R1 ->
  (forall e, is_Exception e = true -> triple (R1 e) (h e) Q R) ->
  (forall e w, is_Exception e = false -> R1 e w -> R e w) ->
  triple P (try_except m h) Q R.
Proof.
  intros Hm Hh Hr w Hw. unfold try_except. specialize (Hm w Hw).
  destruct (m w) as [[a|e] w1]; [exact Hm|].
  destruct (is_Exception e) eqn:He; [apply (Hh e He), Hm | apply Hr; assumption].
Qed.

Lemma triple_try_finally {A} P (m : M A) f Q1 R1 Q R :
  triple P m Q1 R1 ->
  (forall a, triple (Q1 a) f (fun _ => Q a) R) ->
  (forall e, triple (R1 e) f (fun _ => R e) R) ->
  triple P (try_finally m f) Q R.
Proof.
  intros Hm Hq Hr w Hw. unfold try_finally. specialize (Hm w Hw).
  destruct (m w) as [[a|e] w1].
  - specialize (Hq a w1 Hm). destruct (f w1) as [[[]|e] w2]; exact Hq.
  - specialize (Hr e w1 Hm). destruct (f w1) as [[[]|e'] w2]; exact Hr.
Qed.

Lemma common_tracked bid j rows0 Q : common (tracked bid j rows0 Q).
Proof.
  intros w w' Hs Hb (b & c & H). exists b, c. rewrite Hs, Hb. exact H.
Qed.

Lemma common_settled bid j rows0 Q : common (settled bid j rows0 Q).
Proof.
  intros w w' Hs Hb (b & H). exists b. rewrite Hs, Hb. exact H.
Qed.

Lemma settled_tracked bid j rows0 Q w :
  settled bid j rows0 Q w -> tracked bid j rows0 Q w.
Proof. intros (b & Hb & Hid & Hj & HQ & Hrows & Hrest). exists b, b. auto 10. Qed.

Lemma tracked_weaken bid j rows0 (Q Q' : Backup -> Prop) w :
  (forall b, Q b -> Q' b) -> tracked bid j rows0 Q w -> tracked bid j rows0 Q' w.
Proof.
  intros HQ (b & c & Hb & Hid & Hj & Hq & H). exists b, c. auto 10.
Qed.

Lemma settled_weaken bid j rows0 (Q Q' : Backup -> Prop) w :
  (forall b, Q b -> Q' b) -> settled bid j rows0 Q w -> settled bid j rows0 Q' w.
Proof.
  intros HQ (b & Hb & Hid & Hj & Hq & H). exists b. auto 10.
Qed.

Lemma NoDup_map_eq {A B} (f : A -> B) (l : list A) x y :
  NoDup (map f l) -> x ∈ l -> y ∈ l -> f x = f y -> x = y.
Proof.
  induction l as [|a l IH]; intros Hnd Hx Hy Hf; [inversion Hx|].
  cbn in Hnd. apply NoDup_cons in Hnd as [Ha Hnd].
  apply elem_of_cons in Hx as [->|Hx]; apply elem_of_cons in Hy as [->|Hy].
  - reflexivity.
  - exfalso. apply Ha. rewrite Hf. apply list_elem_of_fmap. eauto.
  - exfalso. apply Ha. rewrite <- Hf. apply list_elem_of_fmap. eauto.
  - auto.
Qed.

Lemma flush_id s rows :
  (forall r r', r ∈ rows -> s !! backup_id r = Some r' -> r' = r) ->
  flush s rows = rows.
Proof.
  intros H. unfold flush. rewrite <- (map_id rows) at 2.
  apply map_ext_in. intros r Hr. apply list_elem_of_In in Hr.
  destruct (s !! backup_id r) as [r'|] eqn:Hs; [|reflexivity].
  cbn. apply (H r r' Hr Hs).
Qed.

Lemma load_lookup rows s k r :
  load rows s !! k = Some r -> s !! k = Some r \/ (r ∈ rows /\ backup_id r = k).
Proof.
  induction rows as [|x rows IH]; [auto|].
  change (load (x :: rows) s)
    with (match load rows s !! backup_id x with
          | Some _ => load rows s
          | None => <[backup_id x := x]> (load rows s)
          end).
  destruct (load rows s !! backup_id x) eqn:Hx.
  - intros H. destruct (IH H) as [?|[? ?]]; [auto|]. right. split; [apply elem_of_cons|]; auto.
  - rewrite lookup_insert. case_decide as Hk.
    + intros [= <-]. right. split; [apply list_elem_of_here | exact Hk].
    + intros H. destruct (IH H) as [?|[? ?]]; [auto|]. right. split; [apply elem_of_cons|]; auto.
Qed.

Section Attempt.

Variables (E : Env) (bid j : Z) (rows0 : list Backup).

Hypothesis Hnodup : NoDup (map backup_id rows0).
Hypothesis Hfresh : forall r, r ∈ rows0 -> backup_id r <> bid.

Lemma commit_settles Q R :
  triple (tracked bid j rows0 Q) db_commit (fun _ => settled bid j rows0 Q) R.
Proof.
  intros w (b & c & Hb & Hid & Hj & HQ & Hrows & Hc & Hrest).
  unfold db_commit, modify. exists b. cbn [session backups with_backups].
  split_and!; try assumption.
  rewrite Hrows, flush_last, Hc, Hb. cbn. f_equal.
  apply flush_id. intros r r' Hr Hs.
  destruct (Hrest (backup_id r) r' (Hfresh r Hr) Hs) as [Hr' Hid'].
  apply (NoDup_map_eq backup_id rows0); assumption.
Qed.

Lemma setattr_tracks (Q Q' : Backup -> Prop) f R :
  (forall b, backup_id (f b) = backup_id b /\ backup_job_id (f b) = backup_job_id b) ->
  (forall b, Q b -> Q' (f b)) ->
  triple (tracked bid j rows0 Q) (setattr bid f) (fun _ => tracked bid j rows0 Q') R.
Proof.
  intros Hf HQ w (b & c & Hb & Hid & Hj & Hq & Hrows & Hc & Hrest).
  unfold setattr, modify. exists (f b), c. cbn [session backups with_session].
  destruct (Hf b) as [Hfid Hfj].
  split_and!; try assumption; try congruence.
  - rewrite lookup_alter_eq, Hb. reflexivity.
  - auto.
  - intros k r Hk. rewrite lookup_alter_ne by congruence. auto.
Qed.


(** A step that leaves the session and the table alone. *)
Lemma step_frame {A} (P : World -> Prop) (m : M A) R :
  common P ->
  (forall s rows, keeps (fun w => session w = s /\ backups w = rows) m) ->
  (forall w e, (m w).1 = Raise e -> forall w', P w' -> R e w') ->
  triple P m (fun _ => P) R.
Proof.
  intros HP Hk Hr w Hw.
  destruct (Hk (session w) (backups w) w (conj eq_refl eq_refl)) as [Hs Hb].
  specialize (Hr w). destruct (m w) as [[a|e] w1]; cbn in *.
  - apply (HP w); assumption.
  - apply (Hr e eq_refl). apply (HP w); assumption.
Qed.

Lemma assign_status_tracks (Q Q' : Backup -> Prop) st R :
  (forall b, Q b -> Q' (set_status st b)) ->
  triple (tracked bid j rows0 Q) (assign_status bid st)
         (fun _ => tracked bid j rows0 Q') R.
Proof.
  intros HQ. unfold assign_status.
  eapply triple_bind; [apply setattr_tracks; [intros b; split; reflexivity | exact HQ]|].
  intros ?. apply step_frame; [apply common_tracked | intros; services; solve_keeps|].
  intros w e. discriminate.
Qed.

Lemma tracked_load Q w rows w' :
  tracked bid j rows0 Q w -> (forall x, x ∈ rows -> x ∈ backups w) ->
  session w' = load rows (session w) -> backups w' = backups w ->
  tracked bid j rows0 Q w'.
Proof.
  intros (b & c & Hb & Hid & Hj & Hq & Hrows & Hc & Hrest) Hin Hs Hbk.
  exists b, c. rewrite Hs, Hbk. split_and!; try assumption.
  - apply load_keeps, Hb.
  - intros k r Hk Hl. apply load_lookup in Hl as [Hl|[Hr Hkr]]; [eauto|].
    split; [|exact Hkr]. apply Hin in Hr. rewrite Hrows in Hr.
    apply elem_of_app in Hr as [Hr|Hr]; [exact Hr|].
    apply list_elem_of_singleton in Hr. subst r. congruence.
Qed.

Lemma cleanup_old_backups_loads job w :
  exists r evs rows n,
    _cleanup_old_backups E job w =
      (r, with_trace (trace w ++ evs)
            (with_session (load rows (session w)) (with_reads n w)))
    /\ (forall x, x ∈ rows -> x ∈ backups w)
    /\ (forall e, r = Raise e -> is_Exception e = true).
Proof.
  unfold _cleanup_old_backups, bind at 1, emit at 1, modify at 1.
  unfold bind at 1, utcnow at 1. cbn [reads with_trace].
  unfold bind at 1, lift at 1.
  destruct (timedelta_days (retention_days job)) as [delta|e] eqn:Hdelta.
  2:{ eexists _, _, [], _. split; [reflexivity|]. split; [intros x Hx; inversion Hx|].
      unfold timedelta_days in Hdelta. case_match; simplify_eq.
      intros e' [= <-]. reflexivity. }
  unfold bind at 1, lift at 1.
  destruct (datetime_sub (clock E (reads w)) delta) as [cutoff|e] eqn:Hcut.
  2:{ eexists _, _, [], _. split; [reflexivity|]. split; [intros x Hx; inversion Hx|].
      unfold datetime_sub, datetime_add in Hcut. case_match; simplify_eq.
      intros e' [= <-]. reflexivity. }
  unfold bind at 1, query_old_backups, bind at 1, gets at 1.
  unfold bind at 1, gets at 1. unfold bind at 1, modify at 1, ret at 1.
  rewrite for_each_cleanup_one. cbn.
  eexists _, _, _, _. split; [rewrite <- app_assoc; reflexivity|]. split.
  - intros x Hx. apply list_elem_of_In, filter_In in Hx as [Hx _].
    apply list_elem_of_In, Hx.
  - discriminate.
Qed.

Lemma cleanup_tracks Q job :
  triple (tracked bid j rows0 Q) (_cleanup_old_backups E job)
         (fun _ => tracked bid j rows0 Q)
         (fun e w => is_Exception e = true /\ tracked bid j rows0 Q w).
Proof.
  intros w Hw.
  destruct (cleanup_old_backups_loads job w) as (r & evs & rows & n & -> & Hin & He).
  assert (Ht : tracked bid j rows0 Q
                 (with_trace (trace w ++ evs)
                    (with_session (load rows (session w)) (with_reads n w))))
    by (apply (tracked_load Q w rows); auto).
  destruct r as [[]|e]; [exact Ht | split; [apply He; reflexivity | exact Ht]].
Qed.

Lemma handle_backup_error_settles Q msg :
  triple (tracked bid j rows0 Q) (_handle_backup_error E bid msg)
         (fun _ => settled bid j rows0 failed) (fun _ => settled bid j rows0 failed).
Proof.
  unfold _handle_backup_error.
  eapply triple_bind;
    [apply (assign_status_tracks Q (fun b => status b = FAILED)); reflexivity|].
  intros ?. eapply triple_bind.
  { apply (setattr_tracks _ (fun b => status b = FAILED /\ is_Some (error_message b))).
    - intros b; split; reflexivity.
    - intros b Hb. split; [exact Hb | cbn; eauto]. }
  intros ?. eapply triple_bind.
  { apply step_frame; [apply common_tracked | intros; services; solve_keeps|].
    intros w e. discriminate. }
  intros now. eapply triple_bind.
  { apply (setattr_tracks _ failed).
    - intros b; split; reflexivity.
    - intros b [Hb Hm]. split; [exact Hb|]. split; [exact Hm | cbn; eauto]. }
  intros ?. eapply triple_bind; [apply commit_settles|].
  intros ?. apply step_frame; [apply common_settled | intros; services; solve_keeps|].
  intros w e _ w' Hw'. exact Hw'.
Qed.

(** One step of an attempt that leaves the session and the table alone
    and raises nothing but an Exception. *)
Ltac quiet_step :=
  cbv zeta;
  eapply triple_bind;
    [ apply step_frame;
      [ apply common_tracked
      | intros; services; solve_keeps
      | intros ? ?; services;
        unfold bind, ret, raise, lift, gets, modify, utcnow;
        repeat case_match; intros ? ? ?; cbn [fst] in *; simplify_eq;
        match goal with
        | H : tracked _ _ _ _ _ |- _ =>
            split; [ first [ exact H
                           | eapply tracked_weaken; [|exact H]; intros; exact I ]
                   | cbn; discriminate ]
        end ]
    | intros ?; cbv beta ].

(** An assignment to an attribute of the Backup. *)
Ltac attr_step Q' :=
  eapply triple_bind;
    [ first [ apply (assign_status_tracks _ Q')
            | apply (setattr_tracks _ Q'); [intros ?; split; reflexivity|] ]
    | intros ?; cbv beta ].

Lemma perform_backup_settles Q :
  triple (tracked bid j rows0 Q) (_perform_backup E bid)
         (fun _ => settled bid j rows0 completed)
         (fun e w => settled bid j rows0 failed w
                     \/ (is_Exception e = false /\ settled bid j rows0 completed w)).
Proof.
  unfold _perform_backup.
  attr_step (fun _ : Backup => True); [auto|].
  eapply triple_bind; [apply commit_settles|]. intros ?.
  apply triple_try_finally
    with (Q1 := fun _ => tracked bid j rows0 completed)
         (R1 := fun e w => settled bid j rows0 failed w
                           \/ (is_Exception e = false
                               /\ tracked bid j rows0 completed w)).
  - apply triple_try_except
      with (R1 := fun e w => tracked bid j rows0 (fun _ => True) w
                             /\ (is_Exception e = false ->
                                 tracked bid j rows0 completed w)).
    + apply triple_pre with (P' := tracked bid j rows0 (fun _ => True));
        [|intros w; apply settled_tracked].
      quiet_step.
      match goal with
      | |- triple _ (match ?x with _ => _ end) _ _ => destruct x as [backup_job|]
      end.
      2:{ unfold getattr, bind, raise. intros w Hw. split; [exact Hw | discriminate]. }
      do 6 quiet_step.
      attr_step (fun b => status b = COMPLETED); [reflexivity|].
      attr_step (fun b => status b = COMPLETED /\ is_Some (file_path b)).
      { intros b Hb. split; [exact Hb | cbn; eauto]. }
      attr_step (fun b => status b = COMPLETED /\ is_Some (file_path b)
                          /\ is_Some (cloud_storage_path b)).
      { intros b (H1 & H2). split_and!; [exact H1 | exact H2 | cbn; eauto]. }
      quiet_step.
      attr_step (fun b => status b = COMPLETED /\ is_Some (file_path b)
                          /\ is_Some (cloud_storage_path b) /\ is_Some (file_size b)).
      { intros b (H1 & H2 & H3). split_and!; [exact H1 | exact H2 | exact H3 | cbn; eauto]. }
      quiet_step.
      attr_step completed.
      { intros b (H1 & H2 & H3 & H4). unfold completed.
        split_and!; [exact H1 | exact H2 | exact H3 | exact H4 | cbn; eauto]. }
      eapply triple_bind.
      { eapply triple_raise; [apply cleanup_tracks|].
        intros e w [He Hw]. split; [|congruence].
        eapply tracked_weaken; [|exact Hw]. intros; exact I. }
      intros ?. cbv beta.
      unfold send_backup_success_notification.
      apply step_frame; [apply common_tracked | intros; services; solve_keeps|].
      intros w e _ w' Hw'. split; [|auto].
      eapply tracked_weaken; [|exact Hw']. intros; exact I.
    + intros e He. eapply triple_bind.
      { eapply triple_pre; [|intros w [Hw _]; exact Hw].
        eapply triple_raise;
          [apply (handle_backup_error_settles (fun _ => True))|].
        intros e' w Hw. left. exact Hw. }
      intros ?. cbv beta. intros w Hw. left. exact Hw.
    + intros e w He [_ Hw]. right. auto.
  - intros ?. apply commit_settles.
  - intros e w [Hw|[He Hw]].
    + apply settled_tracked in Hw.
      pose proof (commit_settles failed (fun _ _ => False) w Hw) as Hc.
      destruct (db_commit w) as [[[]|e'] w']; [left; exact Hc | destruct Hc].
    + pose proof (commit_settles completed (fun _ _ => False) w Hw) as Hc.
      destruct (db_commit w) as [[[]|e'] w']; [right; auto | destruct Hc].
Qed.

Lemma attempt_settles Q :
  triple (tracked bid j rows0 Q)
         (try_except (_perform_backup E bid ;; ret bid)
                     (fun e => _handle_backup_error E bid (str e) ;; raise e))
         (fun a w => a = bid /\ settled bid j rows0 completed w)
         (fun e w => settled bid j rows0 failed w
                     \/ (is_Exception e = false /\ settled bid j rows0 completed w)).
Proof.
  apply triple_try_except
    with (R1 := fun e w => settled bid j rows0 failed w
                           \/ (is_Exception e = false
                               /\ settled bid j rows0 completed w)).
  - eapply triple_bind; [apply perform_backup_settles|].
    intros ?. cbv beta. intros w Hw. split; [reflexivity | exact Hw].
  - intros e He. eapply triple_bind.
    { eapply triple_pre with (P' := tracked bid j rows0 (fun _ => True)).
      - eapply triple_raise;
          [apply (handle_backup_error_settles (fun _ => True))|].
        intros e' w Hw. left. exact Hw.
      - intros w [Hw|[Hf _]]; [|congruence].
        apply settled_tracked. eapply settled_weaken; [|exact Hw]. intros; exact I. }
    intros ?. cbv beta. intros w Hw. left. exact Hw.
  - intros e w He H. exact H.
Qed.

End Attempt.

Lemma create_backup_settles E j w job :
  session w = ∅ ->
  NoDup (map backup_id (backups w)) ->
  List.find (fun job => job_id job =? j) (backup_jobs w) = Some job ->
  let bid := next_backup_id (backups w) in
  match create_backup E j w with
  | (Return a, w') => a = bid /\ settled bid j (backups w) completed w'
  | (Raise e, w') =>
      settled bid j (backups w) failed w'
      \/ (is_Exception e = false /\ settled bid j (backups w) completed w')
  end.
Proof.
  intros Hs Hnd Hfind bid.
  assert (Hfresh : forall r, r ∈ backups w -> backup_id r <> bid).
  { intros r Hr. pose proof (next_backup_id_fresh _ _ Hr). subst bid. lia. }
  unfold create_backup, bind at 1, query_job, bind at 1, gets at 1, ret at 1.
  rewrite Hfind.
  unfold bind at 1, utcnow at 1.
  unfold bind at 1, db_add_commit, bind at 1, utcnow at 1.
  unfold bind at 1, gets at 1. unfold bind at 1, modify at 1.
  unfold bind at 1, emit at 1, modify at 1. unfold ret at 1.
  cbn [backups with_reads with_backups with_session with_trace trace reads session].
  fold bid.
  match goal with |- context [try_except ?m ?h ?w1] =>
    apply (attempt_settles E bid j (backups w) Hnd Hfresh (fun _ => True) w1)
  end.
  eexists _, _. cbn [session backups]. split; [apply lookup_insert_eq|].
  split; [reflexivity|]. split; [reflexivity|]. split; [exact I|].
  split; [reflexivity|]. split; [reflexivity|].
  intros k r Hk. cbn [session with_trace with_session with_backups with_reads].
  rewrite lookup_insert_ne by congruence. rewrite Hs, lookup_empty.
  discriminate.
Qed.

Lemma run_backup_backups E j w :
  backups (_run_backup E j w).2 = backups (create_backup E j (with_session ∅ w)).2.
Proof.
  unfold _run_backup, bind at 1, db_close at 1, modify at 1.
  unfold try_finally, try_except, bind at 1.
  destruct (create_backup E j (with_session ∅ w)) as [[bid|e] w1]; cbn [snd].
  - unfold ret. rewrite run_backup_finally_eq. reflexivity.
  - destruct (is_Exception e).
    + unfold print, emit, modify. rewrite run_backup_finally_eq. reflexivity.
    + rewrite run_backup_finally_eq. reflexivity.
Qed.

(** X8: an execution that finds its job appends exactly one record to the
    table of backups, under the next id, and leaves every record that was
    there as it was.  When the execution has ended the record is Completed,
    with paths, size and completed_at, or Failed, with an error message and
    completed_at: none is left Pending or InProgress.  The task ends by
    returning, or cancelled while a mail was being sent.  (The ids of the
    table are distinct, as with a primary key.) *)
Theorem execution_appends_one_terminal_record E j w job :
  NoDup (map backup_id (backups w)) ->
  List.find (fun job => job_id job =? j) (backup_jobs w) = Some job ->
  exists b,
    backups (_run_backup E j w).2 = backups w ++ [b]
    /\ backup_id b = next_backup_id (backups w) /\ backup_job_id b = j
    /\ (completed b \/ failed b)
    /\ ((_run_backup E j w).1 = Return tt
        \/ (_run_backup E j w).1 = Raise CancelledError).
Proof.
  intros Hnd Hfind.
  pose proof (create_backup_settles E j (with_session ∅ w) job eq_refl Hnd Hfind) as H.
  cbv zeta in H. rewrite run_backup_backups, run_backup_result.
  cbn [backups with_session] in H.
  destruct (create_backup E j (with_session ∅ w)) as [[a|e] w1]; cbn [fst snd].
  - destruct H as [_ (b & _ & Hid & Hj & Hc & Hrows & _)].
    exists b. split_and!; auto.
  - assert (Hout : (if is_Exception e then Return tt else Raise e) = Return tt
                   \/ (if is_Exception e then Return tt else Raise e)
                      = Raise CancelledError)
      by (destruct e; cbn; auto).
    destruct H as [(b & _ & Hid & Hj & Hc & Hrows & _)
                  | [_ (b & _ & Hid & Hj & Hc & Hrows & _)]];
      exists b; split_and!; auto.
Qed.

Lemma execution_appends_one_terminal_record_witness :
  exists b,
    backups (_run_backup calm 1 quiet).2 = backups quiet ++ [b]
    /\ backup_id b = next_backup_id (backups quiet) /\ backup_job_id b = 1
    /\ (completed b \/ failed b)
    /\ ((_run_backup calm 1 quiet).1 = Return tt
        \/ (_run_backup calm 1 quiet).1 = Raise CancelledError).
Proof.
  apply (execution_appends_one_terminal_record calm 1 quiet nightly).
  - repeat constructor. set_solver.
  - reflexivity.
Defined.

Lemma find_fresh_last rows b :
  (forall r, r ∈ rows -> backup_id r <> backup_id b) ->
  List.find (fun r => backup_id r =? backup_id b) (rows ++ [b]) = Some b.
Proof.
  intros Hfresh. induction rows as [|x rows IH]; cbn.
  - rewrite Z.eqb_refl. reflexivity.
  - destruct (backup_id x =? backup_id b) eqn:Hx.
    + apply Z.eqb_eq in Hx. exfalso. apply (Hfresh x); [apply list_elem_of_here | exact Hx].
    + apply IH. intros r Hr. apply Hfresh, elem_of_cons. auto.
Qed.

(** X9: the record of an attempt is found by its id.  For a job of the jobs
    table, get_backup_status with the next id, after create_backup, answers
    the record of the attempt without changing anything; the record is
    Completed when create_backup returned (and what it returned is that
    id), Failed when it raised an Exception; when the task was cancelled
    while a mail was sent it is the one or the other.  (Fresh session;
    distinct ids in the table.) *)
Theorem attempt_is_found_by_its_id E j w job :
  session w = ∅ ->
  NoDup (map backup_id (backups w)) ->
  List.find (fun job => job_id job =? j) (backup_jobs w) = Some job ->
  let bid := next_backup_id (backups w) in
  let after := create_backup E j w in
  exists b,
    get_backup_status bid after.2 = (Return (Some b), after.2)
    /\ backup_id b = bid /\ backup_job_id b = j
    /\ match after.1 with
       | Return a => a = bid /\ completed b
       | Raise e => failed b \/ (e = CancelledError /\ completed b)
       end.
Proof.
  intros Hs Hnd Hfind bid after.
  pose proof (create_backup_settles E j w job Hs Hnd Hfind) as H.
  cbv zeta in H. fold bid in H. subst after.
  assert (Hfresh : forall r, r ∈ backups w -> backup_id r <> bid).
  { intros r Hr. pose proof (next_backup_id_fresh _ _ Hr). subst bid. lia. }
  assert (Hget : forall Q w', settled bid j (backups w) Q w' ->
            exists b, get_backup_status bid w' = (Return (Some b), w')
                      /\ backup_id b = bid /\ backup_job_id b = j /\ Q b).
  { intros Q w' (b & Hb & Hid & Hj & HQ & Hrows & _). exists b.
    split; [|auto].
    unfold get_backup_status, bind at 1, gets at 1. unfold bind at 1, gets at 1.
    rewrite Hrows, <- Hid, find_fresh_last by (rewrite Hid; exact Hfresh).
    unfold bind, modify, ret, load. cbn [foldr]. rewrite Hid, Hb. cbn.
    destruct w'; reflexivity. }
  destruct (create_backup E j w) as [[a|e] w1]; cbn [fst snd].
  - destruct H as [Ha Hw1]. destruct (Hget _ _ Hw1) as (b & Hg & Hid & Hj & Hc).
    exists b. auto.
  - destruct H as [Hw1|[He Hw1]]; destruct (Hget _ _ Hw1) as (b & Hg & Hid & Hj & Hc);
      exists b; split_and!; auto.
    right. split; [destruct e; cbn in He; congruence | exact Hc].
Qed.

Lemma attempt_is_found_by_its_id_witness :
  let after := create_backup calm 1 quiet in
  exists b,
    get_backup_status (next_backup_id (backups quiet)) after.2
    = (Return (Some b), after.2)
    /\ backup_id b = next_backup_id (backups quiet) /\ backup_job_id b = 1
    /\ match after.1 with
       | Return a => a = next_backup_id (backups quiet) /\ completed b
       | Raise e => failed b \/ (e = CancelledError /\ completed b)
       end.
Proof.
  apply (attempt_is_found_by_its_id calm 1 quiet nightly).
  - reflexivity.
  - repeat constructor. set_solver.
  - reflexivity.
Defined.

Lemma find_by_id rows b :
  NoDup (map backup_id rows) -> b ∈ rows ->
  List.find (fun r => backup_id r =? backup_id b) rows = Some b.
Proof.
  induction rows as [|x rows IH]; intros Hnd Hin; [inversion Hin|].
  cbn in Hnd. apply NoDup_cons in Hnd as [Hx Hnd]. cbn.
  apply elem_of_cons in Hin as [->|Hin]; [rewrite Z.eqb_refl; reflexivity|].
  destruct (backup_id x =? backup_id b) eqn:Heq; [|auto].
  apply Z.eqb_eq in Heq. exfalso. apply Hx. rewrite Heq.
  apply list_elem_of_fmap. eauto.
Qed.

Lemma find_by_id_none rows id :
  (forall b, b ∈ rows -> backup_id b <> id) ->
  List.find (fun r => backup_id r =? id) rows = None.
Proof.
  intros H. induction rows as [|x rows IH]; [reflexivity|]. cbn.
  destruct (backup_id x =? id) eqn:Heq.
  - apply Z.eqb_eq in Heq. exfalso. apply (H x); [apply list_elem_of_here | exact Heq].
  - apply IH. intros b Hb. apply H, elem_of_cons. auto.
Qed.

(** X10: GET /status/{backup_id} answers the row of the table of backups
    that has this id, as committed, and HTTP 404 when no row has it; the
    request changes nothing in the tables, and no status.  (Distinct ids in
    the table.) *)
Theorem status_route_answers_the_committed_row w :
  NoDup (map backup_id (backups w)) ->
  (forall b, b ∈ backups w ->
     Api.get_backup_status (backup_id b) w = (Return b, with_session ∅ w))
  /\ (forall id, (forall b, b ∈ backups w -> backup_id b <> id) ->
        Api.get_backup_status id w
        = (Raise (HTTPException 404 "Backup not found"), with_session ∅ w)).
Proof.
  intros Hnd. split.
  - intros b Hb.
    unfold Api.get_backup_status, Api.with_db, bind at 1, db_close at 1, modify at 1.
    unfold try_finally, bind at 1, get_backup_status, bind at 1, gets at 1.
    unfold bind at 1, gets at 1. cbn [backups session with_session].
    rewrite (find_by_id _ _ Hnd Hb).
    unfold bind, modify, ret, db_close, load. cbn [foldr].
    rewrite lookup_empty. cbn. destruct w; reflexivity.
  - intros id Hid.
    unfold Api.get_backup_status, Api.with_db, bind at 1, db_close at 1, modify at 1.
    unfold try_finally, bind at 1, get_backup_status, bind at 1, gets at 1.
    unfold bind at 1, gets at 1. cbn [backups session with_session].
    rewrite (find_by_id_none _ _ Hid).
    unfold bind, modify, ret, raise, db_close. cbn. destruct w; reflexivity.
Qed.

Lemma status_route_answers_the_committed_row_witness :
  Api.get_backup_status (backup_id aged) quiet = (Return aged, with_session ∅ quiet).
Proof.
  apply (status_route_answers_the_committed_row quiet).
  - repeat constructor. set_solver.
  - apply list_elem_of_here.
Defined.

(** ** Notifications *)

Lemma send_notification_mail E method enabled prefix bid w :
  exists r mail,
    send_notification E method enabled prefix bid w
    = (r, with_trace (trace w ++ EvCall method bid :: mail) w)
    /\ asked_for enabled prefix bid w mail.
Proof.
  destruct w as [r jobs rows ns s tr rj ts jn].
  unfold send_notification, _send_email, asked_for. run.
  destruct (s !! bid) as [b|] eqn:Hb; run.
  2:{ eexists _, []. split; [reflexivity | left; reflexivity]. }
  destruct b as [b1 b2 b3 b4 b5 b6 b7 b8 b9 b10]. run.
  destruct (List.find _ jobs) as [job|] eqn:Hjob; run.
  2:{ eexists _, []. split; [reflexivity | left; reflexivity]. }
  destruct (user job) as [u|] eqn:Hu; run.
  2:{ eexists _, []. split; [reflexivity | left; reflexivity]. }
  destruct (List.find _ ns) as [st|] eqn:Hst.
  2:{ eexists _, []. split; [reflexivity | left; reflexivity]. }
  destruct (enabled st) eqn:Hen; cbn [negb].
  2:{ eexists _, []. split; [reflexivity | left; reflexivity]. }
  run. destruct (database job) as [d|] eqn:Hd; run.
  2:{ eexists _, []. split; [reflexivity | left; reflexivity]. }
  destruct (smtp_send E (email u) (prefix +:+ db_name d)) eqn:Hsmtp;
    run; rewrite <- ?app_assoc; eexists _, _; (split; [reflexivity|]);
    right; eexists _, job, u, st, d;
    (split; [reflexivity|]); split_and!; eauto.
Qed.

(** X11: a notification sends at most one mail, and only to the user of the
    Backup's job, at the address of that user, when the settings row of
    that user enables the notification for this outcome and the job has its
    database, whose name ends the subject.  For a job without a user, a
    user without a settings row or a flag that is off, nothing is sent. *)
Theorem mail_goes_only_to_a_user_who_asked_for_it E bid w :
  (exists r mail,
     send_backup_success_notification E bid w
     = (r, with_trace
             (trace w ++ EvCall "send_backup_success_notification" bid :: mail) w)
     /\ asked_for backup_success "Backup Completed Successfully - " bid w mail)
  /\ (exists r mail,
        send_backup_failure_notification E bid w
        = (r, with_trace
                (trace w ++ EvCall "send_backup_failure_notification" bid :: mail) w)
        /\ asked_for backup_failure "Backup Failed - " bid w mail).
Proof. split; apply send_notification_mail. Qed.

(** X12: when the job has no database, its user has a settings row and the
    failure notification is enabled, the attribute error of the notifier
    (the subject needs the name of the database) takes the place of the
    error that made the attempt fail (the connection string of the
    database): create_backup raises the notifier's error, the record is
    Failed with the notifier's message, and no mail is sent. *)
Theorem notifier_error_replaces_the_cause E j w job u s :
  List.find (fun job => job_id job =? j) (backup_jobs w) = Some job ->
  database job = None ->
  user job = Some u ->
  List.find (fun s => ns_user_id s =? user_id u) (notification_settings w) = Some s ->
  backup_failure s = true ->
  let bid := next_backup_id (backups w) in
  let cause := "'NoneType' object has no attribute 'connection_string'" in
  let notifier := "'NoneType' object has no attribute 'name'" in
  exists w1 rows t,
    (forall w0, (_get_sql_connection E (database job) w0).1
                = Raise (Exception "AttributeError" cause))
    /\ create_backup E j (with_session ∅ w)
       = (Raise (Exception "AttributeError" notifier), w1)
    /\ backups w1
       = rows ++ [mkBackup bid j FAILED None None None (Some (clock E (reads w)))
                           (Some t) (Some notifier) (clock E (1 + reads w)%nat)]
    /\ trace w1
       = trace w
         ++ [ EvStatus bid PENDING; EvStatus bid IN_PROGRESS; EvStatus bid FAILED;
              EvCall "send_backup_failure_notification" bid; EvStatus bid FAILED;
              EvCall "send_backup_failure_notification" bid ].
Proof.
  intros Hfind Hd Hu Hs Hen bid cause notifier. subst bid cause notifier.
  destruct w as [r jobs rows ns ss tr rj ts jn].
  cbn [backups reads trace backup_jobs notification_settings Nat.add with_session] in *.
  unfold create_backup. run. rewrite Hfind. run.
  unfold _perform_backup. run.
  rewrite !alter_insert_eq, lookup_insert_eq. run. rewrite Hfind. run.
  rewrite Hd. run.
  unfold _handle_backup_error, send_backup_failure_notification, send_notification. run.
  rewrite !alter_insert_eq, !lookup_insert_eq. run. rewrite Hfind. run.
  rewrite Hu. run. rewrite Hs, Hen. cbn [negb]. run. rewrite Hd. run.
  rewrite !alter_insert_eq, !lookup_insert_eq. run. rewrite Hfind. run.
  rewrite Hu. run. rewrite Hs, Hen. cbn [negb]. run. rewrite Hd. run.
  rewrite ?flush_last, ?lookup_insert_eq; cbn [default from_option id].
  rewrite ?flush_last, ?lookup_insert_eq; cbn [default from_option id].
  rewrite ?flush_last, ?lookup_insert_eq; cbn [default from_option id].
  eexists _, _, _. split; [intros w0; reflexivity|].
  split; [reflexivity|]. split; [reflexivity|].
  cbn [trace]. rewrite <- !app_assoc. reflexivity.
Qed.

Lemma notifier_error_replaces_the_cause_witness :
  exists w1 rows t,
    (forall w0, (_get_sql_connection calm (database unmoored) w0).1
                = Raise (Exception "AttributeError"
                           "'NoneType' object has no attribute 'connection_string'"))
    /\ create_backup calm 1 (with_session ∅ adrift)
       = (Raise (Exception "AttributeError" "'NoneType' object has no attribute 'name'"),
          w1)
    /\ backups w1
       = rows ++ [mkBackup (next_backup_id (backups adrift)) 1 FAILED None None None
                           (Some (clock calm (reads adrift))) (Some t)
                           (Some "'NoneType' object has no attribute 'name'")
                           (clock calm (1 + reads adrift)%nat)]
    /\ trace w1
       = trace adrift
         ++ [ EvStatus (next_backup_id (backups adrift)) PENDING;
              EvStatus (next_backup_id (backups adrift)) IN_PROGRESS;
              EvStatus (next_backup_id (backups adrift)) FAILED;
              EvCall "send_backup_failure_notification" (next_backup_id (backups adrift));
              EvStatus (next_backup_id (backups adrift)) FAILED;
              EvCall "send_backup_failure_notification"
                     (next_backup_id (backups adrift)) ].
Proof.
  apply (notifier_error_replaces_the_cause calm 1 adrift unmoored operator
           (mkNotificationSettings 7 true true)); reflexivity.
Defined.


(** ** Sizes in words *)

Lemma round_half_even_near num den :
  0 < den ->
  num / den <= round_half_even num den <= num / den + 1
  /\ 2 * Z.abs (round_half_even num den * den - num) <= den.
Proof.
  intros Hden. unfold round_half_even.
  pose proof (Z.div_mod num den ltac:(lia)) as Hdm.
  pose proof (Z.mod_pos_bound num den Hden) as Hr.
  set (q := num / den) in *. set (r := num mod den) in *.
  destruct (2 * r <? den) eqn:H1; [apply Z.ltb_lt in H1; split; nia|].
  apply Z.ltb_ge in H1.
  destruct (den <? 2 * r) eqn:H2; [apply Z.ltb_lt in H2; split; nia|].
  apply Z.ltb_ge in H2.
  destruct (Z.even q); split; nia.
Qed.

Lemma round_half_even_scale c num den :
  0 < c -> 0 < den ->
  round_half_even (c * num) (c * den) = round_half_even num den.
Proof.
  intros Hc Hden. unfold round_half_even.
  rewrite Z.div_mul_cancel_l by lia.
  rewrite Z.mul_mod_distr_l by lia.
  replace (2 * (c * (num mod den))) with (c * (2 * (num mod den))) by lia.
  assert (Hlt : forall a b, (c * a <? c * b) = (a <? b)).
  { intros a b. destruct (a <? b) eqn:Hab.
    - apply Z.ltb_lt in Hab. apply Z.ltb_lt. nia.
    - apply Z.ltb_ge in Hab. apply Z.ltb_ge. nia. }
  rewrite !Hlt. reflexivity.
Qed.

Lemma format_2f_scale c num den :
  0 < c -> 0 < den -> format_2f (c * num) (c * den) = format_2f num den.
Proof.
  intros Hc Hden. unfold format_2f.
  replace (100 * (c * num)) with (c * (100 * num)) by lia.
  rewrite round_half_even_scale by assumption. reflexivity.
Qed.

(** The loop of the two formatters: the unit printed is the first one in
    which the value is below 1024, or the last one. *)
Lemma format_units_spec units last num den :
  0 < den ->
  exists i : nat,
    (i <= length units)%nat
    /\ format_units units last num den
       = format_2f num (den * 1024 ^ Z.of_nat i) +:+ " " +:+ default last (units !! i)
    /\ ((i < length units)%nat -> num < 1024 * (den * 1024 ^ Z.of_nat i))
    /\ ((0 < i)%nat -> den * 1024 ^ Z.of_nat i <= num).
Proof.
  revert den. induction units as [|unit units IH]; intros den Hden; cbn [format_units].
  - exists 0%nat. cbn [Z.of_nat length]. rewrite Z.pow_0_r, Z.mul_1_r.
    split; [lia|]. split; [reflexivity|]. split; lia.
  - destruct (num <? 1024 * den) eqn:Hlt.
    + apply Z.ltb_lt in Hlt. exists 0%nat. cbn [Z.of_nat].
      rewrite Z.pow_0_r, Z.mul_1_r. split; [cbn; lia|]. split; [reflexivity|].
      split; [intros _; exact Hlt | lia].
    + apply Z.ltb_ge in Hlt.
      destruct (IH (1024 * den) ltac:(lia)) as (i & Hi & Heq & Hup & Hlow).
      exists (S i).
      assert (Hpow : den * 1024 ^ Z.of_nat (S i) = 1024 * den * 1024 ^ Z.of_nat i).
      { rewrite Nat2Z.inj_succ, Z.pow_succ_r by lia. lia. }
      rewrite Hpow. split; [cbn; lia|]. split; [exact Heq|].
      split; [intros Hlen; apply Hup; cbn in Hlen; lia|].
      intros _. destruct i as [|i].
      * cbn [Z.of_nat]. rewrite Z.pow_0_r. lia.
      * apply Hlow. lia.
Qed.

(** X13: _format_file_size prints the size in B, KB, MB, GB or TB, to the
    hundredth, rounded to the nearest with a tie to the even: the number
    printed, times the unit, is within half a hundredth of the unit of the
    size.  The unit is the first of B, KB, MB, GB in which the size is
    below 1024, else TB; so the number is from 1.00 on in every unit but B
    and at most 1024.00 in every unit but TB, where it is not bounded.
    (Sizes below 2^53, which floats hold exactly.) *)
Theorem file_size_is_printed_to_the_hundredth n :
  0 <= n < 2 ^ 53 ->
  exists h (k : nat) unit,
    _format_file_size n = hundredths h +:+ " " +:+ unit
    /\ ["B"; "KB"; "MB"; "GB"; "TB"] !! k = Some unit
    /\ 2 * Z.abs (h * 1024 ^ Z.of_nat k - 100 * n) <= 1024 ^ Z.of_nat k
    /\ (k = 0%nat -> h = 100 * n /\ n < 1024)
    /\ (k <> 0%nat -> 100 <= h /\ 1024 ^ Z.of_nat k <= n)
    /\ ((k < 4)%nat -> h <= 102400 /\ n < 1024 * 1024 ^ Z.of_nat k).
Proof.
  intros [Hn _].
  destruct (format_units_spec ["B"; "KB"; "MB"; "GB"] "TB" n 1 ltac:(lia))
    as (i & Hi & Heq & Hup & Hlow).
  cbn [length] in Hi, Hup. rewrite Z.mul_1_l in Heq, Hup, Hlow.
  assert (Hpos : 0 < 1024 ^ Z.of_nat i) by (apply Z.pow_pos_nonneg; lia).
  destruct (round_half_even_near (100 * n) (1024 ^ Z.of_nat i) Hpos) as [[Hfl Hce] Hnear].
  exists (round_half_even (100 * n) (1024 ^ Z.of_nat i)), i,
         (default "TB" (["B"; "KB"; "MB"; "GB"] !! i)).
  split; [exact Heq|]. split.
  { do 5 (destruct i as [|i]; [reflexivity|]). lia. }
  split; [exact Hnear|]. split; [|split].
  - intros ->. cbn [Z.of_nat] in *. rewrite Z.pow_0_r in *.
    split; [|apply Hup; lia].
    unfold round_half_even. rewrite Z.div_1_r, Z.mod_1_r. reflexivity.
  - intros Hk. assert (Hle : 1024 ^ Z.of_nat i <= n) by (apply Hlow; lia).
    split; [|exact Hle].
    assert (100 <= 100 * n / 1024 ^ Z.of_nat i); [|lia].
    apply Z.div_le_lower_bound; lia.
  - intros Hk. assert (Hlt : n < 1024 * 1024 ^ Z.of_nat i) by (apply Hup; lia).
    split; [|exact Hlt].
    assert (100 * n / 1024 ^ Z.of_nat i < 102400); [|lia].
    apply Z.div_lt_upper_bound; lia.
Qed.

Lemma file_size_is_printed_to_the_hundredth_witness :
  exists h (k : nat) unit,
    _format_file_size 1088 = hundredths h +:+ " " +:+ unit
    /\ ["B"; "KB"; "MB"; "GB"; "TB"] !! k = Some unit
    /\ 2 * Z.abs (h * 1024 ^ Z.of_nat k - 100 * 1088) <= 1024 ^ Z.of_nat k
    /\ (k = 0%nat -> h = 100 * 1088 /\ 1088 < 1024)
    /\ (k <> 0%nat -> 100 <= h /\ 1024 ^ Z.of_nat k <= 1088)
    /\ ((k < 4)%nat -> h <= 102400 /\ 1088 < 1024 * 1024 ^ Z.of_nat k).
Proof.
  apply (file_size_is_printed_to_the_hundredth 1088). lia.
Defined.

Lemma format_units_at units last num den (i : nat) :
  0 < den ->
  (i <= length units)%nat ->
  (forall k : nat, (k < i)%nat -> 1024 * (den * 1024 ^ Z.of_nat k) <= num) ->
  ((i < length units)%nat -> num < 1024 * (den * 1024 ^ Z.of_nat i)) ->
  format_units units last num den
  = format_2f num (den * 1024 ^ Z.of_nat i) +:+ " " +:+ default last (units !! i).
Proof.
  revert den i. induction units as [|unit units IH]; intros den i Hden Hi Hlow Hup;
    cbn [format_units].
  - cbn in Hi. assert (i = 0%nat) as -> by lia.
    cbn [Z.of_nat]. rewrite Z.pow_0_r, Z.mul_1_r. reflexivity.
  - destruct i as [|i].
    + cbn [Z.of_nat] in *. rewrite Z.pow_0_r, Z.mul_1_r in *.
      replace (num <? 1024 * den) with true
        by (symmetry; apply Z.ltb_lt, Hup; cbn; lia).
      reflexivity.
    + replace (num <? 1024 * den) with false.
      2:{ symmetry. apply Z.ltb_ge. specialize (Hlow 0%nat ltac:(lia)).
          cbn [Z.of_nat] in Hlow. rewrite Z.pow_0_r in Hlow. lia. }
      assert (Hpow : forall k : nat,
                den * 1024 ^ Z.of_nat (S k) = 1024 * den * 1024 ^ Z.of_nat k).
      { intros k. rewrite Nat2Z.inj_succ, Z.pow_succ_r by lia. lia. }
      rewrite Hpow. apply IH; [lia | cbn in Hi; lia | |].
      * intros k Hk. rewrite <- Hpow. apply Hlow. lia.
      * intros Hlen. rewrite <- Hpow. apply Hup. cbn. lia.
Qed.

(** X14: StorageService._format_size prints what
    NotificationService._format_file_size prints for a size below 1024^5.
    From 1024^5 bytes on it has divided by 1024 once more than the unit it
    prints says: the text is the size in units of 1024^5 bytes, followed by
    TB, where _format_file_size prints the size in units of 1024^4 bytes;
    so a size of 1024^4 bytes or more and the size 1024 times as large are
    printed alike.  (Sizes that floats hold exactly.) *)
Theorem storage_size_is_printed_a_unit_off n :
  0 <= n < 2 ^ 53 ->
  (n < 1024 ^ 5 -> StorageService._format_size n = _format_file_size n)
  /\ (1024 ^ 5 <= n ->
      StorageService._format_size n = format_2f n (1024 ^ 5) +:+ " TB"
      /\ _format_file_size n = format_2f n (1024 ^ 4) +:+ " TB")
  /\ (1024 ^ 4 <= n < 1024 ^ 5 ->
      StorageService._format_size (1024 * n) = StorageService._format_size n).
Proof.
  intros [Hn _].
  assert (Hsmall : forall k : nat, (k <= 4)%nat -> n < 1024 * 1024 ^ Z.of_nat k ->
            (forall i : nat, (i < k)%nat -> 1024 * 1024 ^ Z.of_nat i <= n) ->
            StorageService._format_size n
            = format_2f n (1024 ^ Z.of_nat k) +:+ " "
              +:+ default "TB" (["B"; "KB"; "MB"; "GB"; "TB"] !! k)
            /\ _format_file_size n
               = format_2f n (1024 ^ Z.of_nat k) +:+ " "
                 +:+ default "TB" (["B"; "KB"; "MB"; "GB"] !! k)).
  { intros k Hk Hup Hlow. unfold StorageService._format_size, _format_file_size. split.
    - rewrite (format_units_at _ _ n 1 k); cbn [length]; rewrite ?Z.mul_1_l;
        try lia; auto.
      intros i Hi. rewrite Z.mul_1_l. auto.
    - rewrite (format_units_at _ _ n 1 k); cbn [length]; rewrite ?Z.mul_1_l;
        try lia; auto.
      intros i Hi. rewrite Z.mul_1_l. auto. }
  assert (Hbig : forall m, 1024 ^ 5 <= m ->
            StorageService._format_size m = format_2f m (1024 ^ 5) +:+ " TB"
            /\ _format_file_size m = format_2f m (1024 ^ 4) +:+ " TB").
  { intros m Hm. unfold StorageService._format_size, _format_file_size. split.
    - rewrite (format_units_at _ _ m 1 5); cbn [length]; rewrite ?Z.mul_1_l;
        try lia; [reflexivity|].
      intros i Hi. rewrite Z.mul_1_l.
      assert (1024 * 1024 ^ Z.of_nat i <= 1024 ^ 5); [|lia].
      do 5 (destruct i as [|i]; [vm_compute; discriminate|]). lia.
    - rewrite (format_units_at _ _ m 1 4); cbn [length]; rewrite ?Z.mul_1_l;
        try lia; [reflexivity|].
      intros i Hi. rewrite Z.mul_1_l.
      assert (1024 * 1024 ^ Z.of_nat i <= 1024 ^ 5); [|lia].
      do 4 (destruct i as [|i]; [vm_compute; discriminate|]). lia. }
  split; [|split].
  - intros Hlt.
    assert (Hcase : exists k : nat, (k <= 4)%nat /\ n < 1024 * 1024 ^ Z.of_nat k
                      /\ forall i : nat, (i < k)%nat -> 1024 * 1024 ^ Z.of_nat i <= n).
    { destruct (Z_lt_dec n 1024) as [H0|H0];
        [exists 0%nat; split; [lia|]; split; [exact H0 | intros; lia]|].
      destruct (Z_lt_dec n (1024 ^ 2)) as [H1|H1].
      { exists 1%nat. split; [lia|]. split; [exact H1|].
        intros i Hi. assert (i = 0%nat) as -> by lia. cbn. lia. }
      destruct (Z_lt_dec n (1024 ^ 3)) as [H2|H2].
      { exists 2%nat. split; [lia|]. split; [exact H2|].
        intros i Hi. do 2 (destruct i as [|i]; [cbn; lia|]). lia. }
      destruct (Z_lt_dec n (1024 ^ 4)) as [H3|H3].
      { exists 3%nat. split; [lia|]. split; [exact H3|].
        intros i Hi. do 3 (destruct i as [|i]; [cbn; lia|]). lia. }
      exists 4%nat. split; [lia|]. split; [exact Hlt|].
      intros i Hi. do 4 (destruct i as [|i]; [cbn; lia|]). lia. }
    destruct Hcase as (k & Hk & Hup & Hlow).
    destruct (Hsmall k Hk Hup Hlow) as [-> ->].
    do 5 (destruct k as [|k]; [reflexivity|]). lia.
  - apply Hbig.
  - intros [Hlo Hhi].
    destruct (Hbig (1024 * n) ltac:(lia)) as [-> _].
    destruct (Hsmall 4%nat ltac:(lia) Hhi) as [-> _].
    { intros i Hi. do 4 (destruct i as [|i]; [cbn; lia|]). lia. }
    change (1024 ^ 5) with (1024 * 1024 ^ 4).
    rewrite format_2f_scale by lia. reflexivity.
Qed.

Lemma storage_size_is_printed_a_unit_off_witness :
  (1024 ^ 5 < 1024 ^ 5 -> StorageService._format_size (1024 ^ 5)
                          = _format_file_size (1024 ^ 5))
  /\ (1024 ^ 5 <= 1024 ^ 5 ->
      StorageService._format_size (1024 ^ 5)
      = format_2f (1024 ^ 5) (1024 ^ 5) +:+ " TB"
      /\ _format_file_size (1024 ^ 5) = format_2f (1024 ^ 5) (1024 ^ 4) +:+ " TB")
  /\ (1024 ^ 4 <= 1024 ^ 5 < 1024 ^ 5 ->
      StorageService._format_size (1024 * 1024 ^ 5)
      = StorageService._format_size (1024 ^ 5)).
Proof.
  apply (storage_size_is_printed_a_unit_off (1024 ^ 5)). lia.
Defined.

(** ** The storage service *)

(** X15: get_storage_usage always returns, whatever Dropbox answers, and
    what it does to the outside is a print at most: no storage warning is
    ever mailed.  For an account with an individual allocation of which
    more than 80 percent is used, the lookup of NotificationSettings, a name
    that module storage_service does not import, raises NameError on the
    way to the warning; the error is printed and the answer is the
    dictionary of an unreachable account: 0 bytes used of 0, 0 percent.  At
    80 percent or below the answer holds the figures of the account.  The
    route GET /usage so never answers HTTP 500. *)
Theorem storage_usage_above_the_threshold_reads_as_zero
    E storage_warning settings_user answer w :
  exists data msgs,
    StorageService.get_storage_usage E storage_warning settings_user answer w
    = (Return data, with_trace (trace w ++ map EvPrint msgs) w)
    /\ Api.get_storage_usage E storage_warning settings_user answer w
       = (Return data, with_session ∅ (with_trace (trace w ++ map EvPrint msgs) w))
    /\ (forall used allocated,
          answer = inr (mkSpaceUsage used (Some allocated)) ->
          if PrimFloat.ltb (float_of_int 80) (percent_used used allocated)
          then data = mkUsageData 0 0 "0 B" "0 B" (float_of_int 0)
               /\ msgs = [ "Error getting storage usage: "
                           +:+ "name 'NotificationSettings' is not defined" ]
          else data = mkUsageData used allocated
                        (StorageService._format_size used)
                        (StorageService._format_size allocated)
                        (percent_used used allocated)
               /\ msgs = []).
Proof.
  assert (Hcore : exists data msgs,
    (forall w0,
       StorageService.get_storage_usage E storage_warning settings_user answer w0
       = (Return data, with_trace (trace w0 ++ map EvPrint msgs) w0))
    /\ (forall used allocated,
          answer = inr (mkSpaceUsage used (Some allocated)) ->
          if PrimFloat.ltb (float_of_int 80) (percent_used used allocated)
          then data = mkUsageData 0 0 "0 B" "0 B" (float_of_int 0)
               /\ msgs = [ "Error getting storage usage: "
                           +:+ "name 'NotificationSettings' is not defined" ]
          else data = mkUsageData used allocated
                        (StorageService._format_size used)
                        (StorageService._format_size allocated)
                        (percent_used used allocated)
               /\ msgs = [])).
  { unfold StorageService.get_storage_usage, try_except, bind at 1, lift at 1.
    destruct answer as [msg|[bytes [quota|]]].
    - eexists _, [_]. split; [intros w0; reflexivity|]. intros u a [=].
    - unfold bind at 1, lift at 1. cbn [individual_allocated used].
      unfold bind at 1. cbn [usage_percentage].
      fold (percent_used bytes quota).
      destruct (PrimFloat.ltb (float_of_int 80) (percent_used bytes quota)) eqn:Hp.
      + eexists _, [_]. split; [intros w0; reflexivity|].
        intros u a [= <- <-]. rewrite Hp. split; reflexivity.
      + exists (mkUsageData bytes quota (StorageService._format_size bytes)
                  (StorageService._format_size quota) (percent_used bytes quota)), [].
        split; [intros w0; cbn; rewrite app_nil_r; destruct w0; reflexivity|].
        intros u a [= <- <-]. rewrite Hp. split; reflexivity.
    - eexists _, [_]. split; [intros w0; reflexivity|]. intros u a [=]. }
  destruct Hcore as (data & msgs & Hrun & Hdata).
  exists data, msgs. split; [apply Hrun|]. split; [|exact Hdata].
  unfold Api.get_storage_usage, Api.with_db, bind at 1, db_close at 1, modify at 1.
  unfold try_finally, try_except. rewrite Hrun.
  unfold db_close, modify. destruct w; reflexivity.
Qed.

Lemma storage_usage_above_the_threshold_reads_as_zero_witness :
  StorageService.get_storage_usage calm (fun _ => true) (fun _ => Some operator)
    (inr (mkSpaceUsage 81 (Some 100))) quiet
  = (Return (mkUsageData 0 0 "0 B" "0 B" (float_of_int 0)),
     with_trace
       [EvPrint "Error getting storage usage: name 'NotificationSettings' is not defined"]
       quiet).
Proof.
  destruct (storage_usage_above_the_threshold_reads_as_zero calm (fun _ => true)
              (fun _ => Some operator) (inr (mkSpaceUsage 81 (Some 100))) quiet)
    as (data & msgs & Hrun & _ & Hdata).
  specialize (Hdata 81 100 eq_refl).
  change (PrimFloat.ltb (float_of_int 80) (percent_used 81 100)) with true in Hdata.
  destruct Hdata as [-> ->]. exact Hrun.
Defined.

(** ** The sweep of StorageService *)


#[local] Instance newest_first_total : Total newest_first.
Proof. intros a b. unfold newest_first. lia. Qed.

#[local] Instance newest_first_trans : Transitive newest_first.
Proof. intros a b c. unfold newest_first. lia. Qed.

Lemma cleanup_loop_cons E job b l c w :
  StorageService.cleanup_loop E job (b :: l) c w =
    let w0 := with_reads (S (reads w)) w in
    if retention_days job <? (clock E (reads w) - created_at b) / MICROSECONDS_PER_DAY
    then match local_failure E b with
         | Some msg =>
             (Raise (Exception "OSError" msg),
              with_trace (trace w0 ++ sweep_events E b) w0)
         | None =>
             StorageService.cleanup_loop E job l (c + 1)
               (with_trace (trace w0 ++ sweep_events E b) w0)
         end
    else StorageService.cleanup_loop E job l c w0.
Proof.
  cbn [StorageService.cleanup_loop]. unfold bind at 1, utcnow. cbv zeta.
  destruct (retention_days job <? _); [|reflexivity].
  unfold local_failure, sweep_events, StorageService.delete_backup, try_except, call,
    print, emit, modify, bind, ret, raise.
  destruct (truthy (cloud_storage_path b)); cbn [is_Exception];
    [destruct (files_delete_v2 E _); cbn [is_Exception]|];
    (destruct (truthy (file_path b) && path_exists E _);
     [destruct (os_remove E _)|]);
    cbn [trace with_trace with_reads app];
    rewrite <- ?app_assoc, ?app_nil_r; cbn [app]; try reflexivity;
    destruct w; reflexivity.
Qed.

Lemma expired_sound E job n l b :
  b ∈ expired E job n l ->
  b ∈ l /\ exists i, retention_days job
                     < (clock E i - created_at b) / MICROSECONDS_PER_DAY.
Proof.
  revert n. induction l as [|x l IH]; intros n; cbn [expired]; [intros H; inversion H|].
  destruct (retention_days job <? _) eqn:Hx.
  - intros Hin. apply elem_of_cons in Hin as [->|Hin].
    + split; [apply list_elem_of_here|]. exists n. apply Z.ltb_lt, Hx.
    + destruct (IH _ Hin) as [Hl Hi]. split; [apply elem_of_cons; auto | exact Hi].
  - intros Hin. destruct (IH _ Hin) as [Hl Hi]. split; [apply elem_of_cons; auto | exact Hi].
Qed.

Lemma length_expired E job n l : (length (expired E job n l) <= length l)%nat.
Proof.
  revert n. induction l as [|x l IH]; intros n; cbn [expired length]; [lia|].
  destruct (retention_days job <? _); cbn [length]; specialize (IH (S n)); lia.
Qed.

Lemma cleanup_loop_run E job l c w :
  exists r evs n,
    StorageService.cleanup_loop E job l c w
    = (r, with_trace (trace w ++ evs) (with_reads n w))
    /\ (forall ev, ev ∈ evs ->
          exists b, b ∈ expired E job (reads w) l /\ ev ∈ sweep_events E b)
    /\ (Forall (fun b => local_failure E b = None) (expired E job (reads w) l) ->
          r = Return (c + Z.of_nat (length (expired E job (reads w) l)))
          /\ evs = concat (map (sweep_events E) (expired E job (reads w) l)))
    /\ (forall b, b ∈ expired E job (reads w) l -> local_failure E b <> None ->
          exists msg, r = Raise (Exception "OSError" msg))
    /\ (forall c', r = Return c' -> c <= c' <= c + Z.of_nat (length l))
    /\ (forall e, r = Raise e -> exists msg, e = Exception "OSError" msg).
Proof.
  revert c w. induction l as [|x l IH]; intros c w.
  - exists (Return c), [], (reads w). cbn [StorageService.cleanup_loop expired length].
    split; [unfold ret; rewrite app_nil_r; destruct w; reflexivity|].
    split; [intros ev Hev; inversion Hev|].
    split; [intros _; split; [f_equal; cbn; lia | reflexivity]|].
    split; [intros b Hb; inversion Hb|].
    split; [intros c' [= <-]; cbn; lia | discriminate].
  - rewrite cleanup_loop_cons. cbv zeta. cbn [expired].
    destruct (retention_days job <? _) eqn:Hx.
    + destruct (local_failure E x) as [msg|] eqn:Hfail.
      * exists (Raise (Exception "OSError" msg)), (sweep_events E x), (S (reads w)).
        split; [destruct w; reflexivity|].
        split; [intros ev Hev; exists x; split; [apply list_elem_of_here | exact Hev]|].
        split; [intros Hall; apply Forall_cons in Hall as [Hall _]; congruence|].
        split; [intros; eauto|]. split; [discriminate|].
        intros e [= <-]. eauto.
      * match goal with |- context [StorageService.cleanup_loop E job l (c + 1) ?w1] =>
          destruct (IH (c + 1) w1) as (r & evs & n & Heq & Hev & Hok & Hbad & Hcnt & Hexn)
        end.
        rewrite Heq. cbn [reads with_trace with_reads trace] in Hev, Hok, Hbad.
        exists r, (sweep_events E x ++ evs), n.
        split; [destruct w; cbn; rewrite <- app_assoc; reflexivity|].
        split.
        { intros ev Hin. apply elem_of_app in Hin as [Hin|Hin].
          - exists x. split; [apply list_elem_of_here | exact Hin].
          - destruct (Hev ev Hin) as (b & Hb & Hevb). exists b.
            split; [apply elem_of_cons; auto | exact Hevb]. }
        split.
        { intros Hall. apply Forall_cons in Hall as [_ Hall].
          destruct (Hok Hall) as [-> ->]. split; [f_equal; cbn [length]; lia|].
          reflexivity. }
        split.
        { intros b Hb Hne. apply elem_of_cons in Hb as [->|Hb]; [congruence|].
          apply (Hbad b Hb Hne). }
        split; [|exact Hexn].
        intros c' Hc'. specialize (Hcnt c' Hc'). cbn [length]. lia.
    + match goal with |- context [StorageService.cleanup_loop E job l c ?w1] =>
        destruct (IH c w1) as (r & evs & n & Heq & Hev & Hok & Hbad & Hcnt & Hexn)
      end.
      rewrite Heq. cbn [reads with_reads trace] in Hev, Hok, Hbad.
      exists r, evs, n.
      split; [destruct w; reflexivity|].
      split; [exact Hev|]. split; [exact Hok|]. split; [exact Hbad|].
      split; [|exact Hexn].
      intros c' Hc'. specialize (Hcnt c' Hc'). cbn [length]. lia.
Qed.

Lemma sweep_events_cloud E b p :
  EvCloudDelete p ∈ sweep_events E b -> cloud_storage_path b = Some p.
Proof.
  unfold sweep_events, truthy.
  destruct (cloud_storage_path b) as [q|]; cbn [default from_option id];
    repeat case_match; set_unfold; naive_solver.
Qed.

Lemma sweep_events_remove E b f :
  EvRemove f ∈ sweep_events E b -> file_path b = Some f.
Proof.
  unfold sweep_events, truthy.
  destruct (file_path b) as [q|]; cbn [default from_option id];
    repeat case_match; set_unfold; naive_solver.
Qed.

Lemma sweep_events_status E b bid st : EvStatus bid st ∉ sweep_events E b.
Proof.
  unfold sweep_events. repeat case_match; set_unfold; naive_solver.
Qed.

Lemma map_default_empty (l : list Backup) :
  map (fun r => default r ((∅ : gmap Z Backup) !! backup_id r)) l = l.
Proof.
  rewrite <- (map_id l) at 2. apply map_ext. intros r. rewrite lookup_empty. reflexivity.
Qed.


Lemma storage_sweep_run E job w newest older :
  session w = ∅ ->
  merge_sort newest_first
    (List.filter (fun b => backup_job_id b =? job_id job) (backups w))
  = newest :: older ->
  exists r evs s n,
    StorageService.cleanup_loop E job older 0 (with_session s w)
    = (r, with_trace (trace w ++ evs) (with_reads n (with_session s w)))
    /\ StorageService.cleanup_old_backups E job w
       = match r with
         | Return cleaned =>
             (Return cleaned,
              with_trace (trace w ++ evs) (with_reads n (with_session s w)))
         | Raise e =>
             (Return 0,
              with_trace
                (trace w ++ evs ++ [EvPrint ("Error cleaning up old backups: " +:+ str e)])
                (with_reads n (with_session s w)))
         end
    /\ (forall ev, ev ∈ evs ->
          exists b, b ∈ expired E job (reads w) older /\ ev ∈ sweep_events E b)
    /\ (Forall (fun b => local_failure E b = None) (expired E job (reads w) older) ->
          r = Return (Z.of_nat (length (expired E job (reads w) older)))
          /\ evs = concat (map (sweep_events E) (expired E job (reads w) older)))
    /\ (forall b, b ∈ expired E job (reads w) older -> local_failure E b <> None ->
          exists msg, r = Raise (Exception "OSError" msg))
    /\ (forall c', r = Return c' -> 0 <= c' <= Z.of_nat (length older)).
Proof.
  intros Hs Hsort.
  destruct (cleanup_loop_run E job older 0
              (with_session (load (newest :: older) ∅) w))
    as (r & evs & n & Heq & Hev & Hok & Hbad & Hcnt & Hexn).
  cbn [reads trace with_session] in Heq, Hev, Hok, Hbad.
  rewrite Z.add_0_l in Hok, Hcnt.
  exists r, evs, (load (newest :: older) ∅), n.
  split; [exact Heq|]. split; [|auto].
  unfold StorageService.cleanup_old_backups, try_except, bind at 1.
  unfold StorageService.query_job_backups, bind at 1, gets at 1.
  unfold bind at 1, gets at 1. rewrite Hsort, Hs.
  unfold bind at 1, modify at 1, ret at 1. rewrite map_default_empty.
  cbn [drop]. rewrite drop_0, Heq.
  destruct r as [cleaned|e]; [reflexivity|].
  destruct (Hexn e eq_refl) as [msg ->]. cbn [is_Exception].
  unfold bind, print, emit, modify, ret. cbn [trace with_trace].
  rewrite <- app_assoc. reflexivity.
Qed.

Lemma newest_is_newest rows newest older :
  merge_sort newest_first rows = newest :: older ->
  forall b, b ∈ rows -> created_at b <= created_at newest.
Proof.
  intros Hsort b Hb.
  pose proof (StronglySorted_merge_sort newest_first rows) as Hss.
  rewrite Hsort in Hss. apply StronglySorted_inv in Hss as [_ Hall].
  assert (Hin : b ∈ newest :: older)
    by (rewrite <- Hsort; rewrite merge_sort_Permutation; exact Hb).
  apply elem_of_cons in Hin as [->|Hin]; [lia|].
  rewrite Forall_forall in Hall. apply (Hall b Hin).
Qed.

(** X16: StorageService.cleanup_old_backups spares the newest backup of the
    job, however old: of the job's backups in the order of the query,
    newest first, the first is skipped; Dropbox and the file system are
    asked to delete only what a later one records, and only for one that
    is older than the window by a clock reading of the sweep.  The sweep
    always returns; it writes no status and leaves the tables as they are.
    The answer is at most the number of backups after the newest, and it is
    0 when os.remove has raised for one of them, whatever was deleted
    before.  (Fresh session.) *)
Theorem storage_sweep_spares_the_newest E job w newest older :
  session w = ∅ ->
  merge_sort newest_first
    (List.filter (fun b => backup_job_id b =? job_id job) (backups w))
  = newest :: older ->
  exists cleaned evs w',
    StorageService.cleanup_old_backups E job w = (Return cleaned, w')
    /\ trace w' = trace w ++ evs
    /\ backups w' = backups w /\ backup_jobs w' = backup_jobs w
    /\ (forall b, b ∈ backups w -> backup_job_id b = job_id job ->
          created_at b <= created_at newest)
    /\ (forall p, EvCloudDelete p ∈ evs ->
          exists b i, b ∈ older /\ cloud_storage_path b = Some p
                      /\ retention_days job
                         < (clock E i - created_at b) / MICROSECONDS_PER_DAY)
    /\ (forall f, EvRemove f ∈ evs ->
          exists b i, b ∈ older /\ file_path b = Some f
                      /\ retention_days job
                         < (clock E i - created_at b) / MICROSECONDS_PER_DAY)
    /\ (forall bid st, EvStatus bid st ∉ evs)
    /\ 0 <= cleaned <= Z.of_nat (length older)
    /\ (forall b, b ∈ expired E job (reads w) older -> local_failure E b <> None ->
          cleaned = 0).
Proof.
  intros Hs Hsort.
  destruct (storage_sweep_run E job w newest older Hs Hsort)
    as (r & evs & s & n & _ & Hrun & Hev & _ & Hbad & Hcnt).
  assert (Hnewest : forall b, b ∈ backups w -> backup_job_id b = job_id job ->
            created_at b <= created_at newest).
  { intros b Hb Hj. apply (newest_is_newest _ _ _ Hsort).
    apply list_elem_of_In, filter_In. split; [apply list_elem_of_In, Hb|].
    apply Z.eqb_eq, Hj. }
  assert (Hcloud : forall p, EvCloudDelete p ∈ evs ->
            exists b i, b ∈ older /\ cloud_storage_path b = Some p
                        /\ retention_days job
                           < (clock E i - created_at b) / MICROSECONDS_PER_DAY).
  { intros p Hp. destruct (Hev _ Hp) as (b & Hb & Hin).
    destruct (expired_sound _ _ _ _ _ Hb) as [Hold [i Hi]].
    exists b, i. split; [exact Hold|]. split; [eapply sweep_events_cloud, Hin | exact Hi]. }
  assert (Hremove : forall f, EvRemove f ∈ evs ->
            exists b i, b ∈ older /\ file_path b = Some f
                        /\ retention_days job
                           < (clock E i - created_at b) / MICROSECONDS_PER_DAY).
  { intros f Hf. destruct (Hev _ Hf) as (b & Hb & Hin).
    destruct (expired_sound _ _ _ _ _ Hb) as [Hold [i Hi]].
    exists b, i. split; [exact Hold|]. split; [eapply sweep_events_remove, Hin | exact Hi]. }
  assert (Hstatus : forall bid st, EvStatus bid st ∉ evs).
  { intros bid st Hin. destruct (Hev _ Hin) as (b & _ & Hb).
    apply (sweep_events_status E b bid st Hb). }
  destruct r as [cleaned|e].
  - exists cleaned, evs. eexists. split; [exact Hrun|].
    pose proof (Hcnt cleaned eq_refl) as Hc.
    split_and!; try reflexivity; auto; try lia.
    intros b Hb Hne. destruct (Hbad b Hb Hne) as [msg [=]].
  - exists 0, (evs ++ [EvPrint ("Error cleaning up old backups: " +:+ str e)]).
    eexists. split; [exact Hrun|].
    split_and!; try reflexivity; auto; try lia.
    + intros p Hp. apply elem_of_app in Hp as [Hp|Hp]; [auto|].
      apply list_elem_of_singleton in Hp. discriminate.
    + intros f Hf. apply elem_of_app in Hf as [Hf|Hf]; [auto|].
      apply list_elem_of_singleton in Hf. discriminate.
    + intros bid st Hin. apply elem_of_app in Hin as [Hin|Hin]; [apply (Hstatus _ _ Hin)|].
      apply list_elem_of_singleton in Hin. discriminate.
Qed.

Lemma storage_sweep_spares_the_newest_witness :
  exists cleaned evs w',
    StorageService.cleanup_old_backups calm nightly archive = (Return cleaned, w')
    /\ trace w' = trace archive ++ evs.
Proof.
  destruct (storage_sweep_spares_the_newest calm nightly archive aged [older_twin])
    as (cleaned & evs & w' & Hrun & Htrace & _).
  - reflexivity.
  - reflexivity.
  - exists cleaned, evs, w'. split; assumption.
Defined.

(** X17: when os.remove raises for none of them, the answer of
    StorageService.cleanup_old_backups is the number of the job's backups,
    the newest left out, that are older than the window, each by the clock
    reading of its turn.  A backup is counted whether or not Dropbox
    deleted its artifact, and whether or not it has any; no record is
    changed, so the same backups are counted at the next call.  (Fresh
    session.) *)
Theorem storage_sweep_counts_the_expired E job w newest older :
  session w = ∅ ->
  merge_sort newest_first
    (List.filter (fun b => backup_job_id b =? job_id job) (backups w))
  = newest :: older ->
  (forall b, b ∈ older -> local_failure E b = None) ->
  exists w',
    StorageService.cleanup_old_backups E job w
    = (Return (Z.of_nat (length (expired E job (reads w) older))), w')
    /\ trace w'
       = trace w ++ concat (map (sweep_events E) (expired E job (reads w) older))
    /\ backups w' = backups w.
Proof.
  intros Hs Hsort Hlocal.
  destruct (storage_sweep_run E job w newest older Hs Hsort)
    as (r & evs & s & n & _ & Hrun & _ & Hok & _).
  destruct Hok as [-> ->].
  { apply Forall_forall. intros b Hb. apply Hlocal.
    apply (expired_sound _ _ _ _ _ Hb). }
  eexists. split; [exact Hrun|]. split; reflexivity.
Qed.

Lemma storage_sweep_counts_the_expired_witness :
  exists w',
    StorageService.cleanup_old_backups calm nightly archive
    = (Return (Z.of_nat (length (expired calm nightly (reads archive) [older_twin]))), w')
    /\ trace w'
       = trace archive
         ++ concat (map (sweep_events calm)
                        (expired calm nightly (reads archive) [older_twin]))
    /\ backups w' = backups archive.
Proof.
  apply (storage_sweep_counts_the_expired calm nightly archive aged [older_twin]).
  - reflexivity.
  - vm_compute. reflexivity.
  - intros b Hb. apply list_elem_of_singleton in Hb as ->. reflexivity.
Defined.

(** ** The routes *)

Lemma missing_method name :
  bool_decide (name ∈ BackupService_methods) = false ->
  name ∉ BackupService_methods.
Proof. intros H Hin. apply bool_decide_eq_false in H. auto. Qed.

Ltac refused name side :=
  match goal with
  | |- context [Api.serve ?E ?absent ?r ?w] =>
      let H := fresh "H" in
      assert (H : Api.serve E absent r w
                  = (Raise (side (no_attribute "BackupService" name)),
                     with_session ∅ w)) by reflexivity;
      rewrite H; cbn [fst snd];
      split_and!; try reflexivity;
      exists name; split; [apply missing_method; reflexivity | auto]
  end.

(** X18: of the ten routes of api/backups.py only GET /status/{backup_id}
    can answer.  Eight of them begin with a call of a method that class
    BackupService does not define: the request ends there, with the
    AttributeError, or with HTTP 400 carrying its text where the handler
    catches Exception (POST /jobs and PUT /jobs/{job_id}), whatever the
    method would have done; the calls of the scheduler that follow in these
    handlers (reschedule_job, pause_job, resume_job) are never reached.  The
    manual run is answered with an error too.  So no request changes
    running_jobs, the tasks, the jobs table or the notification settings,
    every request leaves its session closed, and all but the manual run
    leave the table of backups and the outside as they were. *)
Theorem only_the_status_route_can_answer E absent r w :
  let res := Api.serve E absent r w in
  running_jobs res.2 = running_jobs w /\ tasks res.2 = tasks w
  /\ backup_jobs res.2 = backup_jobs w
  /\ notification_settings res.2 = notification_settings w
  /\ session res.2 = ∅
  /\ match r with
     | Api.Status _ => backups res.2 = backups w /\ trace res.2 = trace w
     | Api.RunJob _ => exists e, res.1 = Raise e
     | _ =>
         exists name,
           (name ∉ BackupService_methods)
           /\ (res = (Raise (Exception "AttributeError"
                               (no_attribute "BackupService" name)),
                      with_session ∅ w)
               \/ res = (Raise (HTTPException 400
                                  (no_attribute "BackupService" name)),
                         with_session ∅ w))
     end.
Proof.
  destruct r as [u d|d|j|j d|j|j|j l|b|j|j]; cbn zeta.
  - refused "create_backup_job" (HTTPException 400).
  - refused "list_backup_jobs" (Exception "AttributeError").
  - refused "get_backup_job" (Exception "AttributeError").
  - refused "update_backup_job" (HTTPException 400).
  - refused "delete_backup_job" (Exception "AttributeError").
  - unfold Api.serve, bind.
    destruct (blind_preserves (run_backup_job E j) w (blind_run_backup_job E j))
      as [Hrj Hts].
    assert (Hcfg : configured (backup_jobs w) (notification_settings w)
                     (run_backup_job E j w).2).
    { assert (Hk : keeps (configured (backup_jobs w) (notification_settings w))
                     (run_backup_job E j)) by (services; solve_keeps).
      apply Hk. split; reflexivity. }
    destruct Hcfg as [Hjobs Hns].
    pose proof (run_backup_job_eq E j w) as Heq.
    destruct (create_backup E j (with_session ∅ w)) as [[bid|e] w1];
      rewrite Heq in *; cbn [fst snd] in *; split_and!; auto; eauto.
  - refused "get_backup_history" (Exception "AttributeError").
  - assert (H : (Api.serve E absent (Api.Status b) w).2 = with_session ∅ w).
    { unfold Api.serve, Api.get_backup_status, Api.with_db, get_backup_status,
        try_finally, db_close, bind, gets, modify, ret, raise.
      match goal with
      | |- context [List.find ?f ?l] => destruct (List.find f l)
      end; reflexivity. }
    rewrite H. split_and!; reflexivity.
  - refused "pause_backup_job" (Exception "AttributeError").
  - refused "resume_backup_job" (Exception "AttributeError").
Qed.

(** X19: DELETE /files/{backup_id} and POST /cleanup/{job_id} of
    api/storage.py delete nothing: each begins with a call of a method that
    class StorageService does not define (get_backup, get_backup_job), the
    AttributeError is caught by the handler, and the answer is HTTP 500 with
    the handler's prefix before the text of the error.  StorageService's
    delete_backup and cleanup_old_backups are not reached: the world is left
    as it was found, its session closed. *)
Theorem storage_routes_stop_at_the_lookup E absent id w :
  Api.delete_backup_file E absent id w
  = (Raise (HTTPException 500
              ("Error deleting backup file: "
               +:+ no_attribute "StorageService" "get_backup")),
     with_session ∅ w)
  /\ Api.cleanup_old_backups E absent id w
     = (Raise (HTTPException 500
                 ("Error during cleanup: "
                  +:+ no_attribute "StorageService" "get_backup_job")),
        with_session ∅ w)
  /\ ("get_backup" ∉ StorageService.methods)
  /\ ("get_backup_job" ∉ StorageService.methods).
Proof.
  split_and!; [reflexivity | reflexivity | |];
    apply (bool_decide_eq_false_1 _); reflexivity.
Qed.

(** ** The recorded status *)

Lemma status_step_refl s : status_step s s.
Proof. left. reflexivity. Qed.

Lemma rows_stay (rows : list Backup) :
  Forall2 (fun r r' => backup_id r' = backup_id r
                       /\ status_step (status r) (status r')) rows rows.
Proof.
  induction rows as [|r rows IH]; constructor; [|exact IH].
  split; [reflexivity | apply status_step_refl].
Qed.

Lemma commit_step_add rows b :
  status b = PENDING -> commit_step rows (rows ++ [b]).
Proof.
  intros Hb. exists rows, [b].
  split; [reflexivity|]. split; [apply rows_stay|].
  constructor; [exact Hb | constructor].
Qed.

Lemma commit_step_last rows c b :
  backup_id b = backup_id c -> status_step (status c) (status b) ->
  commit_step (rows ++ [c]) (rows ++ [b]).
Proof.
  intros Hid Hst. exists (rows ++ [b]), []. rewrite app_nil_r.
  split; [reflexivity|]. split; [|constructor].
  apply Forall2_app; [apply rows_stay|].
  constructor; [split; assumption | constructor].
Qed.

Lemma last_nonempty {A} (a : A) l x y : List.last (a :: l) x = List.last (a :: l) y.
Proof.
  revert a. induction l as [|b l IH]; intros a; [reflexivity|].
  change (List.last (b :: l) x = List.last (b :: l) y). apply IH.
Qed.

Lemma stepwise_app {A} (R : A -> A -> Prop) x l1 l2 :
  stepwise R x l1 -> stepwise R (List.last l1 x) l2 -> stepwise R x (l1 ++ l2).
Proof.
  revert x. induction l1 as [|y l1 IH]; intros x H1 H2; [exact H2|].
  destruct H1 as [Hxy H1]. split; [exact Hxy|]. apply IH; [exact H1|].
  destruct l1 as [|a l1]; [exact H2|].
  rewrite (last_nonempty a l1 y x). exact H2.
Qed.

Lemma last_snoc {A} (l : list A) x d : List.last (l ++ [x]) d = x.
Proof. apply List.last_last. Qed.

Lemma logged_same j0 rows0 bid st w w' :
  journal w' = journal w -> backups w' = backups w ->
  logged j0 rows0 bid st w -> logged j0 rows0 bid st w'.
Proof.
  intros Hj Hb (commits & c & H). exists commits, c. rewrite Hj, Hb. exact H.
Qed.

Section Journal.

Variables (E : Env) (bid j : Z) (rows0 : list Backup) (j0 : list (list Backup)).

Hypothesis Hnodup : NoDup (map backup_id rows0).
Hypothesis Hfresh : forall r, r ∈ rows0 -> backup_id r <> bid.

Lemma inv_lift {A} (m : M A) Q Q' st RT :
  triple (tracked bid j rows0 Q) m (fun _ => tracked bid j rows0 Q') RT ->
  (forall jn rows, keeps (fun w => journal w = jn /\ backups w = rows) m) ->
  triple (attempt_inv j0 rows0 bid j Q st) m (fun _ => attempt_inv j0 rows0 bid j Q' st)
         (fun e w => RT e w /\ logged j0 rows0 bid st w).
Proof.
  intros Ht Hk w [Hw Hl]. specialize (Ht w Hw).
  destruct (Hk (journal w) (backups w) w (conj eq_refl eq_refl)) as [Hj Hb].
  destruct (m w) as [[a|e] w1]; cbn [snd] in *;
    (split; [exact Ht | apply (logged_same _ _ _ _ w); assumption]).
Qed.

Lemma inv_commit Q st sb R :
  (forall b, Q b -> status b = sb) -> status_step st sb ->
  triple (attempt_inv j0 rows0 bid j Q st) db_commit
         (fun _ w => settled bid j rows0 Q w /\ logged j0 rows0 bid sb w) R.
Proof.
  intros HQ Hstep w [Hw Hl].
  pose proof (commit_settles bid j rows0 Hnodup Hfresh Q R w Hw) as Hs.
  unfold db_commit, modify in *. cbv zeta in *.
  split; [exact Hs|].
  destruct Hs as (b & Hb & Hid & Hj & Hq & Hrows & _).
  destruct Hl as (commits & c & Hjn & Hsteps & Hlast & Htab & Hc & Hst).
  cbn [backups session journal with_backups with_journal] in *.
  exists (commits ++ [rows0 ++ [b]]), b.
  split_and!.
  - rewrite Hjn, <- app_assoc, Hrows. reflexivity.
  - apply stepwise_app; [exact Hsteps|]. cbn [stepwise]. split; [|exact I].
    rewrite <- Hlast, Htab. apply commit_step_last; [congruence|].
    rewrite Hst, (HQ b Hq). exact Hstep.
  - rewrite last_snoc. exact Hrows.
  - exact Hrows.
  - exact Hid.
  - apply HQ, Hq.
Qed.


Lemma inv_pre {A} (P : World -> Prop) (m : M A) Q st Q1 R :
  triple (attempt_inv j0 rows0 bid j Q st) m Q1 R ->
  (forall w, P w -> attempt_inv j0 rows0 bid j Q st w) -> triple P m Q1 R.
Proof. intros Hm HP. eapply triple_pre; [exact Hm | exact HP]. Qed.

(** A step of the attempt that leaves session, table and journal alone. *)
Ltac untouched := intros; services; solve_keeps.

Ltac quiet2 :=
  cbv zeta;
  eapply triple_bind;
    [ apply inv_lift;
      [ apply step_frame;
        [ apply common_tracked
        | untouched
        | intros ? ?; services;
          unfold bind, ret, raise, lift, gets, modify, utcnow;
          repeat case_match; intros ? ? ?; cbn [fst] in *; simplify_eq;
          match goal with
          | H : tracked _ _ _ _ _ |- _ =>
              split; [ first [ exact H
                             | eapply tracked_weaken; [|exact H]; intros; exact I ]
                     | cbn; discriminate ]
          end ]
      | untouched ]
    | intros ?; cbv beta ].

Ltac attr2 Q1 :=
  eapply triple_bind;
    [ eapply triple_raise;
      [ apply (inv_lift _ _ Q1 _ (fun _ _ => False));
        [ first [ apply assign_status_tracks
                | apply setattr_tracks; [intros ?; split; reflexivity|] ]
        | untouched ]
      | intros ? ? [[] _] ]
    | intros ?; cbv beta ].

Lemma handle_backup_error_logged Q st msg :
  status_step st FAILED ->
  triple (attempt_inv j0 rows0 bid j Q st) (_handle_backup_error E bid msg)
         (fun _ w => settled bid j rows0 failed w /\ logged j0 rows0 bid FAILED w)
         (fun _ w => settled bid j rows0 failed w /\ logged j0 rows0 bid FAILED w).
Proof.
  intros Hstep. unfold _handle_backup_error.
  attr2 (fun b => status b = FAILED); [reflexivity|].
  attr2 (fun b => status b = FAILED /\ is_Some (error_message b)).
  { intros b Hb. split; [exact Hb | cbn; eauto]. }
  eapply triple_bind.
  { eapply triple_raise.
    - apply inv_lift; [|untouched].
      apply step_frame with (R := fun _ _ => False);
        [apply common_tracked | untouched | intros w e; discriminate].
    - intros ? ? [[] _]. }
  intros now. cbv beta.
  attr2 failed.
  { intros b [Hb Hm]. split; [exact Hb|]. split; [exact Hm | cbn; eauto]. }
  eapply triple_bind.
  { apply (inv_commit failed st FAILED); [intros b Hb; apply Hb | exact Hstep]. }
  intros ?. cbv beta. unfold send_backup_failure_notification.
  intros w [Hs Hl].
  pose proof (step_frame (settled bid j rows0 failed)
                (send_notification E "send_backup_failure_notification" backup_failure
                   "Backup Failed - " bid)
                (fun _ => settled bid j rows0 failed)
                (common_settled _ _ _ _)
                ltac:(untouched)
                ltac:(intros w0 e _ w' Hw'; exact Hw') w Hs) as H1.
  assert (Hk : keeps (fun w' => journal w' = journal w /\ backups w' = backups w)
                 (send_notification E "send_backup_failure_notification" backup_failure
                    "Backup Failed - " bid)) by untouched.
  specialize (Hk w (conj eq_refl eq_refl)). destruct Hk as [Hj Hb].
  destruct (send_notification E _ _ _ bid w) as [[?|?] w1]; cbn [snd] in *;
    (split; [exact H1 | apply (logged_same _ _ _ _ w); assumption]).
Qed.

Lemma cleanup_keeps_table job jn rows :
  keeps (fun w => journal w = jn /\ backups w = rows) (_cleanup_old_backups E job).
Proof.
  intros w [Hj Hb].
  destruct (cleanup_old_backups_loads E job w) as (r & evs & rws & n & -> & _).
  cbn. auto.
Qed.

Lemma perform_backup_logged Q :
  triple (attempt_inv j0 rows0 bid j Q PENDING) (_perform_backup E bid)
         (fun _ w => settled bid j rows0 completed w
                     /\ logged j0 rows0 bid COMPLETED w)
         (fun e w => (settled bid j rows0 failed w /\ logged j0 rows0 bid FAILED w)
                     \/ (is_Exception e = false
                         /\ settled bid j rows0 completed w
                         /\ logged j0 rows0 bid COMPLETED w)).
Proof.
  unfold _perform_backup.
  attr2 (fun b => status b = IN_PROGRESS); [reflexivity|].
  eapply triple_bind.
  { apply (inv_commit (fun b => status b = IN_PROGRESS) PENDING IN_PROGRESS);
      [auto | right; left; auto]. }
  intros ?. cbv beta.
  apply triple_try_finally
    with (Q1 := fun _ => attempt_inv j0 rows0 bid j completed IN_PROGRESS)
         (R1 := fun e w => (settled bid j rows0 failed w
                            /\ logged j0 rows0 bid FAILED w)
                           \/ (is_Exception e = false
                               /\ attempt_inv j0 rows0 bid j completed IN_PROGRESS w)).
  - apply triple_try_except
      with (R1 := fun e w => (tracked bid j rows0 (fun _ => True) w
                              /\ (is_Exception e = false ->
                                  tracked bid j rows0 completed w))
                             /\ logged j0 rows0 bid IN_PROGRESS w).
    + apply inv_pre with (Q := fun _ : Backup => True) (st := IN_PROGRESS).
      2:{ intros w [Hs Hl]. split; [|exact Hl].
          apply settled_tracked. eapply settled_weaken; [|exact Hs]. intros; exact I. }
      quiet2.
      match goal with
      | |- triple _ (match ?x with _ => _ end) _ _ => destruct x as [backup_job|]
      end.
      2:{ unfold getattr, bind, raise. intros w [Hw Hl].
          split; [split; [exact Hw | discriminate] | exact Hl]. }
      do 6 quiet2.
      attr2 (fun b => status b = COMPLETED); [reflexivity|].
      attr2 (fun b => status b = COMPLETED /\ is_Some (file_path b)).
      { intros b Hb. split; [exact Hb | cbn; eauto]. }
      attr2 (fun b => status b = COMPLETED /\ is_Some (file_path b)
                      /\ is_Some (cloud_storage_path b)).
      { intros b (H1 & H2). split_and!; [exact H1 | exact H2 | cbn; eauto]. }
      quiet2.
      attr2 (fun b => status b = COMPLETED /\ is_Some (file_path b)
                      /\ is_Some (cloud_storage_path b) /\ is_Some (file_size b)).
      { intros b (H1 & H2 & H3). split_and!; [exact H1 | exact H2 | exact H3 | cbn; eauto]. }
      quiet2.
      attr2 completed.
      { intros b (H1 & H2 & H3 & H4). unfold completed.
        split_and!; [exact H1 | exact H2 | exact H3 | exact H4 | cbn; eauto]. }
      eapply triple_bind.
      { eapply triple_raise.
        - apply inv_lift; [apply cleanup_tracks; assumption|].
          intros. apply cleanup_keeps_table.
        - intros e w [[He Hw] Hl]. split; [split; [|congruence] | exact Hl].
          eapply tracked_weaken; [|exact Hw]. intros; exact I. }
      intros ?. cbv beta.
      unfold send_backup_success_notification.
      apply inv_lift; [|untouched].
      apply step_frame; [apply common_tracked | untouched |].
      intros w e _ w' Hw'. split; [|auto].
      eapply tracked_weaken; [|exact Hw']. intros; exact I.
    + intros e He. eapply triple_bind.
      { apply inv_pre with (Q := fun _ : Backup => True) (st := IN_PROGRESS).
        - eapply triple_raise.
          + apply (handle_backup_error_logged (fun _ => True) IN_PROGRESS).
            right; right; auto.
          + intros e' w Hw. left. exact Hw.
        - intros w [[Hw _] Hl]. split; assumption. }
      intros ?. cbv beta. intros w Hw. left. exact Hw.
    + intros e w He [[_ Hw] Hl]. right. split; [exact He|]. split; auto.
  - intros ?. apply (inv_commit completed IN_PROGRESS COMPLETED);
      [intros b Hb; apply Hb | right; right; auto].
  - intros e w [[Hs Hl]|[He Hw]].
    + assert (Hi : attempt_inv j0 rows0 bid j failed FAILED w)
        by (split; [apply settled_tracked, Hs | exact Hl]).
      pose proof (inv_commit failed FAILED FAILED (fun _ _ => False)
                    ltac:(intros b Hb; apply Hb) (status_step_refl _) w Hi) as Hc.
      destruct (db_commit w) as [[[]|e'] w']; [left; exact Hc | destruct Hc].
    + pose proof (inv_commit completed IN_PROGRESS COMPLETED (fun _ _ => False)
                    ltac:(intros b Hb; apply Hb)
                    ltac:(right; right; auto) w Hw) as Hc.
      destruct (db_commit w) as [[[]|e'] w']; [right; auto | destruct Hc].
Qed.

Lemma attempt_logged Q :
  triple (attempt_inv j0 rows0 bid j Q PENDING)
         (try_except (_perform_backup E bid ;; ret bid)
                     (fun e => _handle_backup_error E bid (str e) ;; raise e))
         (fun _ w => logged j0 rows0 bid COMPLETED w)
         (fun _ w => logged j0 rows0 bid FAILED w \/ logged j0 rows0 bid COMPLETED w).
Proof.
  apply triple_try_except
    with (R1 := fun e w => (settled bid j rows0 failed w
                            /\ logged j0 rows0 bid FAILED w)
                           \/ (is_Exception e = false
                               /\ settled bid j rows0 completed w
                               /\ logged j0 rows0 bid COMPLETED w)).
  - eapply triple_bind; [apply perform_backup_logged|].
    intros ?. cbv beta. intros w [_ Hw]. exact Hw.
  - intros e He. eapply triple_bind.
    { apply inv_pre with (Q := fun _ : Backup => True) (st := FAILED).
      - eapply triple_raise.
        + apply (handle_backup_error_logged (fun _ => True) FAILED).
          apply status_step_refl.
        + intros e' w [_ Hw]. left. exact Hw.
      - intros w [[Hs Hl]|[Hf _]]; [|congruence].
        split; [|exact Hl].
        apply settled_tracked. eapply settled_weaken; [|exact Hs]. intros; exact I. }
    intros ?. cbv beta. intros w [_ Hw]. left. exact Hw.
  - intros e w He [[_ Hl]|(_ & _ & Hl)]; auto.
Qed.


End Journal.

Lemma committed_stepwise_same w w' :
  NoDup (map backup_id (backups w)) ->
  journal w' = journal w -> backups w' = backups w -> committed_stepwise w w'.
Proof.
  intros Hnd Hj Hb. exists []. rewrite app_nil_r, Hb. cbn. auto.
Qed.

Lemma create_backup_journal E j w :
  session w = ∅ ->
  NoDup (map backup_id (backups w)) ->
  committed_stepwise w (create_backup E j w).2.
Proof.
  intros Hs Hnd.
  set (bid := next_backup_id (backups w)).
  assert (Hfresh : forall r, r ∈ backups w -> backup_id r <> bid).
  { intros r Hr. pose proof (next_backup_id_fresh _ _ Hr). subst bid. lia. }
  unfold create_backup, bind at 1, query_job, bind at 1, gets at 1, ret at 1.
  destruct (List.find _ (backup_jobs w)) as [job|].
  2:{ apply committed_stepwise_same; [exact Hnd | reflexivity..]. }
  unfold bind at 1, utcnow at 1.
  unfold bind at 1, db_add_commit, bind at 1, utcnow at 1.
  unfold bind at 1, gets at 1. unfold bind at 1, modify at 1.
  unfold bind at 1, emit at 1, modify at 1. unfold ret at 1.
  cbn [backups with_reads with_backups with_session with_trace with_journal
       trace reads session journal].
  fold bid.
  match goal with |- context [try_except ?m ?h ?w1] =>
    pose proof (attempt_logged E bid j (backups w) (journal w) Hnd Hfresh
                  (fun _ => True) w1) as H
  end.
  match type of H with ?P -> _ => assert (Hpre : P) end.
  { split.
    - eexists _, _. cbn [session backups]. split; [apply lookup_insert_eq|].
      split; [reflexivity|]. split; [reflexivity|]. split; [exact I|].
      split; [reflexivity|]. split; [reflexivity|].
      intros k r Hk. cbn [session with_trace with_session with_backups with_reads
                          with_journal].
      rewrite lookup_insert_ne by congruence. rewrite Hs, lookup_empty.
      discriminate.
    - eexists [_], _. cbn [journal backups stepwise List.last].
      split; [reflexivity|]. split; [split; [|exact I]|].
      + apply commit_step_add. reflexivity.
      + split; [reflexivity|]. split; [reflexivity|]. split; reflexivity. }
  specialize (H Hpre). clear Hpre.
  match type of H with
  | match ?x with _ => _ end => destruct x as [[a|e] w']
  end; cbn [snd].
  - destruct H as (commits & c & Hj & Hst & Hlast & Htab & Hc & _).
    exists commits. split_and!; try assumption.
    rewrite Htab, map_app. apply NoDup_app. split; [exact Hnd|]. split.
    + intros x Hx Hin. apply list_elem_of_singleton in Hin. subst x.
      apply list_elem_of_fmap in Hx as (r & Hr & Hin). apply (Hfresh r Hin). congruence.
    + apply NoDup_singleton.
  - assert (H' : exists st, logged (journal w) (backups w) bid st w')
      by (destruct H; eauto).
    destruct H' as (st & commits & c & Hj & Hst & Hlast & Htab & Hc & _).
    exists commits. split_and!; try assumption.
    rewrite Htab, map_app. apply NoDup_app. split; [exact Hnd|]. split.
    + intros x Hx Hin. apply list_elem_of_singleton in Hin. subst x.
      apply list_elem_of_fmap in Hx as (r & Hr & Hin). apply (Hfresh r Hin). congruence.
    + apply NoDup_singleton.
Qed.

Lemma committed_stepwise_ext w w' w1 w1' :
  journal w1 = journal w -> backups w1 = backups w ->
  journal w1' = journal w' -> backups w1' = backups w' ->
  committed_stepwise w w' -> committed_stepwise w1 w1'.
Proof.
  intros Hj Hb Hj' Hb' (commits & H). exists commits.
  rewrite Hj, Hb, Hj', Hb'. exact H.
Qed.

Lemma last_app_default {A} (l1 l2 : list A) x :
  List.last (l1 ++ l2) x = List.last l2 (List.last l1 x).
Proof.
  revert x. induction l1 as [|y l1 IH]; intros x; [reflexivity|].
  destruct l1 as [|z l1].
  - destruct l2 as [|a l2]; [reflexivity|]. cbn [app]. apply (last_nonempty a l2).
  - change (List.last ((z :: l1) ++ l2) x = List.last l2 (List.last (z :: l1) x)).
    apply IH.
Qed.

Lemma committed_stepwise_trans w1 w2 w3 :
  committed_stepwise w1 w2 -> committed_stepwise w2 w3 -> committed_stepwise w1 w3.
Proof.
  intros (c1 & Hj1 & Hs1 & Hl1 & _) (c2 & Hj2 & Hs2 & Hl2 & Hnd).
  exists (c1 ++ c2). split_and!.
  - rewrite Hj2, Hj1, app_assoc. reflexivity.
  - apply stepwise_app; [exact Hs1 | rewrite <- Hl1; exact Hs2].
  - rewrite last_app_default, <- Hl1. exact Hl2.
  - exact Hnd.
Qed.

Lemma run_backup_journal E j w :
  journal (_run_backup E j w).2 = journal (create_backup E j (with_session ∅ w)).2
  /\ backups (_run_backup E j w).2 = backups (create_backup E j (with_session ∅ w)).2.
Proof.
  split; [|apply run_backup_backups].
  unfold _run_backup, bind at 1, db_close at 1, modify at 1.
  unfold try_finally, try_except, bind at 1.
  destruct (create_backup E j (with_session ∅ w)) as [[bid|e] w1]; cbn [snd].
  - unfold ret. rewrite run_backup_finally_eq. reflexivity.
  - destruct (is_Exception e).
    + unfold print, emit, modify. rewrite run_backup_finally_eq. reflexivity.
    + rewrite run_backup_finally_eq. reflexivity.
Qed.

Lemma perform_journal E a w :
  NoDup (map backup_id (backups w)) -> committed_stepwise w (perform E a w).2.
Proof.
  intros Hnd.
  assert (Hquiet : forall m : M unit,
            keeps (fun w' => journal w' = journal w /\ backups w' = backups w) m ->
            committed_stepwise w (m w).2).
  { intros m Hk. destruct (Hk w (conj eq_refl eq_refl)) as [Hj Hb].
    apply committed_stepwise_same; assumption. }
  assert (Hrun : forall k, committed_stepwise w (create_backup E k (with_session ∅ w)).2).
  { intros k.
    apply (committed_stepwise_ext (with_session ∅ w)
             (create_backup E k (with_session ∅ w)).2); try reflexivity.
    apply create_backup_journal; [reflexivity | exact Hnd]. }
  destruct a as [|k|k|k|tid|k|k]; cbn [perform].
  - apply Hquiet. services; solve_keeps.
  - apply Hquiet. services; solve_keeps.
  - apply Hquiet. services; solve_keeps.
  - apply Hquiet. services; solve_keeps.
  - rewrite run_task_eq.
    destruct (tasks w !! tid) as [t|];
      [|apply committed_stepwise_same; [exact Hnd | reflexivity..]].
    destruct (task_done t);
      [apply committed_stepwise_same; [exact Hnd | reflexivity..]|].
    destruct (cancel_requested t);
      [apply committed_stepwise_same; [exact Hnd | reflexivity..]|].
    unfold bind, swallow, mark_done, modify. cbn [snd].
    destruct (run_backup_journal E (task_job t) w) as [Hj Hb].
    eapply committed_stepwise_ext; [reflexivity | reflexivity | | | apply (Hrun (task_job t))].
    + cbn [journal with_tasks]. exact Hj.
    + cbn [backups with_tasks]. exact Hb.
  - apply Hquiet. services; solve_keeps.
  - unfold swallow. cbn [snd]. rewrite run_backup_job_eq.
    eapply committed_stepwise_ext; [reflexivity | reflexivity | | | apply (Hrun k)];
      destruct (create_backup E k (with_session ∅ w)) as [[a|e] w1]; reflexivity.
Qed.

Lemma perform_all_journal E l w :
  NoDup (map backup_id (backups w)) -> committed_stepwise w (perform_all E l w).
Proof.
  revert w. induction l as [|a l IH]; intros w Hnd; cbn [perform_all].
  - apply committed_stepwise_same; [exact Hnd | reflexivity..].
  - pose proof (perform_journal E a w Hnd) as H1.
    eapply committed_stepwise_trans; [exact H1|].
    apply IH. destruct H1 as (c & _ & _ & _ & H). exact H.
Qed.

Lemma commit_step_terminal t t' i r :
  commit_step t t' -> t !! i = Some r -> terminal (status r) = true ->
  exists r', t' !! i = Some r' /\ backup_id r' = backup_id r /\ status r' = status r.
Proof.
  intros (kept & new & -> & Hkept & _) Hi Hterm.
  destruct (Forall2_lookup_l _ _ _ _ _ Hkept Hi) as (r' & Hr' & Hid & Hst).
  exists r'. split; [apply lookup_app_l_Some, Hr'|]. split; [exact Hid|].
  destruct Hst as [H|[[H _]|[H _]]]; [exact H | rewrite H in Hterm; discriminate..].
Qed.

Lemma stepwise_terminal t commits i r :
  stepwise commit_step t commits -> t !! i = Some r -> terminal (status r) = true ->
  Forall (fun t' => exists r', t' !! i = Some r' /\ backup_id r' = backup_id r
                               /\ status r' = status r) commits.
Proof.
  revert t r. induction commits as [|t' commits IH]; intros t r Hs Hi Hterm;
    [constructor|].
  destruct Hs as [Hstep Hs].
  destruct (commit_step_terminal t t' i r Hstep Hi Hterm) as (r' & Hr' & Hid & Hst).
  constructor; [eauto|].
  eapply Forall_impl; [apply (IH t' r' Hs Hr'); congruence|].
  intros t'' (r'' & H1 & H2 & H3). exists r''. split; [exact H1|]. split; congruence.
Qed.

Lemma stepwise_from {A} (R : A -> A -> Prop) x l before t after :
  stepwise R x l -> x :: l = before ++ t :: after -> stepwise R t after.
Proof.
  revert x l. induction before as [|y before IH]; intros x l Hs Heq.
  - cbn in Heq. injection Heq as -> ->. exact Hs.
  - cbn in Heq. injection Heq as -> ->.
    destruct before as [|z before]; cbn in Hs |- *.
    + destruct Hs as [_ Hs]. exact Hs.
    + destruct Hs as [_ Hs]. apply (IH z (before ++ t :: after)); [exact Hs | reflexivity].
Qed.

(** C5: the status of a Backup, as the table of backups records it, only
    moves forward along Pending, InProgress, then Completed or Failed.
    Through any sequence of operations of the scheduler, of the executor
    with its error handling and its retention sweep, and of manual runs,
    every commit leaves every row in its place under its id, with the
    status it had or one step on, and adds rows only as Pending; the table
    changes at commits only.  So a row that a commit has left Completed or
    Failed has that status in every later commit: Completed and Failed are
    absorbing.  (The ids of the table are distinct, as with a primary
    key.) *)
Theorem recorded_status_only_moves_forward E l w :
  NoDup (map backup_id (backups w)) ->
  exists commits,
    journal (perform_all E l w) = journal w ++ commits
    /\ stepwise commit_step (backups w) commits
    /\ backups (perform_all E l w) = List.last commits (backups w)
    /\ (forall before t after i r,
          backups w :: commits = before ++ t :: after ->
          t !! i = Some r -> terminal (status r) = true ->
          Forall (fun t' => exists r', t' !! i = Some r'
                                       /\ backup_id r' = backup_id r
                                       /\ status r' = status r) after).
Proof.
  intros Hnd.
  destruct (perform_all_journal E l w Hnd) as (commits & Hj & Hs & Hl & _).
  exists commits. split_and!; try assumption.
  intros before t after i r Heq Hi Hterm.
  apply (stepwise_terminal t after i r); [|assumption..].
  apply (stepwise_from commit_step (backups w) commits before); assumption.
Qed.

Lemma recorded_status_only_moves_forward_witness :
  exists commits,
    journal (perform_all calm [RunTask 0; RunNow 1; Poll] busy)
    = journal busy ++ commits
    /\ stepwise commit_step (backups busy) commits
    /\ backups (perform_all calm [RunTask 0; RunNow 1; Poll] busy)
       = List.last commits (backups busy).
Proof.
  destruct (recorded_status_only_moves_forward calm [RunTask 0; RunNow 1; Poll] busy)
    as (commits & Hj & Hs & Hl & _).
  - repeat constructor. set_solver.
  - exists commits. split; [exact Hj|]. split; [exact Hs | exact Hl].
Defined.

(** ** What the code attempts and misses *)

Lemma schedule_job_keeps_tables E job w :
  backup_jobs (_schedule_job E job w).2 = backup_jobs w
  /\ backups (_schedule_job E job w).2 = backups w.
Proof.
  assert (Hk : keeps (fun w' => backup_jobs w' = backup_jobs w
                                /\ backups w' = backups w) (_schedule_job E job))
    by (services; solve_keeps).
  apply Hk. split; reflexivity.
Qed.

(** C10 (the code at the failing input): the first poll of a scheduler that
    finds job 1, which has never run, computes a next_run five minutes
    ahead and creates and registers the task at once; the value goes to the
    job object and not to the table, where next_run stays unset ([db] in
    [_schedule_job] is a session opened there, which holds no object, and
    the session of the caller is closed without a commit).  The task runs;
    the next poll, microseconds later and well before the computed
    next_run, finds the job as due as before and creates a second task.
    No call of [_schedule_job] changes a table. *)
Theorem computed_next_run_never_reaches_the_table :
  let w1 := (_schedule_pending_jobs calm bare).2 in
  let w2 := (run_task calm 0 w1).2 in
  let w3 := (_schedule_pending_jobs calm w2).2 in
  (_schedule_job calm nightly (with_reads 1 bare)).1
    = Return (set_next_run (Some (noon + 1 + timedelta_minutes 5)) nightly)
  /\ tasks w1 = [mkTask 1 false false] /\ running_jobs w1 !! 1 = Some 0%nat
  /\ backup_jobs w1 = [nightly] /\ next_run nightly = None
  /\ tasks w2 = [mkTask 1 false true] /\ running_jobs w2 !! 1 = None
  /\ clock calm (reads w2) < noon + 1 + timedelta_minutes 5
  /\ tasks w3 = [mkTask 1 false true; mkTask 1 false false]
  /\ running_jobs w3 !! 1 = Some 1%nat
  /\ backup_jobs w3 = [nightly]
  /\ (forall E job w,
        backup_jobs (_schedule_job E job w).2 = backup_jobs w
        /\ backups (_schedule_job E job w).2 = backups w).
Proof.
  cbv zeta.
  do 11 (split; [vm_compute; reflexivity|]).
  intros E job w. apply schedule_job_keeps_tables.
Qed.

Lemma filter_old_backups_attempt job cutoff rows c :
  status c = IN_PROGRESS ->
  List.filter (is_old_backup job cutoff) (rows ++ [c])
  = List.filter (is_old_backup job cutoff) rows.
Proof.
  intros Hc. rewrite List.filter_app. cbn [List.filter].
  unfold is_old_backup at 2. rewrite Hc.
  rewrite bool_decide_eq_false_2 by discriminate.
  rewrite andb_false_r, app_nil_r. reflexivity.
Qed.

Lemma flush_fresh (bid : Z) (b : Backup) (rows : list Backup) :
  (forall r, r ∈ rows -> backup_id r <> bid) ->
  flush (<[bid := b]> ∅) rows = rows.
Proof.
  intros Hfresh. apply flush_id. intros r r' Hr Hs.
  rewrite lookup_insert_ne in Hs by (intros Heq; apply (Hfresh r Hr); congruence).
  rewrite lookup_empty in Hs. discriminate.
Qed.

(** The sweep within a run.  An attempt reaches its sweep when its adapter
    calls have succeeded and the size of the file was read; the table then
    has the backup of the attempt as InProgress, so the candidates of the
    sweep are rows that the table had before the run: the Completed backups
    of the job that are older than the window.  The backup of the run
    itself, the newest, is never one of them. *)
Lemma sweep_of_a_run_spares_the_attempt E j w job d size :
  session w = ∅ ->
  List.find (fun job => job_id job =? j) (backup_jobs w) = Some job ->
  database job = Some d ->
  let bid := next_backup_id (backups w) in
  let filename :=
    "backup_" +:+ db_name d +:+ "_" +:+ strftime E (clock E (2 + reads w)%nat)
    +:+ ".bak" in
  let local_path := os_path_join (BACKUP_STORAGE_PATH E) filename in
  let cloud_path := "/" +:+ db_name d +:+ "/" +:+ filename in
  let backup_cmd := _create_backup_command (db_name d) local_path (backup_type job) in
  pyodbc_connect E (connection_string d) = None ->
  cursor_execute E backup_cmd = None ->
  open_read E local_path = None ->
  files_upload E cloud_path = None ->
  getsize E local_path = inr size ->
  Z.abs (retention_days job) <= timedelta_max_days ->
  0 <= clock E (4 + reads w)%nat - retention_days job * MICROSECONDS_PER_DAY
    <= datetime_max ->
  let cutoff := clock E (4 + reads w)%nat - retention_days job * MICROSECONDS_PER_DAY in
  let old := List.filter (is_old_backup job cutoff) (backups w) in
  exists mail,
    trace (create_backup E j w).2 =
      trace w
      ++ [ EvStatus bid PENDING; EvStatus bid IN_PROGRESS;
           EvConnect (connection_string d); EvExecute backup_cmd;
           EvUpload cloud_path; EvStatus bid COMPLETED;
           EvCall "_cleanup_old_backups" j ]
      ++ concat (map (cleanup_events E) old)
      ++ EvCall "send_backup_success_notification" bid :: mail
    /\ forallb is_effect mail = true
    /\ (forall b, b ∈ old -> b ∈ backups w /\ backup_id b <> bid
                             /\ status b = COMPLETED /\ created_at b < cutoff).
Proof.
  intros Hs Hfind Hd bid filename local_path cloud_path backup_cmd
         Hconn Hexec Hopen Hup Hsize Hdays Hcut cutoff old.
  assert (Hj : job_id job = j)
    by (apply find_some in Hfind as [_ H]; apply Z.eqb_eq in H; exact H).
  assert (Hfresh : forall r, r ∈ backups w -> backup_id r <> bid).
  { intros r Hr. pose proof (next_backup_id_fresh _ _ Hr). subst bid. lia. }
  assert (Hold : forall b, b ∈ old -> b ∈ backups w /\ backup_id b <> bid
                             /\ status b = COMPLETED /\ created_at b < cutoff).
  { intros b Hb. apply list_elem_of_In, filter_In in Hb as [Hin Hb].
    apply list_elem_of_In in Hin. apply is_old_backup_spec in Hb as (_ & Hc & Hst).
    auto. }
  destruct w as [r jobs rows ns s tr rj ts jn]. cbn in Hs, Hfind, Hcut, Hfresh. subst s.
  subst old cutoff backup_cmd cloud_path local_path filename bid.
  cbn [backups reads trace backup_jobs Nat.add] in *.
  unfold create_backup. run. rewrite Hfind. run.
  unfold _perform_backup. run.
  rewrite !alter_insert_eq, lookup_insert_eq. run. rewrite Hfind. run.
  rewrite Hd. run. rewrite Hconn. run. rewrite Hexec. run. rewrite Hopen. run.
  rewrite Hup. run. rewrite Hsize. run. rewrite !alter_insert_eq. run.
  match goal with |- context [_cleanup_old_backups E job ?W] =>
    rewrite (cleanup_old_backups_eq E job W Hdays Hcut)
  end.
  run. unfold send_backup_success_notification.
  match goal with |- context [send_notification E ?m ?en ?pre ?k ?W] =>
    eassert (Hlk : session W !! k = Some _)
      by (cbn [session]; apply load_keeps, lookup_insert_eq);
    destruct (send_notification_outcome E m en pre k W _ job d Hlk Hfind Hd)
      as (r0 & mail & Heq & Hr & Hmail);
    rewrite Heq; clear Heq Hlk
  end.
  exists mail. split; [|split; [exact Hmail | exact Hold]].
  rewrite !flush_last, !lookup_insert_eq. cbn [default from_option id].
  rewrite !(flush_fresh _ _ rows Hfresh).
  rewrite filter_old_backups_attempt by reflexivity.
  match goal with
  | |- context [concat (map (cleanup_events E) (map ?f ?l))] =>
      replace (map f l) with l
  end.
  2:{ symmetry. apply (flush_fresh (next_backup_id rows)).
      intros x Hx. apply Hfresh.
      apply list_elem_of_In, filter_In in Hx as [Hx _]. apply list_elem_of_In, Hx. }
  destruct Hr as [-> | ->]; run; cbn [trace];
    rewrite Hj, <- !app_assoc; reflexivity.
Qed.

Lemma sweep_keeps_table E job w :
  backups (_cleanup_old_backups E job w).2 = backups w.
Proof.
  destruct (cleanup_old_backups_shape E job w) as (r & evs & s & n & -> & _).
  reflexivity.
Qed.

(** C1 (the code at the failing input): job 1 keeps thirty days and is run
    twice, forty-one days apart, from a store without backups.  The sweep of
    the second run leaves the newest Completed backup alone, which is the
    one of the run itself, and deletes the remote and the local artifact of
    the backup of the first run, which is older than the window; then it
    evaluates BackupStatus.DELETED, which is no member of the enumeration:
    the error is printed, and the record of the first backup stays
    Completed, with the paths of the files that are gone.  No sweep changes
    a record of the table. *)
Theorem second_run_sweeps_the_first_and_marks_nothing :
  let first :=
    mkBackup 1 1 COMPLETED (Some "/backups/backup_sales_20240101_120000.bak")
             (Some 1024) (Some "/sales/backup_sales_20240101_120000.bak")
             (Some noon) (Some (noon + 3)) None (noon + 1) in
  let later := noon + 41 * MICROSECONDS_PER_DAY in
  let second :=
    mkBackup 2 1 COMPLETED (Some "/backups/backup_sales_20240211_120000.bak")
             (Some 1024) (Some "/sales/backup_sales_20240211_120000.bak")
             (Some (later + 5)) (Some (later + 8)) None (later + 6) in
  let w1 := (_run_backup six_weeks 1 bare).2 in
  let w2 := (_run_backup six_weeks 1 w1).2 in
  retention_days nightly = 30
  /\ backups w1 = [first]
  /\ trace w2
     = trace w1
       ++ [ EvStatus 2 PENDING; EvStatus 2 IN_PROGRESS; EvConnect "DSN=sales";
            EvExecute (_create_backup_command "sales"
                         "/backups/backup_sales_20240211_120000.bak" FULL);
            EvUpload "/sales/backup_sales_20240211_120000.bak";
            EvStatus 2 COMPLETED; EvCall "_cleanup_old_backups" 1;
            EvCloudDelete "/sales/backup_sales_20240101_120000.bak";
            EvRemove "/backups/backup_sales_20240101_120000.bak";
            EvPrint "Error cleaning up backup 1: DELETED";
            EvCall "send_backup_success_notification" 2;
            EvEmail "ops@example.org" "Backup Completed Successfully - sales" ]
  /\ backups w2 = [first; second]
  /\ BackupStatus_getattr "DELETED" = None
  /\ (forall E job w, backups (_cleanup_old_backups E job w).2 = backups w).
Proof.
  cbv zeta.
  do 5 (split; [vm_compute; reflexivity|]).
  intros E job w. apply sweep_keeps_table.
Qed.
